(** * NodeManager of the NEST kernel (nestkernel/node_manager.cpp)

    A shallow embedding of the node manager: GID allocation and placement
    ([add_node], [next_local_gid_]), node lookup ([get_node],
    [get_thread_siblings]), the thread-local node lists
    ([ensure_valid_thread_local_ids]) and the prepare pass
    ([prepare_nodes]).

    Conventions.
    - [index] and [size_t] are unsigned 64-bit integers, [long] is signed
      64-bit and [thread] is [int]; all are carried by [Z], and the sums that
      can wrap in the source are written with [wrap64].
    - A [Node*] is an address into the pool memory owned by the models; the
      pool is the list [heap] and [Model::allocate] appends to it.
    - Exceptions are values of [exn]; a failed [assert], a null dereference and
      an out-of-range [operator[]] are values of [fault].
    - [reserve], [reserve_additional], [LOG] and [deprecation_warning] change
      capacities and diagnostics only and are not part of the state. *)

From stdpp Require Import base numbers list strings relations.

Local Open Scope Z_scope.

(** ** Machine integers *)

Definition wrap64 (z : Z) : Z := z mod 2 ^ 64.

(** ** Nodes and pool memory *)

Abbreviation ptr := nat.

(** The attributes of [Node] the manager reads or writes. A
    [SiblingContainer] is a [Node] whose [container_nodes_] is its vector of
    thread siblings; every other node has none. [n_calibrated_] counts the
    completed [calibrate()] calls of the node and [n_init_state_] its
    [init_state()] calls. *)
Record Node := mkNode {
  gid_ : Z;
  model_id_ : Z;
  thread_ : Z;
  vp_ : Z;
  thread_lid_ : Z;
  has_proxies_ : bool;
  local_receiver_ : bool;
  frozen_ : bool;
  uses_wfr_ : bool;
  buffers_initialized_ : bool;
  n_calibrated_ : nat;
  n_init_state_ : nat;
  container_nodes_ : list ptr
}.

Definition invalid_node : Node :=
  mkNode 0 0 0 (-1) 0 false false false false false 0%nat 0%nat [].

#[global] Instance Node_inhabited : Inhabited Node := populate invalid_node.

Definition set_gid_ (g : Z) (x : Node) : Node :=
  mkNode g (model_id_ x) (thread_ x) (vp_ x) (thread_lid_ x) (has_proxies_ x)
    (local_receiver_ x) (frozen_ x) (uses_wfr_ x) (buffers_initialized_ x)
    (n_calibrated_ x) (n_init_state_ x) (container_nodes_ x).

Definition set_model_id (m : Z) (x : Node) : Node :=
  mkNode (gid_ x) m (thread_ x) (vp_ x) (thread_lid_ x) (has_proxies_ x)
    (local_receiver_ x) (frozen_ x) (uses_wfr_ x) (buffers_initialized_ x)
    (n_calibrated_ x) (n_init_state_ x) (container_nodes_ x).

Definition set_thread (t : Z) (x : Node) : Node :=
  mkNode (gid_ x) (model_id_ x) t (vp_ x) (thread_lid_ x) (has_proxies_ x)
    (local_receiver_ x) (frozen_ x) (uses_wfr_ x) (buffers_initialized_ x)
    (n_calibrated_ x) (n_init_state_ x) (container_nodes_ x).

Definition set_vp (v : Z) (x : Node) : Node :=
  mkNode (gid_ x) (model_id_ x) (thread_ x) v (thread_lid_ x) (has_proxies_ x)
    (local_receiver_ x) (frozen_ x) (uses_wfr_ x) (buffers_initialized_ x)
    (n_calibrated_ x) (n_init_state_ x) (container_nodes_ x).

Definition set_thread_lid (l : Z) (x : Node) : Node :=
  mkNode (gid_ x) (model_id_ x) (thread_ x) (vp_ x) l (has_proxies_ x)
    (local_receiver_ x) (frozen_ x) (uses_wfr_ x) (buffers_initialized_ x)
    (n_calibrated_ x) (n_init_state_ x) (container_nodes_ x).

Definition set_has_proxies (b : bool) (x : Node) : Node :=
  mkNode (gid_ x) (model_id_ x) (thread_ x) (vp_ x) (thread_lid_ x) b
    (local_receiver_ x) (frozen_ x) (uses_wfr_ x) (buffers_initialized_ x)
    (n_calibrated_ x) (n_init_state_ x) (container_nodes_ x).

Definition set_local_receiver (b : bool) (x : Node) : Node :=
  mkNode (gid_ x) (model_id_ x) (thread_ x) (vp_ x) (thread_lid_ x)
    (has_proxies_ x) b (frozen_ x) (uses_wfr_ x) (buffers_initialized_ x)
    (n_calibrated_ x) (n_init_state_ x) (container_nodes_ x).

Definition set_buffers_initialized (b : bool) (x : Node) : Node :=
  mkNode (gid_ x) (model_id_ x) (thread_ x) (vp_ x) (thread_lid_ x)
    (has_proxies_ x) (local_receiver_ x) (frozen_ x) (uses_wfr_ x) b
    (n_calibrated_ x) (n_init_state_ x) (container_nodes_ x).

Definition count_calibrate (x : Node) : Node :=
  mkNode (gid_ x) (model_id_ x) (thread_ x) (vp_ x) (thread_lid_ x)
    (has_proxies_ x) (local_receiver_ x) (frozen_ x) (uses_wfr_ x)
    (buffers_initialized_ x) (S (n_calibrated_ x)) (n_init_state_ x)
    (container_nodes_ x).

Definition count_init_state (x : Node) : Node :=
  mkNode (gid_ x) (model_id_ x) (thread_ x) (vp_ x) (thread_lid_ x)
    (has_proxies_ x) (local_receiver_ x) (frozen_ x) (uses_wfr_ x)
    (buffers_initialized_ x) (n_calibrated_ x) (S (n_init_state_ x))
    (container_nodes_ x).

(** [SiblingContainer::push_back]. *)
Definition push_back (p : ptr) (x : Node) : Node :=
  mkNode (gid_ x) (model_id_ x) (thread_ x) (vp_ x) (thread_lid_ x)
    (has_proxies_ x) (local_receiver_ x) (frozen_ x) (uses_wfr_ x)
    (buffers_initialized_ x) (n_calibrated_ x) (n_init_state_ x)
    (container_nodes_ x ++ [p]).

Definition num_thread_siblings (x : Node) : Z :=
  Z.of_nat (length (container_nodes_ x)).

(** [Node::get_thread_sibling(i)] indexes the container's vector. *)
Definition get_thread_sibling (x : Node) (i : Z) : option ptr :=
  if i <? 0 then None else container_nodes_ x !! Z.to_nat i.

Abbreviation Heap := (list Node).

(** [*p] for an address handed out by [allocate]. *)
Definition deref (h : Heap) (p : ptr) : Node := h !!! p.

(** [p->setter(...)]. *)
Definition store (p : ptr) (f : Node → Node) (h : Heap) : Heap := alter f p h.

(** ** Collaborators of the manager *)

(** Modelled from the spec: the Model/Factory Registry ([Model],
    [ModelManager]) is defined outside node_manager.cpp. A model exposes the
    capability flags the allocator branches on and the attributes its
    prototype passes on to every instance. *)
Record Model := mkModel {
  potential_global_receiver : bool;
  has_proxies : bool;
  one_node_per_process : bool;
  is_off_grid : bool;
  prototype_uses_wfr : bool;
  prototype_frozen : bool
}.

(** A freshly constructed instance: no GID, no placement, no siblings. *)
Definition prototype (m : Model) : Node :=
  mkNode 0 0 0 (-1) 0 false false (prototype_frozen m) (prototype_uses_wfr m)
    false 0%nat 0%nat [].

(** Modelled from the spec: [Model::allocate(t)] hands out a fresh node from
    the pool of thread [t], constructed from the model's prototype. *)
Definition allocate (m : Model) (t : Z) (h : Heap) : ptr * Heap :=
  (length h, h ++ [prototype m]).

(** The topology service ([vp_manager], [mpi_manager]), the capacity of the
    registry and the model table, as the manager consumes them. They are
    defined outside node_manager.cpp and are parameters of the development. *)
Record Kernel := mkKernel {
  get_num_threads : Z;
  get_rank : Z;
  get_num_sim_processes : Z;
  get_num_rec_processes : Z;
  suggest_vp : Z → Z;
  suggest_rec_vp : Z → Z;
  vp_to_thread : Z → Z;
  thread_to_vp : Z → Z;
  is_local_vp : Z → bool;
  max_size : Z;
  models : list Model
}.

Definition get_num_node_models (K : Kernel) : Z := Z.of_nat (length (models K)).

Definition get_model (K : Kernel) (mid : Z) : option Model :=
  if mid <? 0 then None else models K !! Z.to_nat mid.

(** ** The local node registry *)

(** Modelled from the spec: [SparseNodeArray], the type of [local_nodes_], is
    defined outside node_manager.cpp. It stores one entry (node, GID) per
    locally materialized node, in insertion order, and the largest GID known,
    local or remote. *)
Record SparseNodeArray := mkSparseNodeArray {
  nodes_ : list (ptr * Z);
  max_gid_ : Z
}.

(** Modelled from the spec: [add_local_node] appends the node under its GID
    and advances the maximum GID. *)
Definition add_local_node (h : Heap) (p : ptr) (a : SparseNodeArray)
  : SparseNodeArray :=
  let gid := gid_ (deref h p) in
  mkSparseNodeArray (nodes_ a ++ [(p, gid)]) (Z.max (max_gid_ a) gid).

(** Modelled from the spec: [add_remote_node] advances the max-GID bookkeeping
    only. *)
Definition add_remote_node (gid : Z) (a : SparseNodeArray) : SparseNodeArray :=
  mkSparseNodeArray (nodes_ a) (Z.max (max_gid_ a) gid).

(** Modelled from the spec: [get_node_by_gid] returns null ([None]) if the GID
    is absent or remote. *)
Definition get_node_by_gid (a : SparseNodeArray) (gid : Z) : option ptr :=
  fst <$> List.find (λ e, snd e =? gid) (nodes_ a).

Definition get_max_gid (a : SparseNodeArray) : Z := max_gid_ a.

(** ** State of the manager *)

Record NodeManager := mkNodeManager {
  heap : Heap;
  local_nodes_ : SparseNodeArray;
  n_gsd_ : Z;
  nodes_vec_ : list (list ptr);
  wfr_nodes_vec_ : list (list ptr);
  wfr_is_used_ : bool;
  nodes_vec_network_size_ : Z;
  num_active_nodes_ : Z;
  modelranges : list (Z * Z * Z);
  off_grid_communication : bool
}.

(** The state the constructor leaves. *)
Definition NodeManager_init : NodeManager :=
  mkNodeManager [] (mkSparseNodeArray [] 0) 0 [] [] false 0 0 [] false.

Definition with_heap (h : Heap) (s : NodeManager) : NodeManager :=
  mkNodeManager h (local_nodes_ s) (n_gsd_ s) (nodes_vec_ s) (wfr_nodes_vec_ s)
    (wfr_is_used_ s) (nodes_vec_network_size_ s) (num_active_nodes_ s)
    (modelranges s) (off_grid_communication s).

Definition with_local_nodes (a : SparseNodeArray) (s : NodeManager)
  : NodeManager :=
  mkNodeManager (heap s) a (n_gsd_ s) (nodes_vec_ s) (wfr_nodes_vec_ s)
    (wfr_is_used_ s) (nodes_vec_network_size_ s) (num_active_nodes_ s)
    (modelranges s) (off_grid_communication s).

Definition increment_n_gsd (s : NodeManager) : NodeManager :=
  mkNodeManager (heap s) (local_nodes_ s) (n_gsd_ s + 1) (nodes_vec_ s)
    (wfr_nodes_vec_ s) (wfr_is_used_ s) (nodes_vec_network_size_ s)
    (num_active_nodes_ s) (modelranges s) (off_grid_communication s).

(** [kernel().modelrange_manager.add_range( mod, first, last )]. *)
Definition add_range (mid first last : Z) (s : NodeManager) : NodeManager :=
  mkNodeManager (heap s) (local_nodes_ s) (n_gsd_ s) (nodes_vec_ s)
    (wfr_nodes_vec_ s) (wfr_is_used_ s) (nodes_vec_network_size_ s)
    (num_active_nodes_ s) (modelranges s ++ [(mid, first, last)])
    (off_grid_communication s).

Definition set_off_grid_communication (b : bool) (s : NodeManager)
  : NodeManager :=
  mkNodeManager (heap s) (local_nodes_ s) (n_gsd_ s) (nodes_vec_ s)
    (wfr_nodes_vec_ s) (wfr_is_used_ s) (nodes_vec_network_size_ s)
    (num_active_nodes_ s) (modelranges s) b.

(** Modelled from the spec: [NodeManager::size()] is defined in
    node_manager.h, outside node_manager.cpp. It is the size of the network,
    not of the local registry: [print] binds it to [max_gid] and [get_status]
    publishes it as [network_size]. *)
Definition size (s : NodeManager) : Z := get_max_gid (local_nodes_ s).

(** ** Outcomes *)

Inductive exn :=
| UnknownModelID (mid : Z)
| BadProperty
| KernelException (msg : string)
| UnknownNode
| NoThreadSiblingsAvailable (gid : Z)
| WrappedThreadException (msg : string).

Inductive fault :=
| AssertionFailed
| NullDereference
| OutOfRange
| OutOfFuel.

(** A call returns a value and the state it leaves, throws an exception in
    the state reached at the [throw], or has no defined behaviour. *)
Inductive outcome (A : Type) :=
| Ok (a : A) (s : NodeManager)
| Throw (e : exn) (s : NodeManager)
| Fault (f : fault).
Arguments Ok {A} a s.
Arguments Throw {A} e s.
Arguments Fault {A} f.

(** The handle [add_node] returns: a primitive GID collection. *)
Record GIDCollection := GIDCollectionPrimitive {
  first_gid : Z;
  last_gid : Z;
  collection_model_id : Z
}.

(** ** Placement *)

Section Placement.
Context (K : Kernel).

(** [NodeManager::next_local_gid_]. *)
Definition next_local_gid_ (curr_gid : Z) : Z :=
  let rank := get_rank K in
  let sim_procs := get_num_sim_processes K in
  if sim_procs <=? rank then
    wrap64 (curr_gid + sim_procs)
  else
    let proc_of_curr_gid := curr_gid mod sim_procs in
    if proc_of_curr_gid =? rank then
      wrap64 (curr_gid + sim_procs)
    else
      wrap64 (curr_gid + wrap64 (sim_procs + rank - proc_of_curr_gid) mod sim_procs).

(** [siblingcontainer_model_], which [initialize] binds to model 0. *)
Definition siblingcontainer_model_ : option Model := get_model K 0.

(** Body of the loop over [gid] in the branch for global receivers. *)
Definition add_global_receiver (model : Model) (mid : Z) (s : NodeManager)
    (gid : Z) : NodeManager :=
  let vp := suggest_rec_vp K (n_gsd_ s) in
  let t := vp_to_thread K vp in
  let s :=
    if is_local_vp K vp then
      let '(newnode, h) := allocate model t (heap s) in
      let h := store newnode (set_gid_ gid) h in
      let h := store newnode (set_model_id mid) h in
      let h := store newnode (set_thread t) h in
      let h := store newnode (set_vp vp) h in
      let h := store newnode (set_has_proxies true) h in
      let h := store newnode (set_local_receiver false) h in
      with_local_nodes (add_local_node h newnode (local_nodes_ s))
        (with_heap h s)
    else
      with_local_nodes (add_remote_node gid (local_nodes_ s)) s in
  increment_n_gsd s.

(** The [while ( gid < max_gid )] loop of the branch for models with
    proxies. [fuel] bounds the number of iterations: each one advances [gid],
    so as many iterations as the range has GIDs suffice unless an addition
    wraps around. [visited] records the GIDs the loop body has been entered
    with. [++gid] cannot wrap, since [gid < max_gid]. *)
Fixpoint add_proxy_nodes (fuel : nat) (model : Model) (mid max_gid gid : Z)
    (visited : list Z) (s : NodeManager) : option (list Z * NodeManager) :=
  if gid <? max_gid then
    match fuel with
    | O => None
    | S fuel =>
        let vp := suggest_vp K gid in
        let t := vp_to_thread K vp in
        if is_local_vp K vp then
          let '(newnode, h) := allocate model t (heap s) in
          let h := store newnode (set_gid_ gid) h in
          let h := store newnode (set_model_id mid) h in
          let h := store newnode (set_thread t) h in
          let h := store newnode (set_vp vp) h in
          let s := with_local_nodes (add_local_node h newnode (local_nodes_ s))
                     (with_heap h s) in
          add_proxy_nodes fuel model mid max_gid (next_local_gid_ gid)
            (visited ++ [gid]) s
        else
          add_proxy_nodes fuel model mid max_gid (gid + 1)
            (visited ++ [gid]) s
    end
  else Some (visited, s).

(** Body of the loop over threads that fills one container. *)
Definition add_thread_sibling (model : Model) (mid gid : Z) (container : ptr)
    (h : Heap) (t : Z) : Heap :=
  let '(newnode, h) := allocate model t h in
  let h := store newnode (set_gid_ gid) h in
  let h := store newnode (set_model_id mid) h in
  let h := store newnode (set_thread t) h in
  let h := store newnode (set_vp (thread_to_vp K t)) h in
  store container (push_back newnode) h.

(** Body of the loop over [gid] in the branch for replicated devices. *)
Definition add_sibling_container (sc_model model : Model) (mid : Z)
    (s : NodeManager) (gid : Z) : NodeManager :=
  let thread_id := vp_to_thread K (suggest_vp K gid) in
  let '(container, h) := allocate sc_model thread_id (heap s) in
  let h := store container (set_model_id (-1)) h in
  let h := store container (set_gid_ gid) h in
  let a := add_local_node h container (local_nodes_ s) in
  let h := fold_left (add_thread_sibling model mid gid container)
             (seqZ 0 (get_num_threads K)) h in
  with_local_nodes a (with_heap h s).

(** Body of the loop over [gid] in the branch for one node per process. *)
Definition add_process_node (model : Model) (mid : Z) (s : NodeManager)
    (gid : Z) : NodeManager :=
  let '(newnode, h) := allocate model 0 (heap s) in
  let h := store newnode (set_gid_ gid) h in
  let h := store newnode (set_model_id mid) h in
  let h := store newnode (set_thread 0) h in
  let h := store newnode (set_vp (thread_to_vp K 0)) h in
  with_local_nodes (add_local_node h newnode (local_nodes_ s)) (with_heap h s).

(** The four placement branches of [add_node], after the range has been
    registered. *)
Definition place_nodes (model : Model) (mid n min_gid max_gid : Z)
    (s : NodeManager) : outcome unit :=
  if potential_global_receiver model && (0 <? get_num_rec_processes K) then
    Ok tt (fold_left (add_global_receiver model mid)
             (seqZ min_gid (max_gid - min_gid)) s)
  else if has_proxies model then
    let gid :=
      if is_local_vp K (suggest_vp K min_gid) then min_gid
      else next_local_gid_ min_gid in
    match add_proxy_nodes (Z.to_nat n) model mid max_gid gid [] s with
    | None => Fault OutOfFuel
    | Some (_, s) =>
        if negb (is_local_vp K (suggest_vp K (max_gid - 1))) then
          Ok tt (with_local_nodes
                   (add_remote_node (max_gid - 1) (local_nodes_ s)) s)
        else Ok tt s
    end
  else if negb (one_node_per_process model) then
    match siblingcontainer_model_ with
    | None => Fault NullDereference
    | Some sc_model =>
        Ok tt (fold_left (add_sibling_container sc_model model mid)
                 (seqZ min_gid (max_gid - min_gid)) s)
    end
  else
    Ok tt (fold_left (add_process_node model mid)
             (seqZ min_gid (max_gid - min_gid)) s).

(** [NodeManager::add_node]. *)
Definition add_node (mid n : Z) (s : NodeManager) : outcome GIDCollection :=
  if get_num_node_models K <=? mid then Throw (UnknownModelID mid) s
  else if n <? 1 then Throw BadProperty s
  else
    let n_threads := get_num_threads K in
    if negb (0 <? n_threads) then Fault AssertionFailed
    else
      let min_gid := wrap64 (get_max_gid (local_nodes_ s) + 1) in
      let max_gid := wrap64 (min_gid + n) in
      match get_model K mid with
      | None => Fault AssertionFailed
      | Some model =>
          if (max_size K <? max_gid) || (max_gid <? min_gid) then
            Throw (KernelException "OutOfMemory") s
          else
            let s := add_range mid min_gid (max_gid - 1) s in
            match place_nodes model mid n min_gid max_gid s with
            | Ok _ s =>
                let s :=
                  if is_off_grid model then set_off_grid_communication true s
                  else s in
                Ok (GIDCollectionPrimitive min_gid (max_gid - 1) mid) s
            | Throw e s => Throw e s
            | Fault f => Fault f
            end
      end.

End Placement.

(** ** Lookup *)

(** What [get_node] hands back: a node of the pool, or the proxy the model
    manager returns from [get_proxy_node(thr, n)]. *)
Inductive node_ref :=
| LocalNode (node : ptr)
| ProxyNode (thr n : Z).

(** [static_cast< thread >( ... )] of a [size_t]: [thread] is a signed 32-bit
    [int]. *)
Definition to_thread (z : Z) : Z := (z + 2 ^ 31) mod 2 ^ 32 - 2 ^ 31.

(** [NodeManager::get_node]. *)
Definition get_node (n thr : Z) (s : NodeManager) : outcome node_ref :=
  match get_node_by_gid (local_nodes_ s) n with
  | None => Ok (ProxyNode thr n) s
  | Some node =>
      if num_thread_siblings (deref (heap s) node) =? 0 then
        Ok (LocalNode node) s
      else if (thr <? 0)
              || (to_thread (num_thread_siblings (deref (heap s) node)) <=? thr)
      then Throw UnknownNode s
      else
        match get_thread_sibling (deref (heap s) node) thr with
        | Some sibling => Ok (LocalNode sibling) s
        | None => Fault OutOfRange
        end
  end.

(** [NodeManager::get_thread_siblings]: the pointer returned by the registry
    is dereferenced without a null test. *)
Definition get_thread_siblings (n : Z) (s : NodeManager) : outcome ptr :=
  match get_node_by_gid (local_nodes_ s) n with
  | None => Fault NullDereference
  | Some node =>
      if num_thread_siblings (deref (heap s) node) =? 0 then
        Throw (NoThreadSiblingsAvailable n) s
      else Ok node s
  end.

(** ** Thread-local node lists *)

Section ThreadLocal.
Context (K : Kernel).

(** Body of the second loop over [idx] for thread [t], which visits the
    entries of the registry in order: the state is the pool together with
    [nodes_vec_[t]] and [wfr_nodes_vec_[t]]. (The first loop over [idx] only
    counts, to reserve capacity.) *)
Definition collect_node (t : Z) (acc : option (Heap * list ptr * list ptr))
    (e : ptr * Z) : option (Heap * list ptr * list ptr) :=
  match acc with
  | None => None
  | Some (h, nv, wv) =>
      let node := e.1 in
      if 0 <? num_thread_siblings (deref h node) then
        match get_thread_sibling (deref h node) t with
        | None => None
        | Some sibling =>
            let h := store sibling (set_thread_lid (Z.of_nat (length nv))) h in
            Some (h, nv ++ [sibling], wv)
        end
      else if wrap64 (thread_ (deref h node)) =? t then
        let h := store node (set_thread_lid (Z.of_nat (length nv))) h in
        Some (h, nv ++ [node],
              if uses_wfr_ (deref h node) then wv ++ [node] else wv)
      else Some (h, nv, wv)
  end.

(** Body of the loop over threads: fills slot [t] of both vectors. *)
Definition collect_thread (entries : list (ptr * Z))
    (acc : option (Heap * list (list ptr) * list (list ptr))) (t : Z)
    : option (Heap * list (list ptr) * list (list ptr)) :=
  match acc with
  | None => None
  | Some (h, nvs, wvs) =>
      match fold_left (collect_node t) entries (Some (h, [], [])) with
      | None => None
      | Some (h, nv, wv) =>
          Some (h, <[Z.to_nat t := nv]> nvs, <[Z.to_nat t := wv]> wvs)
      end
  end.

(** [NodeManager::ensure_valid_thread_local_ids]. *)
Definition ensure_valid_thread_local_ids (s : NodeManager) : outcome unit :=
  if size s =? nodes_vec_network_size_ s then Ok tt s
  else if negb (size s =? nodes_vec_network_size_ s) then
    let n_threads := Z.to_nat (get_num_threads K) in
    match fold_left (collect_thread (nodes_ (local_nodes_ s)))
            (seqZ 0 (get_num_threads K))
            (Some (heap s, replicate n_threads [], replicate n_threads []))
    with
    | None => Fault OutOfRange
    | Some (h, nvs, wvs) =>
        Ok tt (mkNodeManager h (local_nodes_ s) (n_gsd_ s) nvs wvs
                 (existsb (λ wv, 0 <? Z.of_nat (length wv)) wvs) (size s)
                 (num_active_nodes_ s) (modelranges s)
                 (off_grid_communication s))
    end
  else Ok tt s.

End ThreadLocal.

(** ** Lifecycle passes *)

Section Lifecycle.
Context (K : Kernel).

(** The node models' own code, which is not the manager's: for each node,
    whether its [init_buffers()] or its [calibrate()] raises, and with which
    message. *)
Context (init_buffers_raises calibrate_raises : ptr → option string).

(** Modelled from the spec: [Node::init_buffers] marks the buffers as
    initialized. *)
Definition init_buffers (n : ptr) (h : Heap) : option string * Heap :=
  match init_buffers_raises n with
  | Some e => (Some e, h)
  | None => (None, store n (set_buffers_initialized true) h)
  end.

(** Modelled from the spec: [Node::calibrate] is the node's calibration
    step; a completed call is counted in [n_calibrated_]. *)
Definition calibrate (n : ptr) (h : Heap) : option string * Heap :=
  match calibrate_raises n with
  | Some e => (Some e, h)
  | None => (None, store n count_calibrate h)
  end.

(** [NodeManager::prepare_node_]. *)
Definition prepare_node_ (n : ptr) (h : Heap) : option string * Heap :=
  match init_buffers n h with
  | (Some e, h) => (Some e, h)
  | (None, h) => calibrate n h
  end.

(** The [try] block of one thread: the loop over [nodes_vec_[t]], left at
    the first exception. *)
Fixpoint prepare_thread (its : list ptr) (h : Heap)
    (num_active_nodes num_active_wfr_nodes : Z)
    : option string * Heap * Z * Z :=
  match its with
  | [] => (None, h, num_active_nodes, num_active_wfr_nodes)
  | it :: its =>
      match prepare_node_ it h with
      | (Some e, h) => (Some e, h, num_active_nodes, num_active_wfr_nodes)
      | (None, h) =>
          if negb (frozen_ (deref h it)) then
            prepare_thread its h (num_active_nodes + 1)
              (if uses_wfr_ (deref h it) then num_active_wfr_nodes + 1
               else num_active_wfr_nodes)
          else prepare_thread its h num_active_nodes num_active_wfr_nodes
      end
  end.

(** The loop over threads, as compiled without OpenMP; with OpenMP the
    threads run the same body in parallel, each on its own list.
    [exceptions_raised] has one slot per thread. *)
Fixpoint prepare_threads (ts : list Z) (nvs : list (list ptr)) (h : Heap)
    (num_active_nodes num_active_wfr_nodes : Z)
    (exceptions_raised : list (option string))
    : option (Heap * Z * Z * list (option string)) :=
  match ts with
  | [] => Some (h, num_active_nodes, num_active_wfr_nodes, exceptions_raised)
  | t :: ts =>
      match nvs !! Z.to_nat t with
      | None => None
      | Some its =>
          match prepare_thread its h num_active_nodes num_active_wfr_nodes with
          | (Some e, h, a, w) =>
              prepare_threads ts nvs h a w
                (<[Z.to_nat t := Some e]> exceptions_raised)
          | (None, h, a, w) => prepare_threads ts nvs h a w exceptions_raised
          end
      end
  end.

(** The first valid slot of [exceptions_raised], in thread order. *)
Fixpoint first_raised (exceptions_raised : list (option string))
    : option string :=
  match exceptions_raised with
  | [] => None
  | Some e :: _ => Some e
  | None :: rest => first_raised rest
  end.

Definition with_num_active_nodes (a : Z) (s : NodeManager) : NodeManager :=
  mkNodeManager (heap s) (local_nodes_ s) (n_gsd_ s) (nodes_vec_ s)
    (wfr_nodes_vec_ s) (wfr_is_used_ s) (nodes_vec_network_size_ s) a
    (modelranges s) (off_grid_communication s).

(** [NodeManager::prepare_nodes]. *)
Definition prepare_nodes (s : NodeManager) : outcome unit :=
  let n_threads := get_num_threads K in
  match prepare_threads (seqZ 0 n_threads) (nodes_vec_ s) (heap s) 0 0
          (replicate (Z.to_nat n_threads) None) with
  | None => Fault OutOfRange
  | Some (h, num_active_nodes, _, exceptions_raised) =>
      match first_raised exceptions_raised with
      | Some e => Throw (WrappedThreadException e) (with_heap h s)
      | None => Ok tt (with_num_active_nodes num_active_nodes (with_heap h s))
      end
  end.

(** Modelled from the spec: [Node::init_state] resets the state that is
    internal to the node model to that of the model prototype; a call is
    counted in [n_init_state_]. *)
Definition Node_init_state (n : ptr) (h : Heap) : Heap :=
  store n count_init_state h.

(** Body of the loop of [reset_nodes_state]. *)
Definition reset_node (h : Heap) (e : ptr * Z) : Heap :=
  let node := e.1 in
  if num_thread_siblings (deref h node) =? 0 then
    store node (set_buffers_initialized false) (Node_init_state node h)
  else if model_id_ (deref h node) =? -1 then
    fold_left
      (λ h it, store it (set_buffers_initialized false) (Node_init_state it h))
      (container_nodes_ (deref h node)) h
  else h.

(** [NodeManager::reset_nodes_state]. *)
Definition reset_nodes_state (s : NodeManager) : NodeManager :=
  with_heap (fold_left reset_node (nodes_ (local_nodes_ s)) (heap s)) s.

(** [NodeManager::reinit_nodes], which has the same body. *)
Definition reinit_nodes (s : NodeManager) : NodeManager :=
  with_heap (fold_left reset_node (nodes_ (local_nodes_ s)) (heap s)) s.

(** [NodeManager::init_state( index GID )]. Modelled from the spec:
    [get_node( GID )] asks for thread 0, the default argument declared in
    node_manager.h. [get_node] hands back a node of the pool or the proxy of
    the model manager, never a null pointer, so the test that follows it does
    not fire; the proxy is not a node of the pool. *)
Definition init_state (GID : Z) (s : NodeManager) : outcome unit :=
  match get_node GID 0 s with
  | Ok (LocalNode n) s => Ok tt (with_heap (Node_init_state n (heap s)) s)
  | Ok (ProxyNode _ _) s => Ok tt s
  | Throw e s => Throw e s
  | Fault f => Fault f
  end.

End Lifecycle.

(** ** A concrete topology *)

(** Modelled from the spec: the topology service is defined outside
    node_manager.cpp. Round-robin placement of GIDs over the virtual processes
    of the simulation processes, and of global receivers over the virtual
    processes of the recording processes; the simulation virtual process [vp]
    lives on process [vp mod n_sim] and thread [vp / n_sim]. *)
Definition round_robin (n_threads rank n_sim n_rec : Z) (ms : list Model)
  : Kernel :=
  mkKernel n_threads rank n_sim n_rec
    (λ gid, gid mod (n_sim * n_threads))
    (λ gid, gid mod (n_rec * n_threads) + n_sim * n_threads)
    (λ vp, if n_sim * n_threads <=? vp
           then (vp + n_sim * (1 - n_threads) - rank) / n_rec
           else vp / n_sim)
    (λ t, if n_sim <=? rank
          then t * n_rec + rank - n_sim + n_sim * n_threads
          else t * n_sim + rank)
    (λ vp, (if n_sim * n_threads <=? vp
            then (vp - n_sim * n_threads) mod n_rec + n_sim
            else vp mod n_sim) =? rank)
    (2 ^ 60) ms.

(** Model 0 is the sibling container; then a neuron, a device replicated on
    every thread, a proxy with one instance per process, and a recorder that
    can be placed on recording processes. *)
Definition siblingcontainer : Model := mkModel false false false false false false.
Definition neuron : Model := mkModel false true false false false false.
Definition device : Model := mkModel false false false false false false.
Definition music_proxy : Model := mkModel false false true false false false.
Definition recorder : Model := mkModel true false false false false false.
Definition example_models : list Model :=
  [siblingcontainer; neuron; device; music_proxy; recorder].

Definition state_of {A} (o : outcome A) : NodeManager :=
  match o with
  | Ok _ s => s
  | Throw _ s => s
  | Fault _ => NodeManager_init
  end.

(** ** Vocabulary of the specifications *)

(** Bounds the C++ types give: thread and process counts and the rank are
    non-negative [int]s, and the capacity of a vector of entries is well below
    [2 ^ 63]. *)
Record kernel_bounds (K : Kernel) : Prop := mk_kernel_bounds {
  threads_bound : 0 < get_num_threads K < 2 ^ 31;
  rank_bound : 0 <= get_rank K < 2 ^ 31;
  sim_processes_bound : 0 < get_num_sim_processes K < 2 ^ 31;
  rec_processes_bound : 0 <= get_num_rec_processes K < 2 ^ 31;
  max_size_bound : 0 <= max_size K < 2 ^ 63
}.

(** The GIDs the topology places on a virtual process of this process. *)
Definition is_local_gid (K : Kernel) (gid : Z) : bool :=
  is_local_vp K (suggest_vp K gid).

(** The topology places GID [g] on the simulation process [g mod n_sim]: a
    pure recording process owns none. *)
Definition placement_by_rank (K : Kernel) : Prop :=
  ∀ g, 0 <= g →
    is_local_gid K g = true ↔ g mod get_num_sim_processes K = get_rank K.

(** Local virtual processes run on one of the threads of this process. *)
Definition local_threads_in_range (K : Kernel) : Prop :=
  ∀ g, 0 <= g →
    (is_local_vp K (suggest_vp K g) = true →
       0 <= vp_to_thread K (suggest_vp K g) < get_num_threads K)
    ∧ (is_local_vp K (suggest_rec_vp K g) = true →
       0 <= vp_to_thread K (suggest_rec_vp K g) < get_num_threads K).

(** The node the has-proxies branch constructs for [gid]. *)
Definition proxy_node (K : Kernel) (model : Model) (mid gid : Z) : Node :=
  set_vp (suggest_vp K gid)
    (set_thread (vp_to_thread K (suggest_vp K gid))
       (set_model_id mid (set_gid_ gid (prototype model)))).

(** The node the global-receiver branch constructs for [gid] on [vp]. *)
Definition receiver_node (K : Kernel) (model : Model) (mid gid vp : Z) : Node :=
  set_local_receiver false
    (set_has_proxies true
       (set_vp vp
          (set_thread (vp_to_thread K vp)
             (set_model_id mid (set_gid_ gid (prototype model)))))).

(** The node the one-per-process branch constructs for [gid]. *)
Definition process_node (K : Kernel) (model : Model) (mid gid : Z) : Node :=
  set_vp (thread_to_vp K 0)
    (set_thread 0 (set_model_id mid (set_gid_ gid (prototype model)))).

(** The replica of [gid] on thread [t]. *)
Definition sibling_node (K : Kernel) (model : Model) (mid gid t : Z) : Node :=
  set_vp (thread_to_vp K t)
    (set_thread t (set_model_id mid (set_gid_ gid (prototype model)))).

(** The container of [gid] once it holds the replicas [siblings]. *)
Definition container_node (sc_model : Model) (gid : Z) (siblings : list ptr)
  : Node :=
  fold_left (λ c p, push_back p c) siblings
    (set_gid_ gid (set_model_id (-1) (prototype sc_model))).

(** Append [x] and the nodes [extra] to the pool and register [x] under its
    GID. *)
Definition register (x : Node) (extra : list Node) (s : NodeManager)
  : NodeManager :=
  with_local_nodes
    (mkSparseNodeArray
       (nodes_ (local_nodes_ s) ++ [(length (heap s), gid_ x)])
       (Z.max (max_gid_ (local_nodes_ s)) (gid_ x)))
    (with_heap (heap s ++ x :: extra) s).


(** The GIDs of [lo, hi) the topology places on this process, in order. *)
Definition local_gids (K : Kernel) (lo hi : Z) : list Z :=
  List.filter (is_local_gid K) (seqZ lo (hi - lo)).


(** Register the nodes of the has-proxies branch for the GIDs [l]. *)
Definition register_proxy_nodes (K : Kernel) (model : Model) (mid : Z)
    (l : list Z) (s : NodeManager) : NodeManager :=
  fold_left (λ s g, register (proxy_node K model mid g) [] s) l s.


(** What placing nodes does to the state: the pool and the registry are
    extended at their ends, the maximum GID does not decrease, and the
    thread-local lists, the counters and the range table are left alone. *)
Record grows (s s' : NodeManager) : Prop := mk_grows {
  grows_heap : heap s `prefix_of` heap s';
  grows_nodes : nodes_ (local_nodes_ s) `prefix_of` nodes_ (local_nodes_ s');
  grows_max_gid : max_gid_ (local_nodes_ s) <= max_gid_ (local_nodes_ s');
  grows_nodes_vec : nodes_vec_ s' = nodes_vec_ s;
  grows_wfr_nodes_vec : wfr_nodes_vec_ s' = wfr_nodes_vec_ s;
  grows_wfr_is_used : wfr_is_used_ s' = wfr_is_used_ s;
  grows_network_size : nodes_vec_network_size_ s' = nodes_vec_network_size_ s;
  grows_num_active : num_active_nodes_ s' = num_active_nodes_ s;
  grows_modelranges : modelranges s' = modelranges s;
  grows_off_grid : off_grid_communication s' = off_grid_communication s
}.

(** Every range handed out so far lies at or below the maximum GID. *)
Definition ranges_allocated (s : NodeManager) : Prop :=
  Forall (λ r : Z * Z * Z, r.2 <= get_max_gid (local_nodes_ s)) (modelranges s).


(** The topology of the scenarios: two processes with two threads each;
    [rank] is the process the manager runs on. *)
Definition two_by_two (rank : Z) : Kernel :=
  round_robin 2 rank 2 0 example_models.

(** One process with two threads. *)
Definition one_by_two : Kernel := round_robin 2 0 1 0 example_models.



(** The scenario of the spec on process 0: five neurons, GIDs 1 to 5, then one
    replicated device, GID 6. *)
Definition five_neurons (rank : Z) : NodeManager :=
  state_of (add_node (two_by_two rank) 1 5 NodeManager_init).

Definition neurons_and_device (rank : Z) : NodeManager :=
  state_of (add_node (two_by_two rank) 2 1 (five_neurons rank)).


(** Every entry of the registry lies at or below the maximum GID. *)
Definition registry_below_max (s : NodeManager) : Prop :=
  Forall (λ e : ptr * Z, e.2 <= max_gid_ (local_nodes_ s))
    (nodes_ (local_nodes_ s)).

(** GID [g] resolves to the container [c], which holds one replica of model
    [mid] per thread of the process, each on its thread and under GID [g]. *)
Record replicated (K : Kernel) (mid : Z) (s : NodeManager) (g : Z) (c : ptr)
  : Prop := mk_replicated {
  rep_lookup : get_node_by_gid (local_nodes_ s) g = Some c;
  rep_valid : (c < length (heap s))%nat;
  rep_gid : gid_ (deref (heap s) c) = g;
  rep_model : model_id_ (deref (heap s) c) = -1;
  rep_count : num_thread_siblings (deref (heap s) c) = get_num_threads K;
  rep_siblings : ∀ t, 0 <= t < get_num_threads K →
    ∃ p, get_thread_sibling (deref (heap s) c) t = Some p
      ∧ (p < length (heap s))%nat
      ∧ gid_ (deref (heap s) p) = g
      ∧ model_id_ (deref (heap s) p) = mid
      ∧ thread_ (deref (heap s) p) = t
      ∧ vp_ (deref (heap s) p) = thread_to_vp K t
      ∧ num_thread_siblings (deref (heap s) p) = 0
}.


(** The state a call leaves behind, when it returns or throws. *)
Definition result_state {A} (o : outcome A) : option NodeManager :=
  match o with
  | Ok _ s => Some s
  | Throw _ s => Some s
  | Fault _ => None
  end.

(** One operation of the manager on its nodes, whether it returns or throws.
    The count passed to [add_node] is a [long]; the node models' own code
    ([init_buffers], [calibrate]) may raise as it likes. The remaining
    operations ([set_status], [post_run_cleanup], [finalize_nodes]) only call
    into the node models. *)
Inductive manager_step (K : Kernel) : NodeManager → NodeManager → Prop :=
| step_add_node mid n s s' :
    - 2 ^ 63 <= n < 2 ^ 63 →
    result_state (add_node K mid n s) = Some s' → manager_step K s s'
| step_get_node g t s s' :
    result_state (get_node g t s) = Some s' → manager_step K s s'
| step_get_thread_siblings g s s' :
    result_state (get_thread_siblings g s) = Some s' → manager_step K s s'
| step_ensure_valid_thread_local_ids s s' :
    result_state (ensure_valid_thread_local_ids K s) = Some s' →
    manager_step K s s'
| step_prepare_nodes init_buffers_raises calibrate_raises s s' :
    result_state (prepare_nodes K init_buffers_raises calibrate_raises s)
      = Some s' →
    manager_step K s s'
| step_reset_nodes_state s :
    manager_step K s (reset_nodes_state s)
| step_reinit_nodes s :
    manager_step K s (reinit_nodes s).

(** The attributes of a node that are fixed when it is created: everything
    but the thread-local index, the buffer flag and the counts of
    [calibrate()] and [init_state()] calls. *)
Definition same_identity (x y : Node) : Prop :=
  gid_ y = gid_ x ∧ model_id_ y = model_id_ x ∧ thread_ y = thread_ x
  ∧ vp_ y = vp_ x ∧ has_proxies_ y = has_proxies_ x
  ∧ local_receiver_ y = local_receiver_ x ∧ frozen_ y = frozen_ x
  ∧ uses_wfr_ y = uses_wfr_ x ∧ container_nodes_ y = container_nodes_ x.

(** Pool [h'] holds every node of [h], at the same address and with the same
    identity. *)
Definition heap_stable (h h' : Heap) : Prop :=
  (length h <= length h')%nat
  ∧ ∀ p, (p < length h)%nat → same_identity (deref h p) (deref h' p).

(** Pool [h'] is [h] updated in place, every node keeping its identity. *)
Definition heap_updated (h h' : Heap) : Prop :=
  length h' = length h ∧ ∀ p, same_identity (deref h p) (deref h' p).

(** What one registry entry contributes to the list of thread [t]: the
    replica of [t] for a container, the node itself for a plain node of that
    thread. *)
Definition thread_local_node (h : Heap) (t : Z) (e : ptr * Z) : list ptr :=
  if 0 <? num_thread_siblings (deref h e.1) then
    match get_thread_sibling (deref h e.1) t with
    | Some sibling => [sibling]
    | None => []
    end
  else if wrap64 (thread_ (deref h e.1)) =? t then [e.1]
  else [].

(** The list of thread [t] a rebuild produces from the registry. *)
Definition thread_local_nodes (h : Heap) (entries : list (ptr * Z)) (t : Z)
  : list ptr :=
  concat (thread_local_node h t <$> entries).

(** Every container of the registry has a replica for each thread. *)
Definition containers_complete (K : Kernel) (h : Heap)
    (entries : list (ptr * Z)) : Prop :=
  Forall (λ e : ptr * Z,
            0 < num_thread_siblings (deref h e.1) →
            get_num_threads K <= num_thread_siblings (deref h e.1)) entries.

(** The nodes [add_node] registers for GID [g] in state [s], with the nodes
    that go to the pool along with them: a global receiver on a local
    recording virtual process, a node with proxies on a local virtual process,
    a container with its replicas, or the single instance of the process. *)
Inductive placed_node (K : Kernel) (model : Model) (mid : Z) (s : NodeManager)
    (g : Z) : Node → list Node → Prop :=
| placed_receiver :
    is_local_vp K (suggest_rec_vp K (n_gsd_ s)) = true →
    placed_node K model mid s g
      (receiver_node K model mid g (suggest_rec_vp K (n_gsd_ s))) []
| placed_proxy :
    is_local_vp K (suggest_vp K g) = true →
    placed_node K model mid s g (proxy_node K model mid g) []
| placed_container sc_model :
    placed_node K model mid s g
      (container_node sc_model g
         (seq (S (length (heap s))) (Z.to_nat (get_num_threads K))))
      (sibling_node K model mid g <$> seqZ 0 (get_num_threads K))
| placed_process :
    placed_node K model mid s g (process_node K model mid g) [].

(** A registry entry addresses a node of the pool that carries the GID of the
    entry and is either a plain node on one of the threads of the process or
    a container with one replica per thread. *)
Definition entry_ok (K : Kernel) (h : Heap) (e : ptr * Z) : Prop :=
  (e.1 < length h)%nat
  ∧ gid_ (deref h e.1) = e.2
  ∧ ((container_nodes_ (deref h e.1) = []
      ∧ 0 <= thread_ (deref h e.1) < get_num_threads K)
     ∨ num_thread_siblings (deref h e.1) = get_num_threads K).

(** The invariant of the manager's state. *)
Record wf (K : Kernel) (s : NodeManager) : Prop := mk_wf {
  wf_max_gid : 0 <= max_gid_ (local_nodes_ s) <= max_size K;
  wf_n_gsd : 0 <= n_gsd_ s;
  wf_below : registry_below_max s;
  wf_entries : Forall (entry_ok K (heap s)) (nodes_ (local_nodes_ s))
}.

(** The entries of [s'] that [s] does not have yet. *)
Definition new_entries (s s' : NodeManager) : list (ptr * Z) :=
  drop (length (nodes_ (local_nodes_ s))) (nodes_ (local_nodes_ s')).

(** What [add_node] does to a state [s]: pool and registry are extended at
    their ends, the new entries lie above the maximum GID of [s], and the
    thread-local lists and the recorded network size are left alone. *)
Record extended (s s' : NodeManager) : Prop := mk_extended {
  ext_heap : heap s `prefix_of` heap s';
  ext_nodes : nodes_ (local_nodes_ s) `prefix_of` nodes_ (local_nodes_ s');
  ext_new : Forall (λ e : ptr * Z, max_gid_ (local_nodes_ s) < e.2)
              (new_entries s s');
  ext_nodes_vec : nodes_vec_ s' = nodes_vec_ s;
  ext_wfr_nodes_vec : wfr_nodes_vec_ s' = wfr_nodes_vec_ s;
  ext_wfr_is_used : wfr_is_used_ s' = wfr_is_used_ s;
  ext_network_size : nodes_vec_network_size_ s' = nodes_vec_network_size_ s
}.


(** The thread-local lists are those a rebuild produces from the registry,
    and the recorded network size is the current one. *)
Definition cache_current (K : Kernel) (s : NodeManager) : Prop :=
  nodes_vec_network_size_ s = size s
  ∧ ∀ t, 0 <= t < get_num_threads K →
      nodes_vec_ s !!! Z.to_nat t
      = thread_local_nodes (heap s) (nodes_ (local_nodes_ s)) t.

(** Process 1 of the scenario after the five neurons, with the thread-local
    lists built. *)
Definition five_neurons_listed : NodeManager :=
  state_of (ensure_valid_thread_local_ids (two_by_two 1) (five_neurons 1)).



(** Node [q] has received its preparation call between [h] and [h']: its
    buffers are initialized and it has been calibrated once more. *)
Definition prepared (h h' : Heap) (q : ptr) : Prop :=
  buffers_initialized_ (deref h' q) = true
  ∧ n_calibrated_ (deref h' q) = S (n_calibrated_ (deref h q)).

(** Between [h] and [h'] the nodes [ps] have been prepared, and no node but
    these and [p] has been touched. *)
Definition pass_effect (ps : list ptr) (p : ptr) (h h' : Heap) : Prop :=
  length h' = length h
  ∧ ∀ q, q ≠ p →
      (q ∈ ps → prepared h h' q) ∧ (q ∉ ps → deref h' q = deref h q).

(** The first exception the preparation of node [n] raises, if any. *)
Definition preparation_raises
    (init_buffers_raises calibrate_raises : ptr → option string) (n : ptr)
  : option string :=
  match init_buffers_raises n with
  | Some e => Some e
  | None => calibrate_raises n
  end.

(** The calibration of the node at address 0 fails; no other call does. *)
Definition calibrate_fails_at_0 (n : ptr) : option string :=
  if Nat.eqb n 0 then Some "calibration failed"%string else None.


(** The nodes an entry of the registry owns: the registered node and, for a
    container, its replicas. *)
Definition entry_nodes (h : Heap) (e : ptr * Z) : list ptr :=
  e.1 :: container_nodes_ (deref h e.1).

(** The nodes the registry owns. *)
Definition owned_nodes (h : Heap) (entries : list (ptr * Z)) : list ptr :=
  concat (entry_nodes h <$> entries).

(** Every node the registry owns is a node of the pool, and none is owned
    twice. *)
Record owns (s : NodeManager) : Prop := mk_owns {
  owns_NoDup : NoDup (owned_nodes (heap s) (nodes_ (local_nodes_ s)));
  owns_valid : Forall (λ q, (q < length (heap s))%nat)
                 (owned_nodes (heap s) (nodes_ (local_nodes_ s)))
}.

(** The nodes of [its] that are not frozen. *)
Definition active_nodes (h : Heap) (its : list ptr) : list ptr :=
  List.filter (λ q, negb (frozen_ (deref h q))) its.

(** Process [rank] of the scenario after the five neurons and the device,
    with the thread-local lists built. *)
Definition neurons_and_device_listed (rank : Z) : NodeManager :=
  state_of (ensure_valid_thread_local_ids (two_by_two rank)
              (neurons_and_device rank)).

(** The nodes the body of [reset_nodes_state] resets for one registry entry:
    a plain node itself, the replicas of a container, and nothing for a node
    with siblings whose model id is not [-1]. *)
Definition reset_targets (h : Heap) (e : ptr * Z) : list ptr :=
  if num_thread_siblings (deref h e.1) =? 0 then [e.1]
  else if model_id_ (deref h e.1) =? -1 then container_nodes_ (deref h e.1)
  else [].

(** The pool after the nodes [ps] have been given the thread-local indices
    [k], [k + 1], ... in order. *)
Fixpoint assign_lids (k : nat) (ps : list ptr) (h : Heap) : Heap :=
  match ps with
  | [] => h
  | p :: ps => assign_lids (S k) ps (store p (set_thread_lid (Z.of_nat k)) h)
  end.

(** What one registry entry contributes to the relaxation list of thread
    [t]: a plain node of that thread that uses waveform relaxation, and
    nothing for a container. *)
Definition wfr_local_node (h : Heap) (t : Z) (e : ptr * Z) : list ptr :=
  if 0 <? num_thread_siblings (deref h e.1) then []
  else if wrap64 (thread_ (deref h e.1)) =? t then
    if uses_wfr_ (deref h e.1) then [e.1] else []
  else [].

(** The relaxation list of thread [t] a rebuild produces from the registry. *)
Definition wfr_local_nodes (h : Heap) (entries : list (ptr * Z)) (t : Z)
  : list ptr :=
  concat (wfr_local_node h t <$> entries).

(** A neuron model that uses waveform relaxation, and one process with two
    threads that knows it as model 1. *)
Definition gap_neuron : Model := mkModel false true false false true false.

Definition one_by_two_wfr : Kernel :=
  round_robin 2 0 1 0 [siblingcontainer; gap_neuron; neuron].

(** Two neurons that use waveform relaxation, GIDs 1 and 2, and a plain
    neuron, GID 3. *)
Definition gap_neurons : NodeManager :=
  state_of (add_node one_by_two_wfr 2 1
              (state_of (add_node one_by_two_wfr 1 2 NodeManager_init))).

(** The ranges [ranges] follow one another without a gap: the first starts
    at GID [from], each of the others right after the one before it, none is
    empty, and the last ends at GID [to]. *)
Fixpoint ranges_tile (from : Z) (ranges : list (Z * Z * Z)) (to : Z) : Prop :=
  match ranges with
  | [] => to = from - 1
  | (_, first, last) :: rest =>
      first = from ∧ first <= last ∧ ranges_tile (last + 1) rest to
  end.

(** [NodeManager::is_local_node]. *)
Definition is_local_node (K : Kernel) (h : Heap) (n : ptr) : bool :=
  is_local_vp K (vp_ (deref h n)).

(** The virtual process of every thread of this process is local. *)
Definition local_thread_vps (K : Kernel) : Prop :=
  ∀ t, 0 <= t < get_num_threads K → is_local_vp K (thread_to_vp K t) = true.

(** The node of a plain registry entry is local, and so are the replicas of
    a container. *)
Definition entry_local (K : Kernel) (h : Heap) (e : ptr * Z) : Prop :=
  (num_thread_siblings (deref h e.1) = 0 → is_local_node K h e.1 = true)
  ∧ Forall (λ p, is_local_node K h p = true) (container_nodes_ (deref h e.1)).

(** ** Passes that call a hook of the node models *)

(** [post_run_cleanup] and [finalize_nodes] walk the registry once for every
    thread and call a hook of the node model ([Node::post_run_cleanup],
    [Node::finalize]) on the nodes of that thread. The hooks are the node
    models' own code; a pass is modelled by the calls it makes, the thread
    and the node, in the order of the loops as compiled without OpenMP. The
    pointers [get_node_by_index] returns for the entries of the registry are
    never null. *)

(** Body of the loop over [idx] for thread [t]. *)
Definition call_hook (h : Heap) (t : Z) (acc : option (list (Z * ptr)))
    (e : ptr * Z) : option (list (Z * ptr)) :=
  match acc with
  | None => None
  | Some calls =>
      let node := e.1 in
      if 0 <? num_thread_siblings (deref h node) then
        match get_thread_sibling (deref h node) t with
        | None => None
        | Some sibling => Some (calls ++ [(t, sibling)])
        end
      else if wrap64 (thread_ (deref h node)) =? t then
        Some (calls ++ [(t, node)])
      else Some calls
  end.

(** The loop over the threads. *)
Definition call_hooks (K : Kernel) (s : NodeManager)
  : option (list (Z * ptr)) :=
  fold_left (λ acc t, fold_left (call_hook (heap s) t) (nodes_ (local_nodes_ s)) acc)
    (seqZ 0 (get_num_threads K)) (Some []).

(** [NodeManager::post_run_cleanup]. *)
Definition post_run_cleanup (K : Kernel) (s : NodeManager)
  : outcome (list (Z * ptr)) :=
  match call_hooks K s with
  | None => Fault OutOfRange
  | Some calls => Ok calls s
  end.

(** [NodeManager::finalize_nodes]. *)
Definition finalize_nodes (K : Kernel) (s : NodeManager)
  : outcome (list (Z * ptr)) :=
  match call_hooks K s with
  | None => Fault OutOfRange
  | Some calls => Ok calls s
  end.

(** The calls a pass over the lists [lists] makes: for every thread, in
    order, the nodes of its list. *)
Definition calls_of_lists (K : Kernel) (lists : list (list ptr))
  : list (Z * ptr) :=
  concat ((λ t : Z, pair t <$> ((lists !!! Z.to_nat t) : list ptr))
            <$> seqZ 0 (get_num_threads K)).

(** ** Teardown *)

(** Modelled from the spec: [SparseNodeArray::clear], which is defined
    outside node_manager.cpp, is used at teardown and leaves the registry
    empty, as at construction. *)
Definition clear (a : SparseNodeArray) : SparseNodeArray :=
  mkSparseNodeArray [] 0.

(** Body of the loop of [destruct_nodes_]: the destructor runs on the thread
    siblings of the node, in thread order, and then on the node. A destructed
    node keeps its place in the pool, which belongs to the models; the pass is
    modelled by the destructor calls it makes. *)
Definition destruct_node (h : Heap) (acc : option (list ptr)) (e : ptr * Z)
  : option (list ptr) :=
  match acc with
  | None => None
  | Some calls =>
      let node := e.1 in
      match mapM (get_thread_sibling (deref h node))
              (seqZ 0 (num_thread_siblings (deref h node))) with
      | None => None
      | Some siblings => Some (calls ++ siblings ++ [node])
      end
  end.

(** [NodeManager::destruct_nodes_]. *)
Definition destruct_nodes_ (s : NodeManager) : outcome (list ptr) :=
  match fold_left (destruct_node (heap s)) (nodes_ (local_nodes_ s)) (Some []) with
  | None => Fault OutOfRange
  | Some calls => Ok calls (with_local_nodes (clear (local_nodes_ s)) s)
  end.

(** [NodeManager::finalize]; the destructor of the manager has the same
    body. *)
Definition finalize (s : NodeManager) : outcome (list ptr) := destruct_nodes_ s.

(** The replicas of a container are nodes of the pool that carry the GID of
    the container, each on the thread of its position, and have no replicas
    of their own. *)
Definition replicas_ok (h : Heap) (e : ptr * Z) : Prop :=
  ∀ (t : nat) p, container_nodes_ (deref h e.1) !! t = Some p →
    (p < length h)%nat
    ∧ gid_ (deref h p) = e.2
    ∧ thread_ (deref h p) = Z.of_nat t
    ∧ container_nodes_ (deref h p) = [].

(** ** Start-up *)

Definition with_nodes_vec_network_size (n : Z) (s : NodeManager)
  : NodeManager :=
  mkNodeManager (heap s) (local_nodes_ s) (n_gsd_ s) (nodes_vec_ s)
    (wfr_nodes_vec_ s) (wfr_is_used_ s) n (num_active_nodes_ s)
    (modelranges s) (off_grid_communication s).

Section Startup.
Context (K : Kernel).

(** [Model::get_name], which is defined outside node_manager.cpp. *)
Context (get_name : Model → string).

(** [NodeManager::initialize]: the two assertions on model 0, to which
    [siblingcontainer_model_] is bound, the reset of the recorded network
    size, and the call of [ensure_valid_thread_local_ids]. *)
Definition initialize (s : NodeManager) : outcome unit :=
  match siblingcontainer_model_ K with
  | None => Fault AssertionFailed
  | Some m =>
      if negb (String.eqb (get_name m) "siblingcontainer") then
        Fault AssertionFailed
      else
        ensure_valid_thread_local_ids K (with_nodes_vec_network_size 0 s)
  end.

End Startup.

(** ** Status of a node *)

(** What [set_status] can raise: an exception of the node model, or the
    complaint of [ALL_ENTRIES_ACCESSED] about entries no one has read. *)
Inductive status_exn :=
| NodeRaised (msg : string)
| UnaccessedDictionaryEntry.

Section Status.

(** [DictionaryDatum] with the access flags of its entries, and the code of
    the node models; all of them are defined outside node_manager.cpp.
    [set_status_base] gives the exception the node raises, if any, the node
    as the call leaves it, and the dictionary with the entries it has read
    marked. [clear_flags_default] is the default value of the last argument
    of [set_status_single_node_], which node_manager.h declares. *)
Context (Dict : Type).
Context (clear_access_flags : Dict → Dict).
Context (all_entries_accessed : Dict → bool).
Context (is_proxy : Node → bool).
Context (set_status_base : Node → Dict → option string * Node * Dict).
Context (clear_flags_default : bool).

(** [NodeManager::set_status_single_node_]. *)
Definition set_status_single_node_ (target : ptr) (d : Dict)
    (clear_flags : bool) (h : Heap) : option status_exn * Heap * Dict :=
  if negb (is_proxy (deref h target)) then
    let d := if clear_flags then clear_access_flags d else d in
    let '(raised, x, d) := set_status_base (deref h target) d in
    let h := store target (λ _, x) h in
    match raised with
    | Some e => (Some (NodeRaised e), h, d)
    | None =>
        if all_entries_accessed d then (None, h, d)
        else (Some UnaccessedDictionaryEntry, h, d)
    end
  else (None, h, d).

(** The loop of [set_status] over the thread siblings of [target], from
    thread [t] on; the bound is read from the container in every round.
    [visited] records the nodes handed to [set_status_single_node_], and
    [fuel] bounds the number of rounds; the result is [None] when the fuel
    runs out or the assertion on the sibling fails. *)
Fixpoint set_status_siblings (fuel : nat) (target : ptr) (t : Z) (d : Dict)
    (h : Heap) (visited : list ptr)
    : option (option status_exn * Heap * Dict * list ptr) :=
  if t <? num_thread_siblings (deref h target) then
    match fuel with
    | O => None
    | S fuel =>
        match get_thread_sibling (deref h target) t with
        | None => None
        | Some sibling =>
            match set_status_single_node_ sibling d clear_flags_default h with
            | (Some e, h, d) => Some (Some e, h, d, visited ++ [sibling])
            | (None, h, d) =>
                set_status_siblings fuel target (t + 1) d h (visited ++ [sibling])
            end
        end
    end
  else Some (None, h, d, visited).

(** [NodeManager::set_status( index gid, const DictionaryDatum& d )]: the
    exception raised, if any, the state and the dictionary the call leaves,
    and the nodes handed to [set_status_single_node_]. *)
Definition set_status (fuel : nat) (gid : Z) (d : Dict) (s : NodeManager)
  : option (option status_exn * NodeManager * Dict * list ptr) :=
  match get_node_by_gid (local_nodes_ s) gid with
  | None => Some (None, s, d, [])
  | Some target =>
      if num_thread_siblings (deref (heap s) target) =? 0 then
        let '(e, h, d) :=
          set_status_single_node_ target d clear_flags_default (heap s) in
        Some (e, with_heap h s, d, [target])
      else
        match set_status_siblings fuel target 0 d (heap s) [] with
        | Some (e, h, d, visited) => Some (e, with_heap h s, d, visited)
        | None => None
        end
  end.

End Status.

(** The loop over the replicas [sibs] as the container lists them when the
    loop starts. *)
Fixpoint set_status_each {Dict : Type}
    (single : ptr → Dict → Heap → option status_exn * Heap * Dict)
    (sibs : list ptr) (d : Dict) (h : Heap) (visited : list ptr)
    : option status_exn * Heap * Dict * list ptr :=
  match sibs with
  | [] => (None, h, d, visited)
  | q :: sibs =>
      match single q d h with
      | (Some e, h, d) => (Some e, h, d, visited ++ [q])
      | (None, h, d) => set_status_each single sibs d h (visited ++ [q])
      end
  end.

(** The nodes [set_status] is to reach for [gid]: the registered plain node,
    or the replicas of the registered container. *)
Definition status_targets (s : NodeManager) (gid : Z) : list ptr :=
  match get_node_by_gid (local_nodes_ s) gid with
  | None => []
  | Some c =>
      if num_thread_siblings (deref (heap s) c) =? 0 then [c]
      else container_nodes_ (deref (heap s) c)
  end.

(** ** Restoring nodes *)

Section Restore.
Context (K : Kernel).

(** The property records and the code they are handed to, all defined
    outside node_manager.cpp: [model_name] reads the entry [names::model] of
    a record, [get_model_id] is [ModelManager::get_model_id] with its result
    converted to [index], [set_status_base] is [Node::set_status_base] on a
    node of the pool, giving the exception it raises, if any, and the node as
    the call leaves it, and [set_status_base_proxy] is the same call on the
    proxy the model manager hands out for a GID. *)
Context (Dict : Type).
Context (model_name : Dict → string).
Context (get_model_id : string → Z).
Context (set_status_base : Node → Dict → option exn * Node).
Context (set_status_base_proxy : Z → Dict → option exn).

(** Body of the loop of [restore_nodes]. Modelled from the spec: the call
    [add_node( model_id )] allocates exactly one node, and [get_node( gid )]
    asks for thread 0; both default arguments are declared in
    node_manager.h. The result is the node the properties went to. *)
Definition restore_node (node_props : Dict) (s : NodeManager)
  : outcome node_ref :=
  let model_id := get_model_id (model_name node_props) in
  match add_node K model_id 1 s with
  | Ok node s =>
      match get_node (first_gid node) 0 s with
      | Ok (LocalNode node_ptr) s =>
          let '(raised, x) := set_status_base (deref (heap s) node_ptr) node_props in
          let s := with_heap (store node_ptr (λ _, x) (heap s)) s in
          match raised with
          | Some e => Throw e s
          | None => Ok (LocalNode node_ptr) s
          end
      | Ok (ProxyNode thr n) s =>
          match set_status_base_proxy n node_props with
          | Some e => Throw e s
          | None => Ok (ProxyNode thr n) s
          end
      | Throw e s => Throw e s
      | Fault f => Fault f
      end
  | Throw e s => Throw e s
  | Fault f => Fault f
  end.

(** [NodeManager::restore_nodes]; the result lists the nodes the records
    went to, in order. *)
Fixpoint restore_nodes (node_list : list Dict) (s : NodeManager)
  : outcome (list node_ref) :=
  match node_list with
  | [] => Ok [] s
  | node_props :: node_list =>
      match restore_node node_props s with
      | Ok r s =>
          match restore_nodes node_list s with
          | Ok rs s => Ok (r :: rs) s
          | Throw e s => Throw e s
          | Fault f => Fault f
          end
      | Throw e s => Throw e s
      | Fault f => Fault f
      end
  end.

End Restore.

(** Node [y] has the GID, the thread and the thread siblings of node [x]. *)
Definition keeps_placement (x y : Node) : Prop :=
  gid_ y = gid_ x ∧ thread_ y = thread_ x
  ∧ container_nodes_ y = container_nodes_ x.

(** The message of the first node of [its] whose preparation raises, if
    any. *)
Fixpoint first_failure
    (init_buffers_raises calibrate_raises : ptr → option string)
    (its : list ptr) : option string :=
  match its with
  | [] => None
  | it :: its =>
      match preparation_raises init_buffers_raises calibrate_raises it with
      | Some e => Some e
      | None => first_failure init_buffers_raises calibrate_raises its
      end
  end.

(** A registered container carries the model id [-1]. *)
Definition container_model (h : Heap) (e : ptr * Z) : Prop :=
  num_thread_siblings (deref h e.1) ≠ 0 → model_id_ (deref h e.1) = -1.

(** ** The operations of the manager *)

(** [NodeManager::check_wfr_use]. [any_true] is the reduction
    [MPIManager::any_true] over the processes, which is defined outside
    node_manager.cpp; the coefficient length the function sets as well is a
    static member of [GapJunctionEvent], not a part of the manager. *)
Definition check_wfr_use (any_true : bool → bool) (s : NodeManager)
  : NodeManager :=
  mkNodeManager (heap s) (local_nodes_ s) (n_gsd_ s) (nodes_vec_ s)
    (wfr_nodes_vec_ s) (any_true (wfr_is_used_ s)) (nodes_vec_network_size_ s)
    (num_active_nodes_ s) (modelranges s) (off_grid_communication s).

(** Node [y] has the GID, the thread and the virtual process of node [x]. *)
Definition same_placement (x y : Node) : Prop :=
  gid_ y = gid_ x ∧ thread_ y = thread_ x ∧ vp_ y = vp_ x.

(** Pool [h'] holds every node of [h], at the same address and with the same
    GID, thread and virtual process. *)
Definition placement_kept (h h' : Heap) : Prop :=
  (length h <= length h')%nat
  ∧ ∀ p, (p < length h)%nat → same_placement (deref h p) (deref h' p).

(** One call of a member function of the manager, whether it returns or
    throws: an operation of [manager_step], or one of [initialize],
    [finalize] (the body of the destructor), [restore_nodes], [init_state],
    [set_status], [post_run_cleanup], [finalize_nodes] and [check_wfr_use].
    [set_status] and [restore_nodes] leave in the pool the node as
    [Node::set_status_base] hands it back; that function is the node models'
    code, and the calls considered are those in which it leaves the GID, the
    thread and the virtual process of the node alone. The member functions
    that are left out only read the state ([is_local_node],
    [next_local_gid_], [print], [get_status]) or have an empty body
    ([set_status( d )]). *)
Inductive manager_operation (K : Kernel) : NodeManager → NodeManager → Prop :=
| op_step s s' :
    manager_step K s s' → manager_operation K s s'
| op_initialize get_name s s' :
    result_state (initialize K get_name s) = Some s' →
    manager_operation K s s'
| op_finalize s s' :
    result_state (finalize s) = Some s' → manager_operation K s s'
| op_init_state GID s s' :
    result_state (init_state GID s) = Some s' → manager_operation K s s'
| op_post_run_cleanup s s' :
    result_state (post_run_cleanup K s) = Some s' → manager_operation K s s'
| op_finalize_nodes s s' :
    result_state (finalize_nodes K s) = Some s' → manager_operation K s s'
| op_check_wfr_use any_true s :
    manager_operation K s (check_wfr_use any_true s)
| op_set_status (Dict : Type) clear_access_flags all_entries_accessed is_proxy
    set_status_base clear_flags_default fuel gid (d : Dict) e s s' d' visited :
    (∀ x d, same_placement x (set_status_base x d).1.2) →
    set_status Dict clear_access_flags all_entries_accessed is_proxy
      set_status_base clear_flags_default fuel gid d s
    = Some (e, s', d', visited) →
    manager_operation K s s'
| op_restore_nodes (Dict : Type) model_name get_model_id set_status_base
    set_status_base_proxy (node_list : list Dict) s s' :
    (∀ x d, same_placement x (set_status_base x d).2) →
    result_state (restore_nodes K Dict model_name get_model_id set_status_base
                    set_status_base_proxy node_list s) = Some s' →
    manager_operation K s s'.

(** * Properties *)

(** ** Arithmetic of [next_local_gid_] *)

Lemma wrap64_small z : 0 <= z < 2 ^ 64 -> wrap64 z = z.
Proof. intros H. unfold wrap64. apply Z.mod_small. exact H. Qed.

Lemma same_residue_gap S a b :
  0 < S -> a mod S = b mod S -> a < b -> a + S <= b.
Proof.
  intros HS Hab Hlt.
  pose proof (Z.div_mod a S ltac:(lia)) as Ha.
  pose proof (Z.div_mod b S ltac:(lia)) as Hb.
  assert (Hk : b - a = S * (b `div` S - a `div` S)) by lia.
  remember (b `div` S - a `div` S) as k.
  assert (1 <= k) by nia. nia.
Qed.

Lemma next_local_gid_rec K g :
  0 <= g -> 0 < get_num_sim_processes K -> g + get_num_sim_processes K < 2 ^ 64 ->
  get_num_sim_processes K <= get_rank K ->
  next_local_gid_ K g = g + get_num_sim_processes K.
Proof.
  intros Hg HS Hb Hr. unfold next_local_gid_.
  destruct (Z.leb_spec (get_num_sim_processes K) (get_rank K)); [|lia].
  apply wrap64_small. lia.
Qed.

Lemma next_local_gid_sim K g :
  0 <= g -> g + get_num_sim_processes K < 2 ^ 64 -> get_num_sim_processes K < 2 ^ 31 ->
  0 <= get_rank K < get_num_sim_processes K ->
  let g' := next_local_gid_ K g in
  g < g' <= g + get_num_sim_processes K /\ g' mod get_num_sim_processes K = get_rank K /\
  forall h, g < h -> h mod get_num_sim_processes K = get_rank K -> g' <= h.
Proof.
  intros Hg Hb HS31 Hr. unfold next_local_gid_.
  set (S := get_num_sim_processes K) in *. set (r := get_rank K) in *.
  destruct (Z.leb_spec S r); [lia|].
  pose proof (Z.mod_pos_bound g S ltac:(lia)) as Hm.
  pose proof (Z.div_mod g S ltac:(lia)) as Hd.
  destruct (Z.eqb_spec (g mod S) r) as [He|Hne].
  - rewrite wrap64_small by lia. cbn zeta. split; [lia|]. split.
    + replace (g + S) with (g + 1 * S) by lia. rewrite Z.mod_add by lia. exact He.
    + intros h Hh Hh'. 
      apply same_residue_gap; lia.
  - rewrite (wrap64_small (S + r - g mod S)) by lia.
    assert (Hdd : (S + r - g mod S) mod S = if r <? g mod S then S + r - g mod S else r - g mod S).
    { destruct (Z.ltb_spec r (g mod S)).
      - apply Z.mod_small. lia.
      - replace (S + r - g mod S) with (r - g mod S + 1 * S) by lia.
        rewrite Z.mod_add by lia. apply Z.mod_small. lia. }
    rewrite Hdd. cbn zeta.
    destruct (Z.ltb_spec r (g mod S)).
    + rewrite wrap64_small by lia. split; [lia|]. split.
      * replace (g + (S + r - g mod S)) with (r + (g / S + 1) * S) by lia.
        rewrite Z.mod_add by lia. apply Z.mod_small. lia.
      * intros h Hh Hh'.
        pose proof (same_residue_gap S (g - g mod S + r) h ltac:(lia)) as Hgap.
        replace (g - g mod S + r) with (r + g `div` S * S) in Hgap by lia.
        rewrite Z.mod_add, (Z.mod_small r S) in Hgap by lia.
        destruct (Z.eq_dec (r + g `div` S * S) h) as [<-|]; [lia|].
        assert (r + g `div` S * S <> h) by lia.
        destruct (Z.lt_ge_cases (r + g `div` S * S) h).
        { specialize (Hgap ltac:(lia) ltac:(lia)). lia. }
        exfalso.
        pose proof (same_residue_gap S h (r + g `div` S * S) ltac:(lia)) as Hgap2.
        rewrite Z.mod_add, (Z.mod_small r S) in Hgap2 by lia.
        specialize (Hgap2 ltac:(lia) ltac:(lia)). lia.
    + rewrite wrap64_small by lia. split; [lia|]. split.
      * replace (g + (r - g mod S)) with (r + (g / S) * S) by lia.
        rewrite Z.mod_add by lia. apply Z.mod_small. lia.
      * intros h Hh Hh'.
        pose proof (same_residue_gap S (r + g `div` S * S) h ltac:(lia)) as Hgap.
        rewrite Z.mod_add, (Z.mod_small r S) in Hgap by lia.
        destruct (Z.lt_ge_cases (r + g `div` S * S) h); [lia|].
        destruct (Z.eq_dec (r + g `div` S * S) h); [lia|].
        exfalso.
        pose proof (same_residue_gap S h (r + g `div` S * S) ltac:(lia)) as Hgap2.
        rewrite Z.mod_add, (Z.mod_small r S) in Hgap2 by lia.
        specialize (Hgap2 ltac:(lia) ltac:(lia)). lia.
Qed.

(** ** Pool memory *)

Lemma store_fresh (h : Heap) x f : store (length h) f (h ++ [x]) = h ++ [f x].
Proof.
  unfold store. rewrite alter_app_r_alt by lia.
  replace (length h - length h)%nat with 0%nat by lia. reflexivity.
Qed.

Lemma deref_fresh (h : Heap) x l : deref (h ++ x :: l) (length h) = x.
Proof. unfold deref. by rewrite list_lookup_total_middle. Qed.

Lemma deref_app_l (h l : Heap) p : (p < length h)%nat -> deref (h ++ l) p = deref h p.
Proof. intros. unfold deref. by rewrite lookup_total_app_l. Qed.

Lemma add_process_node_register K model mid s gid :
  add_process_node K model mid s gid = register (process_node K model mid gid) [] s.
Proof.
  unfold add_process_node, allocate, register, process_node.
  rewrite !store_fresh. unfold add_local_node. rewrite deref_fresh. reflexivity.
Qed.

(** ** The loop bodies of [add_node] *)

Lemma gid_set_vp v x : gid_ (set_vp v x) = gid_ x.
Proof. reflexivity. Qed.

Lemma gid_proxy_node K model mid gid : gid_ (proxy_node K model mid gid) = gid.
Proof. reflexivity. Qed.

Lemma gid_receiver_node K model mid gid vp : gid_ (receiver_node K model mid gid vp) = gid.
Proof. reflexivity. Qed.

Lemma gid_process_node K model mid gid : gid_ (process_node K model mid gid) = gid.
Proof. reflexivity. Qed.

Lemma add_global_receiver_eq K model mid s gid :
  add_global_receiver K model mid s gid =
    increment_n_gsd
      (if is_local_vp K (suggest_rec_vp K (n_gsd_ s)) then
         register (receiver_node K model mid gid (suggest_rec_vp K (n_gsd_ s))) [] s
       else with_local_nodes (add_remote_node gid (local_nodes_ s)) s).
Proof.
  unfold add_global_receiver. destruct (is_local_vp K _); [|reflexivity].
  unfold allocate, register, receiver_node.
  rewrite !store_fresh. unfold add_local_node. rewrite deref_fresh. reflexivity.
Qed.

Lemma max_gid_register x extra s :
  max_gid_ (local_nodes_ (register x extra s)) = Z.max (max_gid_ (local_nodes_ s)) (gid_ x).
Proof. reflexivity. Qed.

Lemma fold_max_seqZ a n m :
  0 < n -> fold_left Z.max (seqZ a n) m = Z.max m (a + n - 1).
Proof.
  intros Hn. remember (Z.to_nat n) as k eqn:Hk.
  revert a n m Hn Hk. induction k as [|k IH]; intros a n m Hn Hk; [lia|].
  rewrite seqZ_cons by lia. cbn [fold_left].
  destruct (Z.eq_dec n 1) as [->|Hne].
  - rewrite seqZ_nil by lia. cbn. lia.
  - rewrite IH by lia. lia.
Qed.

Lemma fold_max_le l m b :
  Forall (λ x, x <= b) l -> Z.max (fold_left Z.max l m) b = Z.max m b.
Proof.
  intros H. revert m. induction H as [|x l Hx _ IH]; intros m; cbn; [done|].
  rewrite IH. lia.
Qed.

Lemma fold_max_in l m b :
  Forall (λ x, x <= b) l -> b ∈ l -> fold_left Z.max l m = Z.max m b.
Proof.
  intros H Hin. revert m. induction H as [|x l Hx Hl IH]; intros m; cbn.
  - by apply not_elem_of_nil in Hin.
  - apply elem_of_cons in Hin as [<-|Hin].
    + pose proof (fold_max_le l (Z.max m b) b Hl) as E.
      assert (Hge : Z.max m b <= fold_left Z.max l (Z.max m b)).
      { clear. generalize (Z.max m b). induction l as [|y l IH]; intros z; cbn; [lia|].
        specialize (IH (Z.max z y)). lia. }
      lia.
    + rewrite IH by done. lia.
Qed.

Lemma fold_left_max_gid {A} (body : NodeManager -> A -> NodeManager) (key : A -> Z) l s :
  (forall s g, max_gid_ (local_nodes_ (body s g)) = Z.max (max_gid_ (local_nodes_ s)) (key g)) ->
  max_gid_ (local_nodes_ (fold_left body l s)) = fold_left Z.max (key <$> l) (max_gid_ (local_nodes_ s)).
Proof.
  intros Hb. revert s. induction l as [|g l IH]; intros s; cbn; [done|].
  rewrite IH, Hb. done.
Qed.

Lemma max_gid_add_global_receiver K model mid s gid :
  max_gid_ (local_nodes_ (add_global_receiver K model mid s gid)) =
    Z.max (max_gid_ (local_nodes_ s)) gid.
Proof. rewrite add_global_receiver_eq. by destruct (is_local_vp K _). Qed.

Lemma max_gid_add_process_node K model mid s gid :
  max_gid_ (local_nodes_ (add_process_node K model mid s gid)) =
    Z.max (max_gid_ (local_nodes_ s)) gid.
Proof. by rewrite add_process_node_register. Qed.


(** ** The loop of the has-proxies branch *)

Lemma local_gids_nil K lo hi : hi <= lo -> local_gids K lo hi = [].
Proof. intros. unfold local_gids. by rewrite seqZ_nil by lia. Qed.

Lemma local_gids_cons K lo hi :
  lo < hi ->
  local_gids K lo hi =
    if is_local_gid K lo then lo :: local_gids K (lo + 1) hi
    else local_gids K (lo + 1) hi.
Proof.
  intros. unfold local_gids. rewrite seqZ_cons by lia. cbn [List.filter].
  replace (Z.pred (hi - lo)) with (hi - (lo + 1)) by lia.
  replace (Z.succ lo) with (lo + 1) by lia. reflexivity.
Qed.

Lemma local_gids_skip K lo lo' hi :
  lo <= lo' ->
  (forall g, lo <= g < lo' -> g < hi -> is_local_gid K g = false) ->
  local_gids K lo hi = local_gids K lo' hi.
Proof.
  intros Hle. remember (Z.to_nat (lo' - lo)) as k eqn:Hk.
  revert lo Hle Hk. induction k as [|k IH]; intros lo Hle Hk Hno.
  - by replace lo' with lo by lia.
  - destruct (Z.lt_ge_cases lo hi) as [Hlt|Hge].
    + rewrite local_gids_cons by done. rewrite (Hno lo) by lia.
      apply IH; [lia|lia|]. intros g Hg Hg'. apply Hno; lia.
    + rewrite !local_gids_nil by lia. done.
Qed.

Lemma local_gids_bounds K lo hi :
  Forall (λ g, lo <= g < hi ∧ is_local_gid K g = true) (local_gids K lo hi).
Proof.
  unfold local_gids. apply Forall_forall. intros g Hg.
  apply list_elem_of_In, filter_In in Hg as [Hg Hl].
  apply list_elem_of_In, elem_of_seqZ in Hg. split; [lia|done].
Qed.

Lemma local_gids_elem K lo hi g :
  lo <= g < hi -> is_local_gid K g = true -> g ∈ local_gids K lo hi.
Proof.
  intros Hg Hl. unfold local_gids. apply list_elem_of_In, filter_In. split; [|done].
  apply list_elem_of_In, elem_of_seqZ. lia.
Qed.

Section ProxyLoop.
Context (K : Kernel) (HK : kernel_bounds K) (Hlaw : placement_by_rank K).
Context (model : Model) (mid : Z).

Lemma local_gid_next g :
  0 <= g <= max_size K -> is_local_gid K g = true ->
  next_local_gid_ K g = g + get_num_sim_processes K
  ∧ forall g', g < g' < g + get_num_sim_processes K -> is_local_gid K g' = false.
Proof.
  intros Hg Hl. destruct HK. apply Hlaw in Hl; [|lia].
  assert (Hr : get_rank K < get_num_sim_processes K).
  { rewrite <- Hl. apply Z.mod_pos_bound. lia. }
  split.
  - unfold next_local_gid_.
    destruct (Z.leb_spec (get_num_sim_processes K) (get_rank K)); [lia|].
    rewrite Hl, Z.eqb_refl. apply wrap64_small. lia.
  - intros g' Hg'. destruct (is_local_gid K g') eqn:E; [|done].
    apply Hlaw in E; [|lia].
    pose proof (same_residue_gap (get_num_sim_processes K) g g'). lia.
Qed.

Lemma nonlocal_gid_next g :
  0 <= g <= max_size K -> is_local_gid K g = false ->
  g < next_local_gid_ K g < 2 ^ 64
  ∧ forall g', g <= g' < next_local_gid_ K g -> is_local_gid K g' = false.
Proof.
  intros Hg Hl. destruct HK.
  destruct (Z.lt_ge_cases (get_rank K) (get_num_sim_processes K)) as [Hr|Hr].
  - pose proof (next_local_gid_sim K g ltac:(lia) ltac:(lia) ltac:(lia) ltac:(lia))
      as (Hn1 & Hn2 & Hn3).
    split; [lia|]. intros g' Hg'. destruct (is_local_gid K g') eqn:E; [|done].
    destruct (Z.eq_dec g g') as [<-|]; [congruence|].
    apply Hlaw in E; [|lia]. specialize (Hn3 g' ltac:(lia) E). lia.
  - rewrite next_local_gid_rec by lia. split; [lia|].
    intros g' Hg'. destruct (is_local_gid K g') eqn:E; [|done].
    apply Hlaw in E; [|lia].
    pose proof (Z.mod_pos_bound g' (get_num_sim_processes K)). lia.
Qed.

Lemma add_proxy_nodes_spec max_gid fuel : forall gid visited s,
  0 <= gid -> max_gid <= max_size K ->
  (Z.to_nat (max_gid - gid) <= fuel)%nat ->
  exists visited',
    add_proxy_nodes K fuel model mid max_gid gid visited s =
      Some (visited', register_proxy_nodes K model mid (local_gids K gid max_gid) s).
Proof.
  induction fuel as [|fuel IH]; intros gid visited s Hgid Hmax Hfuel.
  - cbn. destruct (Z.ltb_spec gid max_gid); [lia|].
    rewrite local_gids_nil by lia. eauto.
  - cbn [add_proxy_nodes]. destruct (Z.ltb_spec gid max_gid) as [Hlt|Hge].
    + rewrite local_gids_cons by done. fold (is_local_gid K gid).
      destruct (is_local_gid K gid) eqn:Hl.
      * destruct (local_gid_next gid ltac:(lia) Hl) as [Hn Hskip]. destruct HK.
        unfold allocate. rewrite !store_fresh. unfold add_local_node.
        rewrite deref_fresh. rewrite Hn.
        destruct (IH (gid + get_num_sim_processes K) (visited ++ [gid])
                    (register (proxy_node K model mid gid) [] s)) as [v' Hv'];
          [lia|lia|lia|].
        exists v'. etrans; [exact Hv'|]. f_equal. f_equal.
        unfold register_proxy_nodes at 2. cbn [fold_left].
        fold (register_proxy_nodes K model mid).
        f_equal. symmetry. apply local_gids_skip; [lia|].
        intros g Hg _. apply Hskip. lia.
      * apply IH; lia.
    + rewrite local_gids_nil by lia. eauto.
Qed.

(** The loop entered as [add_node] enters it. *)
Lemma add_proxy_nodes_from_min min_gid max_gid fuel s :
  0 <= min_gid < max_gid -> max_gid <= max_size K ->
  (Z.to_nat (max_gid - min_gid) <= fuel)%nat ->
  exists visited',
    add_proxy_nodes K fuel model mid max_gid
      (if is_local_vp K (suggest_vp K min_gid) then min_gid
       else next_local_gid_ K min_gid) [] s =
      Some (visited', register_proxy_nodes K model mid (local_gids K min_gid max_gid) s).
Proof.
  intros Hmin Hmax Hfuel. fold (is_local_gid K min_gid).
  destruct (is_local_gid K min_gid) eqn:Hl.
  - apply add_proxy_nodes_spec; lia.
  - destruct (nonlocal_gid_next min_gid ltac:(lia) Hl) as [Hn Hskip].
    rewrite (local_gids_skip K min_gid (next_local_gid_ K min_gid) max_gid);
      [|lia|intros; apply Hskip; lia].
    apply add_proxy_nodes_spec; lia.
Qed.

Lemma max_gid_register_proxy_nodes l s :
  max_gid_ (local_nodes_ (register_proxy_nodes K model mid l s)) =
    fold_left Z.max l (max_gid_ (local_nodes_ s)).
Proof.
  unfold register_proxy_nodes.
  rewrite (fold_left_max_gid _ id) by done. by rewrite list_fmap_id.
Qed.
End ProxyLoop.

(** ** The maximum GID after placement *)

Lemma max_gid_add_sibling_container K sc_model model mid s gid :
  max_gid_ (local_nodes_ (add_sibling_container K sc_model model mid s gid)) =
    Z.max (max_gid_ (local_nodes_ s)) gid.
Proof.
  unfold add_sibling_container, allocate. rewrite !store_fresh.
  unfold add_local_node. rewrite deref_fresh. reflexivity.
Qed.

Lemma get_model_valid K mid :
  0 <= mid < get_num_node_models K -> exists model, get_model K mid = Some model.
Proof.
  intros H. unfold get_model, get_num_node_models in *.
  destruct (Z.ltb_spec mid 0); [lia|].
  apply lookup_lt_is_Some_2. lia.
Qed.

Lemma place_nodes_max_gid K model mid n min_gid max_gid s :
  kernel_bounds K -> placement_by_rank K ->
  0 <= mid < get_num_node_models K ->
  1 <= n -> 0 <= min_gid -> max_gid = min_gid + n -> max_gid <= max_size K ->
  max_gid_ (local_nodes_ s) < max_gid ->
  exists s', place_nodes K model mid n min_gid max_gid s = Ok tt s'
    ∧ max_gid_ (local_nodes_ s') = max_gid - 1.
Proof.
  intros HK Hlaw Hmid Hn Hmin -> Hmax Hs. unfold place_nodes.
  replace (min_gid + n - min_gid) with n by lia.
  destruct (potential_global_receiver model && (0 <? get_num_rec_processes K)).
  { eexists; split; [done|].
    rewrite (fold_left_max_gid _ id) by apply max_gid_add_global_receiver.
    rewrite list_fmap_id, fold_max_seqZ by lia. lia. }
  destruct (has_proxies model).
  { destruct (add_proxy_nodes_from_min K HK Hlaw model mid min_gid (min_gid + n)
                (Z.to_nat n) s) as [v' Hv']; [lia|lia|lia|].
    rewrite Hv'. fold (is_local_gid K (min_gid + n - 1)).
    pose proof (local_gids_bounds K min_gid (min_gid + n)) as Hb.
    destruct (is_local_gid K (min_gid + n - 1)) eqn:Hl; cbn [negb];
      (eexists; split; [done|]); cbn [local_nodes_ with_local_nodes add_remote_node max_gid_];
      rewrite max_gid_register_proxy_nodes.
    - rewrite (fold_max_in _ _ (min_gid + n - 1)).
      + lia.
      + eapply Forall_impl; [exact Hb|]. cbn. lia.
      + apply local_gids_elem; [lia|done].
    - rewrite fold_max_le; [lia|].
      eapply Forall_impl; [exact Hb|]. cbn. lia. }
  destruct (negb (one_node_per_process model)).
  { unfold siblingcontainer_model_.
    destruct (get_model_valid K 0) as [sc ->]; [lia|].
    eexists; split; [done|].
    rewrite (fold_left_max_gid _ id) by apply max_gid_add_sibling_container.
    rewrite list_fmap_id, fold_max_seqZ by lia. lia. }
  eexists; split; [done|].
  rewrite (fold_left_max_gid _ id) by apply max_gid_add_process_node.
  rewrite list_fmap_id, fold_max_seqZ by lia. lia.
Qed.


(** ** Placement only extends the state *)

Lemma grows_refl s : grows s s.
Proof. split; done. Qed.

Lemma grows_trans s1 s2 s3 : grows s1 s2 -> grows s2 s3 -> grows s1 s3.
Proof.
  intros [] []. split; try congruence.
  - by etrans.
  - by etrans.
  - lia.
Qed.

Lemma grows_fold {A} (body : NodeManager -> A -> NodeManager) l s :
  (forall s g, grows s (body s g)) -> grows s (fold_left body l s).
Proof.
  intros Hb. revert s. induction l as [|g l IH]; intros s; cbn.
  - apply grows_refl.
  - eapply grows_trans; [apply Hb|apply IH].
Qed.

Lemma grows_register x extra s : grows s (register x extra s).
Proof.
  split; try done; cbn; [by apply prefix_app_r..|lia].
Qed.

Lemma grows_add_remote_node gid s :
  grows s (with_local_nodes (add_remote_node gid (local_nodes_ s)) s).
Proof. split; try done; cbn; lia. Qed.

Lemma grows_increment_n_gsd s : grows s (increment_n_gsd s).
Proof. split; try done; cbn; lia. Qed.

Lemma grows_add_global_receiver K model mid s gid :
  grows s (add_global_receiver K model mid s gid).
Proof.
  rewrite add_global_receiver_eq.
  eapply grows_trans; [|apply grows_increment_n_gsd].
  destruct (is_local_vp K _); [apply grows_register|apply grows_add_remote_node].
Qed.

Lemma grows_add_process_node K model mid s gid :
  grows s (add_process_node K model mid s gid).
Proof. rewrite add_process_node_register. apply grows_register. Qed.

Lemma grows_add_proxy_nodes K model mid max_gid fuel : forall gid visited s v' s',
  add_proxy_nodes K fuel model mid max_gid gid visited s = Some (v', s') ->
  grows s s'.
Proof.
  induction fuel as [|fuel IH]; intros gid visited s v' s'; cbn [add_proxy_nodes].
  - destruct (gid <? max_gid); [done|]. intros [= _ <-]. apply grows_refl.
  - destruct (gid <? max_gid); [|intros [= _ <-]; apply grows_refl].
    destruct (is_local_vp K (suggest_vp K gid)).
    + unfold allocate. rewrite !store_fresh. unfold add_local_node.
      rewrite deref_fresh. intros H%IH.
      eapply grows_trans; [|exact H].
      apply (grows_register (proxy_node K model mid gid) [] s).
    + apply IH.
Qed.

(** ** The branch for replicated devices *)

Lemma gid_push_backs l c : gid_ (fold_left (λ c p, push_back p c) l c) = gid_ c.
Proof. revert c. induction l as [|p l IH]; intros c; cbn; [done|]. by rewrite IH. Qed.

Lemma model_id_push_backs l c :
  model_id_ (fold_left (λ c p, push_back p c) l c) = model_id_ c.
Proof. revert c. induction l as [|p l IH]; intros c; cbn; [done|]. by rewrite IH. Qed.

Lemma container_nodes_push_backs l c :
  container_nodes_ (fold_left (λ c p, push_back p c) l c) = container_nodes_ c ++ l.
Proof.
  revert c. induction l as [|p l IH]; intros c; cbn.
  - by rewrite app_nil_r.
  - rewrite IH. cbn. by rewrite <- app_assoc.
Qed.

Lemma gid_container_node sc gid l : gid_ (container_node sc gid l) = gid.
Proof. unfold container_node. by rewrite gid_push_backs. Qed.

Lemma container_nodes_container_node sc gid l :
  container_nodes_ (container_node sc gid l) = l.
Proof. unfold container_node. by rewrite container_nodes_push_backs. Qed.

Lemma fold_add_thread_sibling K model mid gid (h0 : Heap) c0 ts : forall ptrs nodes,
  fold_left (add_thread_sibling K model mid gid (length h0)) ts
    (h0 ++ fold_left (λ c p, push_back p c) ptrs c0 :: nodes) =
  h0 ++ fold_left (λ c p, push_back p c)
          (ptrs ++ seq (length h0 + 1 + length nodes) (length ts)) c0
     :: nodes ++ (sibling_node K model mid gid <$> ts).
Proof.
  induction ts as [|t ts IH]; intros ptrs nodes; cbn [fold_left].
  - cbn. by rewrite !app_nil_r.
  - unfold add_thread_sibling at 2. unfold allocate.
    rewrite !store_fresh.
    fold (sibling_node K model mid gid t).
    unfold store. rewrite <- app_assoc. rewrite alter_app_r_alt by lia.
    replace (length h0 - length h0)%nat with 0%nat by lia. cbn [alter list_alter app].
    change (push_back ?p (fold_left ?f ptrs c0)) with (fold_left f [p] (fold_left f ptrs c0)).
    rewrite <- fold_left_app.
    rewrite (IH (ptrs ++ [length (h0 ++ fold_left (λ c p, push_back p c) ptrs c0 :: nodes)])
               (nodes ++ [sibling_node K model mid gid t])).
    rewrite !length_app. cbn [length fmap list_fmap seq].
    rewrite <- !app_assoc. cbn [app].
    replace (length h0 + 1 + (length nodes + 1))%nat
      with (S (length h0 + 1 + length nodes)) by lia.
    replace (length h0 + S (length nodes))%nat
      with (length h0 + 1 + length nodes)%nat by lia.
    reflexivity.
Qed.

Lemma add_sibling_container_register K sc_model model mid s gid :
  add_sibling_container K sc_model model mid s gid =
    register
      (container_node sc_model gid
         (seq (S (length (heap s))) (Z.to_nat (get_num_threads K))))
      (sibling_node K model mid gid <$> seqZ 0 (get_num_threads K)) s.
Proof.
  unfold add_sibling_container, allocate. rewrite !store_fresh.
  unfold add_local_node. rewrite deref_fresh.
  pose proof (fold_add_thread_sibling K model mid gid (heap s)
                (set_gid_ gid (set_model_id (-1) (prototype sc_model)))
                (seqZ 0 (get_num_threads K)) [] []) as E.
  cbn [fold_left app length] in E. rewrite E. clear E.
  unfold register. rewrite gid_container_node. unfold container_node.
  rewrite length_seqZ.
  replace (length (heap s) + 1 + 0)%nat with (S (length (heap s))) by lia.
  reflexivity.
Qed.

Lemma grows_add_sibling_container K sc_model model mid s gid :
  grows s (add_sibling_container K sc_model model mid s gid).
Proof. rewrite add_sibling_container_register. apply grows_register. Qed.

Lemma grows_place_nodes K model mid n min_gid max_gid s s' :
  place_nodes K model mid n min_gid max_gid s = Ok tt s' -> grows s s'.
Proof.
  unfold place_nodes.
  destruct (potential_global_receiver model && (0 <? get_num_rec_processes K)).
  { intros [= <-]. apply grows_fold, grows_add_global_receiver. }
  destruct (has_proxies model).
  { destruct (add_proxy_nodes _ _ _ _ _ _ _ _) as [[v s1]|] eqn:E; [|done].
    apply grows_add_proxy_nodes in E.
    destruct (negb _); intros [= <-]; [|done].
    eapply grows_trans; [exact E|apply grows_add_remote_node]. }
  destruct (negb (one_node_per_process model)).
  { destruct (siblingcontainer_model_ K); [|done].
    intros [= <-]. apply grows_fold, grows_add_sibling_container. }
  intros [= <-]. apply grows_fold, grows_add_process_node.
Qed.


(** ** Allocation of a GID range *)

(** C1: for a registered model and a count [n >= 1] that fits the capacity of
    the registry, [add_node] returns the handle of the [n] contiguous GIDs
    that follow the maximum GID; each lies above every range handed out
    before, and afterwards the maximum GID of the registry is the last GID of
    the handle, whether or not any node was created on this process. *)
Theorem add_node_allocates_contiguous_range K mid n s :
  kernel_bounds K -> placement_by_rank K ->
  0 <= mid < get_num_node_models K -> 1 <= n ->
  0 <= get_max_gid (local_nodes_ s) ->
  get_max_gid (local_nodes_ s) + 1 + n <= max_size K ->
  ranges_allocated s ->
  let first := get_max_gid (local_nodes_ s) + 1 in
  let last := get_max_gid (local_nodes_ s) + n in
  exists s',
    add_node K mid n s = Ok (GIDCollectionPrimitive first last mid) s'
    ∧ last - first + 1 = n
    ∧ Forall (λ r : Z * Z * Z, r.2 < first) (modelranges s)
    ∧ modelranges s' = modelranges s ++ [(mid, first, last)]
    ∧ get_max_gid (local_nodes_ s') = last
    ∧ ranges_allocated s'.
Proof.
  intros HK Hlaw Hmid Hn Hmax Hcap Hranges first last.
  pose proof HK as [HT Hrank HS HR Hsize].
  unfold add_node.
  destruct (Z.leb_spec (get_num_node_models K) mid); [lia|].
  destruct (Z.ltb_spec n 1); [lia|].
  destruct (Z.ltb_spec 0 (get_num_threads K)); [|lia]. cbn [negb].
  destruct (get_model_valid K mid Hmid) as [model ->].
  unfold get_max_gid in *.
  rewrite (wrap64_small (max_gid_ (local_nodes_ s) + 1)) by lia.
  rewrite (wrap64_small (max_gid_ (local_nodes_ s) + 1 + n)) by lia.
  destruct (Z.ltb_spec (max_size K) (max_gid_ (local_nodes_ s) + 1 + n)); [lia|].
  destruct (Z.ltb_spec (max_gid_ (local_nodes_ s) + 1 + n) (max_gid_ (local_nodes_ s) + 1));
    [lia|]. cbn [orb].
  destruct (place_nodes_max_gid K model mid n (max_gid_ (local_nodes_ s) + 1)
              (max_gid_ (local_nodes_ s) + 1 + n)
              (add_range mid (max_gid_ (local_nodes_ s) + 1)
                 (max_gid_ (local_nodes_ s) + 1 + n - 1) s))
    as (s1 & Hplace & Hmax1); try done; try lia.
  { cbn. lia. }
  rewrite Hplace. apply grows_place_nodes in Hplace as [].
  replace (max_gid_ (local_nodes_ s) + 1 + n - 1) with last in * by (unfold last, get_max_gid; lia).
  fold first in Hmax1 |- *.
  eexists. split; [reflexivity|].
  assert (Hmr : modelranges
                  (if is_off_grid model then set_off_grid_communication true s1 else s1)
                = modelranges s ++ [(mid, first, last)]).
  { destruct (is_off_grid model); cbn; rewrite grows_modelranges0; done. }
  assert (Hmg : max_gid_ (local_nodes_
                  (if is_off_grid model then set_off_grid_communication true s1 else s1))
                = last).
  { destruct (is_off_grid model); cbn; lia. }
  split; [lia|]. split.
  { eapply Forall_impl; [exact Hranges|]. cbn. unfold first, get_max_gid. lia. }
  split; [exact Hmr|]. split; [exact Hmg|].
  unfold ranges_allocated, get_max_gid. rewrite Hmr, Hmg.
  apply Forall_app. split.
  - eapply Forall_impl; [exact Hranges|]. cbn. unfold last, get_max_gid. lia.
  - apply Forall_singleton. cbn. lia.
Qed.

Lemma round_robin_placement_by_rank n_threads rank n_sim n_rec ms :
  0 < n_threads -> 0 < n_sim ->
  placement_by_rank (round_robin n_threads rank n_sim n_rec ms).
Proof.
  intros HT HS g Hg. unfold is_local_gid. cbn.
  pose proof (Z.mod_pos_bound g (n_sim * n_threads) ltac:(nia)) as Hb.
  destruct (Z.leb_spec (n_sim * n_threads) (g mod (n_sim * n_threads))); [lia|].
  rewrite Z.rem_mul_r by lia.
  rewrite (Z.mul_comm n_sim), Z.mod_add, Z.mod_mod by lia.
  apply Z.eqb_eq.
Qed.

Lemma two_by_two_bounds rank : 0 <= rank < 2 ^ 31 -> kernel_bounds (two_by_two rank).
Proof. intros. split; cbn; lia. Qed.

Lemma add_node_allocates_contiguous_range_witness :
  exists s',
    add_node (two_by_two 0) 1 1 NodeManager_init = Ok (GIDCollectionPrimitive 1 1 1) s'
    ∧ get_max_gid (local_nodes_ s') = 1.
Proof.
  destruct (add_node_allocates_contiguous_range (two_by_two 0) 1 1 NodeManager_init)
    as (s' & H1 & _ & _ & _ & H2 & _).
  - apply two_by_two_bounds. lia.
  - apply round_robin_placement_by_rank; lia.
  - vm_compute. split; [discriminate|reflexivity].
  - lia.
  - cbn. lia.
  - vm_compute. discriminate.
  - apply Forall_nil_2.
  - exists s'. split; [exact H1|exact H2].
Defined.


(** ** The contract of [next_local_gid_] *)

Lemma add_proxy_nodes_visits_local K model mid max_gid fuel :
  kernel_bounds K -> placement_by_rank K -> max_gid <= max_size K ->
  forall gid visited s v' s',
    0 <= gid -> gid mod get_num_sim_processes K = get_rank K ->
    Forall (λ v, v mod get_num_sim_processes K = get_rank K
                 ∧ is_local_gid K v = true) visited ->
    add_proxy_nodes K fuel model mid max_gid gid visited s = Some (v', s') ->
    Forall (λ v, v mod get_num_sim_processes K = get_rank K
                 ∧ is_local_gid K v = true) v'.
Proof.
  intros HK Hlaw Hmax.
  induction fuel as [|fuel IH]; intros gid visited s v' s' Hgid Hres Hvis;
    cbn [add_proxy_nodes].
  - destruct (gid <? max_gid); [done|]. by intros [= <- _].
  - destruct (Z.ltb_spec gid max_gid) as [Hlt|]; [|by intros [= <- _]].
    assert (Hl : is_local_gid K gid = true) by (by apply Hlaw).
    unfold is_local_gid in Hl. rewrite Hl.
    destruct (local_gid_next K HK Hlaw gid ltac:(lia) Hl) as [Hn _].
    rewrite Hn. unfold allocate. apply IH.
    + destruct HK. lia.
    + destruct HK.
      replace (gid + get_num_sim_processes K)
        with (gid + 1 * get_num_sim_processes K) by lia.
      by rewrite Z.mod_add by lia.
    + apply Forall_app. split; [done|]. by apply Forall_singleton.
Qed.

(** C2: on a pure recording process [next_local_gid_] steps by the number of
    simulation processes; on a simulation process it returns the smallest GID
    above [g] that is congruent to the rank modulo the number of simulation
    processes, so that every GID the loop of the has-proxies branch visits,
    entered from [g] as [add_node] enters it, is congruent to the rank and
    owned by this process. *)
Theorem next_local_gid_contract K g :
  kernel_bounds K -> 0 <= g <= max_size K ->
  let sim_procs := get_num_sim_processes K in
  let rank := get_rank K in
  (sim_procs <= rank -> next_local_gid_ K g = g + sim_procs)
  ∧ (rank < sim_procs ->
       g < next_local_gid_ K g
       ∧ next_local_gid_ K g mod sim_procs = rank
       ∧ ∀ h, g < h -> h mod sim_procs = rank -> next_local_gid_ K g <= h)
  ∧ (rank < sim_procs -> placement_by_rank K ->
       ∀ fuel model mid max_gid s visited s',
         max_gid <= max_size K ->
         add_proxy_nodes K fuel model mid max_gid
           (if is_local_vp K (suggest_vp K g) then g else next_local_gid_ K g)
           [] s = Some (visited, s') ->
         Forall (λ v, v mod sim_procs = rank ∧ is_local_gid K v = true) visited).
Proof.
  intros HK Hg sim_procs rank. pose proof HK as [HT Hrank HS HR Hsize].
  split; [|split].
  - intros Hrec. apply next_local_gid_rec; lia.
  - intros Hsim.
    destruct (next_local_gid_sim K g) as (H1 & H2 & H3); try lia.
    repeat split; [lia|done|done].
  - intros Hsim Hlaw fuel model mid max_gid s visited s' Hmax Hloop.
    destruct (next_local_gid_sim K g) as (H1 & H2 & H3); try lia.
    eapply (add_proxy_nodes_visits_local K model mid max_gid fuel HK Hlaw Hmax);
      [| |apply Forall_nil_2|exact Hloop].
    + destruct (is_local_vp K (suggest_vp K g)); lia.
    + fold (is_local_gid K g). destruct (is_local_gid K g) eqn:Hl; [|done].
      apply Hlaw in Hl; [done|lia].
Qed.

Lemma next_local_gid_contract_witness :
  next_local_gid_ (two_by_two 1) 4 = 5
  ∧ next_local_gid_ (two_by_two 1) 5 = 7
  ∧ next_local_gid_ (round_robin 2 2 2 1 example_models) 4 = 6
  ∧ Forall (λ v, v mod 2 = 1 ∧ is_local_gid (two_by_two 1) v = true) [5; 7; 9].
Proof.
  destruct (next_local_gid_contract (two_by_two 1) 4) as (_ & _ & H3).
  - apply two_by_two_bounds. lia.
  - vm_compute. split; discriminate.
  - split; [reflexivity|]. split; [reflexivity|]. split; [reflexivity|].
    apply (H3 ltac:(reflexivity)
             (round_robin_placement_by_rank 2 1 2 0 example_models
                ltac:(reflexivity) ltac:(reflexivity))
             6%nat neuron 1 10 NodeManager_init [5; 7; 9]
             (register_proxy_nodes (two_by_two 1) neuron 1 [5; 7; 9] NodeManager_init)).
    + vm_compute. discriminate.
    + vm_compute. reflexivity.
Defined.


(** ** Failures of [add_node] *)

(** C5: [add_node] throws [UnknownModelID] for a model id that is not
    registered, [BadProperty] for a count below 1, and the kernel exception
    OutOfMemory when the range does not fit the capacity of the registry; the
    state at the throw is the state before the call, so no node has been
    created and the registry is unchanged. *)
Theorem add_node_failures K mid n s :
  (get_num_node_models K <= mid ->
     add_node K mid n s = Throw (UnknownModelID mid) s)
  ∧ (mid < get_num_node_models K -> n < 1 ->
       add_node K mid n s = Throw BadProperty s)
  ∧ (kernel_bounds K -> 0 <= mid < get_num_node_models K -> 1 <= n < 2 ^ 63 ->
       0 <= get_max_gid (local_nodes_ s) <= max_size K ->
       max_size K < get_max_gid (local_nodes_ s) + 1 + n ->
       add_node K mid n s = Throw (KernelException "OutOfMemory") s).
Proof.
  unfold add_node. split; [|split].
  - intros H. by destruct (Z.leb_spec (get_num_node_models K) mid); [|lia].
  - intros H Hn. destruct (Z.leb_spec (get_num_node_models K) mid); [lia|].
    by destruct (Z.ltb_spec n 1); [|lia].
  - intros [HT Hrank HS HR Hsize] Hmid Hn Hmax Hcap.
    destruct (Z.leb_spec (get_num_node_models K) mid); [lia|].
    destruct (Z.ltb_spec n 1); [lia|].
    destruct (Z.ltb_spec 0 (get_num_threads K)); [|lia]. cbn [negb].
    destruct (get_model_valid K mid Hmid) as [model ->].
    unfold get_max_gid in *.
    rewrite (wrap64_small (max_gid_ (local_nodes_ s) + 1)) by lia.
    rewrite (wrap64_small (max_gid_ (local_nodes_ s) + 1 + n)) by lia.
    by destruct (Z.ltb_spec (max_size K) (max_gid_ (local_nodes_ s) + 1 + n)); [|lia].
Qed.

Lemma add_node_failures_witness :
  add_node (two_by_two 0) 5 1 NodeManager_init = Throw (UnknownModelID 5) NodeManager_init
  ∧ add_node (two_by_two 0) 1 0 NodeManager_init = Throw BadProperty NodeManager_init
  ∧ add_node (two_by_two 0) 1 (2 ^ 60) (five_neurons 0)
    = Throw (KernelException "OutOfMemory") (five_neurons 0).
Proof.
  split; [|split].
  - apply (add_node_failures (two_by_two 0) 5 1 NodeManager_init). vm_compute. discriminate.
  - apply (add_node_failures (two_by_two 0) 1 0 NodeManager_init); reflexivity.
  - apply (add_node_failures (two_by_two 0) 1 (2 ^ 60) (five_neurons 0)).
    + apply two_by_two_bounds. lia.
    + vm_compute. split; [discriminate|reflexivity].
    + lia.
    + vm_compute. split; discriminate.
    + vm_compute. reflexivity.
Defined.

(** ** Lookup *)

Lemma to_thread_small z : 0 <= z < 2 ^ 31 -> to_thread z = z.
Proof. intros. unfold to_thread. rewrite Z.mod_small by lia. lia. Qed.

(** C8: [get_node] returns the proxy of the model manager for a GID without a
    local entry and the node itself for a plain entry; for a sibling
    container, whose siblings are one per thread of the process, it throws
    [UnknownNode] when the thread is negative or not below the number of
    threads, and returns the sibling of the thread otherwise. *)
Theorem get_node_cases K g t s :
  kernel_bounds K ->
  match get_node_by_gid (local_nodes_ s) g with
  | None => get_node g t s = Ok (ProxyNode t g) s
  | Some node =>
      (num_thread_siblings (deref (heap s) node) = 0 ->
         get_node g t s = Ok (LocalNode node) s)
      ∧ (num_thread_siblings (deref (heap s) node) = get_num_threads K ->
           (t < 0 ∨ get_num_threads K <= t -> get_node g t s = Throw UnknownNode s)
           ∧ (0 <= t < get_num_threads K ->
                ∃ sibling,
                  get_thread_sibling (deref (heap s) node) t = Some sibling
                  ∧ get_node g t s = Ok (LocalNode sibling) s))
  end.
Proof.
  intros [HT _ _ _ _]. unfold get_node.
  destruct (get_node_by_gid (local_nodes_ s) g) as [node|]; [|done].
  split.
  - intros ->. done.
  - intros Hn. rewrite Hn.
    destruct (Z.eqb_spec (get_num_threads K) 0); [lia|].
    rewrite to_thread_small by lia. split.
    + intros Ht. destruct (Z.ltb_spec t 0); [done|].
      destruct (Z.leb_spec (get_num_threads K) t); [done|lia].
    + intros Ht. destruct (Z.ltb_spec t 0); [lia|].
      destruct (Z.leb_spec (get_num_threads K) t); [lia|]. cbn [orb].
      unfold get_thread_sibling, num_thread_siblings in *.
      destruct (Z.ltb_spec t 0); [lia|].
      destruct (lookup_lt_is_Some_2 (container_nodes_ (deref (heap s) node))
                  (Z.to_nat t) ltac:(lia)) as [sibling ->].
      eauto.
Qed.

Lemma get_node_cases_witness :
  get_node 2 0 (neurons_and_device 1) = Ok (ProxyNode 0 2) (neurons_and_device 1)
  ∧ get_node 3 7 (neurons_and_device 1) = Ok (LocalNode 1%nat) (neurons_and_device 1)
  ∧ get_node 6 2 (neurons_and_device 1) = Throw UnknownNode (neurons_and_device 1)
  ∧ get_node 6 (-1) (neurons_and_device 1) = Throw UnknownNode (neurons_and_device 1)
  ∧ get_node 6 1 (neurons_and_device 1) = Ok (LocalNode 5%nat) (neurons_and_device 1).
Proof.
  assert (HK : kernel_bounds (two_by_two 1)) by (apply two_by_two_bounds; lia).
  pose proof (get_node_cases (two_by_two 1) 2 0 (neurons_and_device 1) HK) as H2.
  pose proof (get_node_cases (two_by_two 1) 3 7 (neurons_and_device 1) HK) as H3.
  pose proof (get_node_cases (two_by_two 1) 6 2 (neurons_and_device 1) HK) as H6.
  pose proof (get_node_cases (two_by_two 1) 6 (-1) (neurons_and_device 1) HK) as H6'.
  pose proof (get_node_cases (two_by_two 1) 6 1 (neurons_and_device 1) HK) as H6''.
  vm_compute (get_node_by_gid _ _) in H2, H3, H6, H6', H6''.
  destruct H3 as [H3 _], H6 as [_ H6], H6' as [_ H6'], H6'' as [_ H6''].
  specialize (H3 eq_refl).
  destruct (H6 eq_refl) as [H6a _], (H6' eq_refl) as [H6b _], (H6'' eq_refl) as [_ H6c].
  destruct H6c as (sibling & Hs & H6c); [vm_compute; split; [discriminate|reflexivity]|].
  vm_compute in Hs. injection Hs as <-.
  split; [exact H2|]. split; [exact H3|]. split; [|split; [|exact H6c]].
  - apply H6a. right. vm_compute. discriminate.
  - apply H6b. left. reflexivity.
Defined.

(** C10: for a plain local node, one without thread siblings, [get_node]
    returns that node whatever the thread argument is. *)
Theorem get_node_plain_ignores_thread g s node :
  get_node_by_gid (local_nodes_ s) g = Some node ->
  num_thread_siblings (deref (heap s) node) = 0 ->
  ∀ t, get_node g t s = Ok (LocalNode node) s.
Proof. intros Hg Hn t. unfold get_node. by rewrite Hg, Hn. Qed.

Lemma get_node_plain_ignores_thread_witness :
  get_node 3 (-5) (five_neurons 1) = Ok (LocalNode 1%nat) (five_neurons 1)
  ∧ get_node 3 1000 (five_neurons 1) = Ok (LocalNode 1%nat) (five_neurons 1).
Proof.
  split; apply (get_node_plain_ignores_thread 3 (five_neurons 1) 1%nat); reflexivity.
Defined.

(** What [get_thread_siblings] does for a GID with a local entry. *)
Lemma get_thread_siblings_local g s node :
  get_node_by_gid (local_nodes_ s) g = Some node ->
  get_thread_siblings g s =
    if num_thread_siblings (deref (heap s) node) =? 0
    then Throw (NoThreadSiblingsAvailable g) s else Ok node s.
Proof. intros Hg. unfold get_thread_siblings. by rewrite Hg. Qed.

(** For a GID without a local entry the null pointer is dereferenced. *)
Lemma get_thread_siblings_absent g s :
  get_node_by_gid (local_nodes_ s) g = None ->
  get_thread_siblings g s = Fault NullDereference.
Proof. intros Hg. unfold get_thread_siblings. by rewrite Hg. Qed.

(** C9: on process 1 of the scenario, GID 2 belongs to process 0 and has no
    local entry; [get_thread_siblings] dereferences the null pointer the
    registry returns instead of throwing [NoThreadSiblingsAvailable]. *)
Theorem get_thread_siblings_remote_gid :
  get_node_by_gid (local_nodes_ (five_neurons 1)) 2 = None
  ∧ get_thread_siblings 2 (five_neurons 1) = Fault NullDereference
  ∧ get_node 2 0 (five_neurons 1) = Ok (ProxyNode 0 2) (five_neurons 1).
Proof. split; [|split]; vm_compute; reflexivity. Qed.


(** ** Replicated devices *)

Lemma find_app_Some {A} (f : A -> bool) l1 l2 x :
  List.find f l1 = Some x -> List.find f (l1 ++ l2) = Some x.
Proof.
  induction l1 as [|y l1 IH]; cbn; [done|]. destruct (f y); [done|exact IH].
Qed.

Lemma find_app_None {A} (f : A -> bool) l1 l2 :
  List.find f l1 = None -> List.find f (l1 ++ l2) = List.find f l2.
Proof.
  induction l1 as [|y l1 IH]; cbn; [done|]. destruct (f y); [done|exact IH].
Qed.

Lemma get_node_by_gid_above a g :
  Forall (λ e : ptr * Z, e.2 < g) (nodes_ a) -> get_node_by_gid a g = None.
Proof.
  intros H. unfold get_node_by_gid.
  induction H as [|e l He _ IH]; cbn; [done|].
  destruct (Z.eqb_spec e.2 g); [lia|exact IH].
Qed.

Lemma get_node_by_gid_grows s s' g c :
  grows s s' ->
  get_node_by_gid (local_nodes_ s) g = Some c ->
  get_node_by_gid (local_nodes_ s') g = Some c.
Proof.
  intros [_ [k Hk] _ _ _ _ _ _ _ _]. unfold get_node_by_gid. rewrite Hk.
  destruct (List.find _ (nodes_ (local_nodes_ s))) as [e|] eqn:E; [|done].
  by rewrite (find_app_Some _ _ _ _ E).
Qed.

Lemma deref_grows s s' p :
  grows s s' -> (p < length (heap s))%nat -> deref (heap s') p = deref (heap s) p.
Proof. intros [[k ->] _ _ _ _ _ _ _ _ _] Hp. by apply deref_app_l. Qed.

Lemma length_grows s s' :
  grows s s' -> (length (heap s) <= length (heap s'))%nat.
Proof. intros [[k ->] _ _ _ _ _ _ _ _ _]. rewrite length_app. lia. Qed.

Lemma replicated_grows K mid s s' g c :
  grows s s' -> replicated K mid s g c -> replicated K mid s' g c.
Proof.
  intros Hg [H1 H2 H3 H4 H5 H6]. pose proof (length_grows _ _ Hg) as Hlen.
  split; rewrite ?(deref_grows _ _ _ Hg H2); try done.
  - by eapply get_node_by_gid_grows.
  - lia.
  - intros t Ht. destruct (H6 t Ht) as (p & Hp1 & Hp2 & Hp).
    exists p. rewrite (deref_grows _ _ _ Hg Hp2). split; [done|]. split; [lia|done].
Qed.

Lemma registry_below_max_register x extra s :
  registry_below_max s -> registry_below_max (register x extra s).
Proof.
  unfold registry_below_max. cbn. intros H. apply Forall_app. split.
  - eapply Forall_impl; [exact H|]. cbn. lia.
  - apply Forall_singleton. cbn. lia.
Qed.

Lemma replicated_register K sc_model model mid s g :
  kernel_bounds K -> registry_below_max s -> max_gid_ (local_nodes_ s) < g ->
  replicated K mid
    (register
       (container_node sc_model g
          (seq (S (length (heap s))) (Z.to_nat (get_num_threads K))))
       (sibling_node K model mid g <$> seqZ 0 (get_num_threads K)) s)
    g (length (heap s)).
Proof.
  intros [HT _ _ _ _] Hbelow Hmax.
  set (c := container_node _ _ _). set (sibs := _ <$> _).
  assert (Hc : deref (heap s ++ c :: sibs) (length (heap s)) = c)
    by apply deref_fresh.
  split; cbn [register heap with_heap with_local_nodes local_nodes_]; rewrite ?Hc.
  - unfold get_node_by_gid. cbn [nodes_].
    rewrite find_app_None.
    + cbn. unfold c. rewrite gid_container_node, Z.eqb_refl. done.
    + pose proof (get_node_by_gid_above (local_nodes_ s) g) as H.
      unfold get_node_by_gid in H.
      destruct (List.find _ _); [|done]. discriminate H.
      eapply Forall_impl; [exact Hbelow|]. cbn. lia.
  - rewrite length_app. cbn. lia.
  - apply gid_container_node.
  - unfold c, container_node. by rewrite model_id_push_backs.
  - unfold num_thread_siblings, c. rewrite container_nodes_container_node, length_seq. lia.
  - intros t Ht. exists (S (length (heap s)) + Z.to_nat t)%nat.
    unfold get_thread_sibling, c. rewrite container_nodes_container_node.
    destruct (Z.ltb_spec t 0); [lia|].
    rewrite lookup_seq_lt by lia. split; [done|].
    assert (Hd : deref (heap s ++ container_node sc_model g
                          (seq (S (length (heap s))) (Z.to_nat (get_num_threads K))) :: sibs)
                   (S (length (heap s)) + Z.to_nat t)
                 = sibling_node K model mid g t).
    { unfold deref. rewrite (cons_middle _ (heap s)), app_assoc.
      rewrite lookup_total_app_r by (rewrite length_app; cbn; lia).
      rewrite length_app. cbn [length].
      replace (S (length (heap s)) + Z.to_nat t - (length (heap s) + 1))%nat
        with (Z.to_nat t) by lia.
      unfold sibs. apply list_lookup_total_correct.
      rewrite list_lookup_fmap, lookup_seqZ_lt by lia. cbn. f_equal. f_equal. lia. }
    rewrite Hd. split.
    { rewrite length_app. cbn. unfold sibs. rewrite length_fmap, length_seqZ. lia. }
    done.
Qed.

Lemma get_model_Some K mid model :
  get_model K mid = Some model -> 0 <= mid < get_num_node_models K.
Proof.
  unfold get_model, get_num_node_models.
  destruct (Z.ltb_spec mid 0); [done|]. intros Hm%lookup_lt_Some. lia.
Qed.

Lemma fold_add_sibling_container K sc_model model mid :
  kernel_bounds K ->
  forall (k : nat) first s,
    registry_below_max s -> max_gid_ (local_nodes_ s) < first ->
    let s' := fold_left (add_sibling_container K sc_model model mid)
                (seqZ first (Z.of_nat k)) s in
    registry_below_max s'
    ∧ max_gid_ (local_nodes_ s') < first + Z.of_nat k
    ∧ grows s s'
    ∧ ∃ containers,
        nodes_ (local_nodes_ s') = nodes_ (local_nodes_ s) ++ containers
        ∧ containers.*2 = seqZ first (Z.of_nat k)
        ∧ Forall (λ e : ptr * Z, replicated K mid s' e.2 e.1) containers.
Proof.
  intros HK k first s Hbelow Hmax. cbv zeta.
  induction k as [|k IH].
  - rewrite seqZ_nil by lia. cbn [fold_left]. split; [done|]. split; [lia|].
    split; [apply grows_refl|].
    exists []. rewrite app_nil_r. split; [done|]. split; [done|]. apply Forall_nil_2.
  - rewrite seqZ_S, fold_left_app. cbn [fold_left].
    destruct IH as (Hb & Hm & Hg & containers & Hn & Hc & Hrep).
    set (s1 := fold_left _ (seqZ first (Z.of_nat k)) s) in *.
    rewrite add_sibling_container_register.
    set (x := container_node _ _ _). set (sibs := _ <$> _).
    assert (Hgx : gid_ x = first + Z.of_nat k) by apply gid_container_node.
    split; [by apply registry_below_max_register|].
    split; [rewrite max_gid_register; lia|].
    split; [eapply grows_trans; [exact Hg|apply grows_register]|].
    exists (containers ++ [(length (heap s1), first + Z.of_nat k)]).
    split; [|split].
    + cbn. rewrite Hn, Hgx. by rewrite <- app_assoc.
    + rewrite fmap_app, Hc. done.
    + apply Forall_app. split.
      * eapply Forall_impl; [exact Hrep|]. intros e Hr.
        eapply replicated_grows; [apply grows_register|exact Hr].
      * apply Forall_singleton. cbn [fst snd].
        apply replicated_register; [done|done|lia].
Qed.

Lemma get_node_replicated K mid s g c t :
  kernel_bounds K -> replicated K mid s g c -> 0 <= t < get_num_threads K ->
  ∃ p, get_node g t s = Ok (LocalNode p) s
    ∧ get_thread_sibling (deref (heap s) c) t = Some p
    ∧ gid_ (deref (heap s) p) = g
    ∧ model_id_ (deref (heap s) p) = mid
    ∧ thread_ (deref (heap s) p) = t
    ∧ num_thread_siblings (deref (heap s) p) = 0.
Proof.
  intros HK [H1 H2 H3 H4 H5 H6] Ht.
  destruct (H6 t Ht) as (p & Hp1 & Hp2 & Hp3 & Hp4 & Hp5 & Hp6 & Hp7).
  exists p. pose proof (get_node_cases K g t s HK) as Hcases.
  rewrite H1 in Hcases. destruct Hcases as [_ Hcases].
  destruct (Hcases H5) as [_ Hin]. destruct (Hin Ht) as (p' & Hp' & ->).
  rewrite Hp1 in Hp'. injection Hp' as <-. done.
Qed.

(** C6: for a model without proxies that is replicated on every thread,
    [add_node] registers exactly [n] sibling containers, one under each GID of
    the range; each holds one node per thread of the process, all under the
    GID of the container, and [get_node] returns for each valid thread the
    node of that thread, a different node for different threads. *)
Theorem add_node_replicates_devices K mid n s model :
  kernel_bounds K ->
  get_model K mid = Some model ->
  potential_global_receiver model && (0 <? get_num_rec_processes K) = false ->
  has_proxies model = false -> one_node_per_process model = false ->
  1 <= n -> 0 <= get_max_gid (local_nodes_ s) ->
  get_max_gid (local_nodes_ s) + 1 + n <= max_size K ->
  registry_below_max s ->
  let first := get_max_gid (local_nodes_ s) + 1 in
  let last := get_max_gid (local_nodes_ s) + n in
  ∃ s' containers,
    add_node K mid n s = Ok (GIDCollectionPrimitive first last mid) s'
    ∧ nodes_ (local_nodes_ s') = nodes_ (local_nodes_ s) ++ containers
    ∧ containers.*2 = seqZ first n
    ∧ ∀ c g, (c, g) ∈ containers ->
        get_node_by_gid (local_nodes_ s') g = Some c
        ∧ model_id_ (deref (heap s') c) = -1
        ∧ gid_ (deref (heap s') c) = g
        ∧ num_thread_siblings (deref (heap s') c) = get_num_threads K
        ∧ (∀ t, 0 <= t < get_num_threads K ->
             ∃ p, get_node g t s' = Ok (LocalNode p) s'
               ∧ get_thread_sibling (deref (heap s') c) t = Some p
               ∧ gid_ (deref (heap s') p) = g
               ∧ model_id_ (deref (heap s') p) = mid
               ∧ thread_ (deref (heap s') p) = t
               ∧ num_thread_siblings (deref (heap s') p) = 0)
        ∧ (∀ t1 t2 p1 p2,
             0 <= t1 < get_num_threads K -> 0 <= t2 < get_num_threads K ->
             t1 ≠ t2 ->
             get_node g t1 s' = Ok (LocalNode p1) s' ->
             get_node g t2 s' = Ok (LocalNode p2) s' ->
             p1 ≠ p2).
Proof.
  intros HK Hmodel Hgr Hprox Hone Hn Hmax Hcap Hbelow first last.
  pose proof HK as [HT Hrank HS HR Hsize].
  pose proof (get_model_Some K mid model Hmodel) as Hmid.
  unfold add_node.
  destruct (Z.leb_spec (get_num_node_models K) mid); [lia|].
  destruct (Z.ltb_spec n 1); [lia|].
  destruct (Z.ltb_spec 0 (get_num_threads K)); [|lia]. cbn [negb].
  rewrite Hmodel. unfold get_max_gid in *.
  rewrite (wrap64_small (max_gid_ (local_nodes_ s) + 1)) by lia.
  rewrite (wrap64_small (max_gid_ (local_nodes_ s) + 1 + n)) by lia.
  destruct (Z.ltb_spec (max_size K) (max_gid_ (local_nodes_ s) + 1 + n)); [lia|].
  destruct (Z.ltb_spec (max_gid_ (local_nodes_ s) + 1 + n) (max_gid_ (local_nodes_ s) + 1));
    [lia|]. cbn [orb].
  unfold place_nodes. rewrite Hgr, Hprox, Hone. cbn [negb].
  unfold siblingcontainer_model_.
  destruct (get_model_valid K 0) as [sc ->]; [lia|].
  replace (max_gid_ (local_nodes_ s) + 1 + n - (max_gid_ (local_nodes_ s) + 1)) with n by lia.
  replace (max_gid_ (local_nodes_ s) + 1 + n - 1) with last by (unfold last, get_max_gid; lia).
  fold first.
  set (s0 := add_range mid first last s).
  destruct (fold_add_sibling_container K sc model mid HK (Z.to_nat n) first s0)
    as (_ & _ & _ & containers & Hnodes & Hgids & Hrep).
  { exact Hbelow. }
  { cbn. unfold first, get_max_gid. lia. }
  rewrite Z2Nat.id in * by lia.
  set (s1 := fold_left _ (seqZ first n) s0) in *.
  set (s' := if is_off_grid model then set_off_grid_communication true s1 else s1).
  assert (Hh : heap s' = heap s1) by (unfold s'; by destruct (is_off_grid model)).
  assert (Hl : local_nodes_ s' = local_nodes_ s1) by (unfold s'; by destruct (is_off_grid model)).
  exists s', containers. split; [done|]. split; [rewrite Hl; exact Hnodes|].
  split; [exact Hgids|].
  intros c g Hin. rewrite Forall_forall in Hrep. specialize (Hrep (c, g) Hin) as Hr.
  cbn [fst snd] in Hr.
  assert (Hr' : replicated K mid s' g c).
  { destruct Hr. split; rewrite ?Hh, ?Hl; done. }
  clear Hr.
  split; [apply Hr'|]. split; [apply Hr'|]. split; [apply Hr'|]. split; [apply Hr'|].
  split.
  - intros t Ht. by apply (get_node_replicated K mid s' g c t).
  - intros t1 t2 p1 p2 Ht1 Ht2 Hne G1 G2 ->.
    destruct (get_node_replicated K mid s' g c t1 HK Hr' Ht1) as (q1 & E1 & _ & _ & _ & T1 & _).
    destruct (get_node_replicated K mid s' g c t2 HK Hr' Ht2) as (q2 & E2 & _ & _ & _ & T2 & _).
    rewrite E1 in G1. rewrite E2 in G2. congruence.
Qed.

Lemma add_node_replicates_devices_witness :
  ∃ s' c,
    add_node (two_by_two 0) 2 1 (five_neurons 0)
      = Ok (GIDCollectionPrimitive 6 6 2) s'
    ∧ get_node_by_gid (local_nodes_ s') 6 = Some c
    ∧ num_thread_siblings (deref (heap s') c) = 2
    ∧ ∃ p0 p1, get_node 6 0 s' = Ok (LocalNode p0) s'
        ∧ get_node 6 1 s' = Ok (LocalNode p1) s' ∧ p0 ≠ p1.
Proof.
  destruct (add_node_replicates_devices (two_by_two 0) 2 1 (five_neurons 0) device)
    as (s' & containers & Hadd & _ & Hgids & Hg).
  - apply two_by_two_bounds. lia.
  - reflexivity.
  - reflexivity.
  - reflexivity.
  - reflexivity.
  - lia.
  - vm_compute. discriminate.
  - vm_compute. discriminate.
  - unfold registry_below_max. vm_compute (nodes_ _). vm_compute (max_gid_ _).
    repeat (apply Forall_cons; split; [cbn; lia|]). apply Forall_nil_2.
  - vm_compute (get_max_gid _) in Hadd, Hgids.
    destruct containers as [|[c g] [|? ?]]; try discriminate Hgids.
    injection Hgids as ->.
    destruct (Hg c 6 (list_elem_of_here _ _)) as (Hc & _ & _ & Hcount & Hsib & Hdistinct).
    exists s', c. split; [exact Hadd|]. split; [exact Hc|]. split; [exact Hcount|].
    destruct (Hsib 0 ltac:(vm_compute; split; [discriminate|reflexivity])) as (p0 & G0 & _).
    destruct (Hsib 1 ltac:(vm_compute; split; [discriminate|reflexivity])) as (p1 & G1 & _).
    exists p0, p1. split; [exact G0|]. split; [exact G1|].
    refine (Hdistinct 0 1 p0 p1 _ _ _ G0 G1); [| |lia].
    all: vm_compute; split; [discriminate|reflexivity].
Defined.


(** ** The identity of a node is fixed at creation *)

Lemma same_identity_refl x : same_identity x x.
Proof. by repeat split. Qed.

Lemma same_identity_trans x y z :
  same_identity x y -> same_identity y z -> same_identity x z.
Proof. unfold same_identity. intros Hxy Hyz. intuition congruence. Qed.

Lemma heap_stable_refl h : heap_stable h h.
Proof. split; [lia|]. intros. apply same_identity_refl. Qed.

Lemma heap_stable_trans h1 h2 h3 :
  heap_stable h1 h2 -> heap_stable h2 h3 -> heap_stable h1 h3.
Proof.
  intros [L1 H1] [L2 H2]. split; [lia|]. intros p Hp.
  eapply same_identity_trans; [apply H1|apply H2]; lia.
Qed.

Lemma heap_stable_app h k : heap_stable h (h ++ k).
Proof.
  split; [rewrite length_app; lia|]. intros p Hp.
  rewrite deref_app_l by done. apply same_identity_refl.
Qed.

Lemma heap_stable_store p f (h : Heap) :
  (forall x, same_identity x (f x)) -> heap_stable h (store p f h).
Proof.
  intros Hf. unfold store. split; [by rewrite length_alter|]. intros q Hq.
  unfold deref. destruct (decide (p = q)) as [->|Hne].
  - rewrite list_lookup_total_alter_eq by done. apply Hf.
  - rewrite list_lookup_total_alter_ne by done. apply same_identity_refl.
Qed.

Lemma heap_stable_grows s s' : grows s s' -> heap_stable (heap s) (heap s').
Proof. intros [[k ->] _ _ _ _ _ _ _ _ _]. apply heap_stable_app. Qed.

Lemma heap_updated_refl h : heap_updated h h.
Proof. split; [done|]. intros. apply same_identity_refl. Qed.

Lemma heap_updated_trans h1 h2 h3 :
  heap_updated h1 h2 -> heap_updated h2 h3 -> heap_updated h1 h3.
Proof.
  intros [L1 H1] [L2 H2]. split; [congruence|]. intros p.
  eapply same_identity_trans; [apply H1|apply H2].
Qed.

Lemma heap_updated_store p f (h : Heap) :
  (forall x, same_identity x (f x)) -> heap_updated h (store p f h).
Proof.
  intros Hf. unfold store. split; [by rewrite length_alter|]. intros q.
  unfold deref. destruct (decide (p = q)) as [->|Hne].
  - destruct (decide (q < length h)%nat).
    + rewrite list_lookup_total_alter_eq by done. apply Hf.
    + rewrite !list_lookup_total_alt.
      rewrite !(lookup_ge_None_2) by (rewrite ?length_alter; lia).
      apply same_identity_refl.
  - rewrite list_lookup_total_alter_ne by done. apply same_identity_refl.
Qed.

Lemma heap_updated_stable h h' : heap_updated h h' -> heap_stable h h'.
Proof. intros [L H]. split; [lia|]. intros p _. apply H. Qed.

Lemma same_identity_set_thread_lid l x : same_identity x (set_thread_lid l x).
Proof. by repeat split. Qed.

Lemma same_identity_set_buffers_initialized b x :
  same_identity x (set_buffers_initialized b x).
Proof. by repeat split. Qed.

Lemma same_identity_count_calibrate x : same_identity x (count_calibrate x).
Proof. by repeat split. Qed.

(** ** Rebuilding the thread-local lists *)

Lemma thread_local_node_updated h h' t e :
  heap_updated h h' -> thread_local_node h' t e = thread_local_node h t e.
Proof.
  intros [_ H]. unfold thread_local_node, num_thread_siblings, get_thread_sibling.
  destruct (H e.1) as (_ & _ & -> & _ & _ & _ & _ & _ & ->). done.
Qed.

Lemma thread_local_nodes_updated h h' t entries :
  heap_updated h h' -> thread_local_nodes h' entries t = thread_local_nodes h entries t.
Proof.
  intros H. unfold thread_local_nodes. f_equal.
  apply list_fmap_ext. intros _ e _. by apply thread_local_node_updated.
Qed.

Lemma containers_complete_updated K h h' entries :
  heap_updated h h' -> containers_complete K h entries -> containers_complete K h' entries.
Proof.
  intros [_ H] Hc. unfold containers_complete.
  eapply Forall_impl; [exact Hc|]. intros e.
  unfold num_thread_siblings. destruct (H e.1) as (_ & _ & _ & _ & _ & _ & _ & _ & ->). done.
Qed.

Lemma fold_collect_node K t entries : forall h nv wv,
  0 <= t < get_num_threads K -> containers_complete K h entries ->
  exists h' wv',
    fold_left (collect_node t) entries (Some (h, nv, wv))
      = Some (h', nv ++ thread_local_nodes h entries t, wv')
    ∧ heap_updated h h'
    ∧ (length wv <= length wv')%nat
    ∧ (wv' = [] -> wv = []).
Proof.
  induction entries as [|e entries IH]; intros h nv wv Ht Hc.
  - exists h, wv. cbn. rewrite app_nil_r. split; [done|]. split; [apply heap_updated_refl|].
    split; [lia|done].
  - apply Forall_cons in Hc as [He Hc]. cbn [fold_left].
    unfold thread_local_nodes. cbn [fmap list_fmap concat].
    fold (thread_local_nodes h entries t).
    unfold collect_node at 2. unfold thread_local_node.
    destruct (Z.ltb_spec 0 (num_thread_siblings (deref h e.1))) as [Hs|Hs].
    + specialize (He Hs). unfold get_thread_sibling, num_thread_siblings in *.
      destruct (Z.ltb_spec t 0); [lia|].
      destruct (lookup_lt_is_Some_2 (container_nodes_ (deref h e.1)) (Z.to_nat t)
                  ltac:(lia)) as [sibling ->].
      set (h1 := store sibling _ h).
      assert (Hu : heap_updated h h1)
        by (apply heap_updated_store; intros; apply same_identity_set_thread_lid).
      destruct (IH h1 (nv ++ [sibling]) wv Ht) as (h' & wv' & E & Hu' & Hw);
        [by eapply containers_complete_updated|].
      exists h', wv'. rewrite E. rewrite (thread_local_nodes_updated h h1) by done.
      rewrite <- app_assoc. split; [done|]. split; [|done].
      by eapply heap_updated_trans.
    + destruct (Z.eqb_spec (wrap64 (thread_ (deref h e.1))) t) as [Et|Et].
      * set (h1 := store e.1 _ h).
        assert (Hu : heap_updated h h1)
          by (apply heap_updated_store; intros; apply same_identity_set_thread_lid).
        destruct (IH h1 (nv ++ [e.1])
                    (if uses_wfr_ (deref h1 e.1) then wv ++ [e.1] else wv) Ht)
          as (h' & wv' & E & Hu' & Hw1 & Hw2);
          [by eapply containers_complete_updated|].
        exists h', wv'. rewrite E. rewrite (thread_local_nodes_updated h h1) by done.
        rewrite <- app_assoc. split; [done|].
        split; [by eapply heap_updated_trans|].
        clear E. revert Hw1 Hw2. destruct (uses_wfr_ (deref h1 e.1)); intros Hw1 Hw2.
        -- rewrite length_app in Hw1. cbn in Hw1. split; [lia|].
           intros Hnil%Hw2. by destruct wv.
        -- done.
      * destruct (IH h nv wv Ht Hc) as (h' & wv' & E & Hu' & Hw).
        exists h', wv'. rewrite E. done.
Qed.

Lemma fold_collect_thread K entries h0 :
  containers_complete K h0 entries ->
  forall k : nat, (k <= Z.to_nat (get_num_threads K))%nat ->
  exists h' wvs',
    fold_left (collect_thread entries) (seqZ 0 (Z.of_nat k))
      (Some (h0, replicate (Z.to_nat (get_num_threads K)) [],
             replicate (Z.to_nat (get_num_threads K)) []))
    = Some (h',
            (thread_local_nodes h0 entries <$> seqZ 0 (Z.of_nat k))
              ++ replicate (Z.to_nat (get_num_threads K) - k) [],
            wvs')
    ∧ heap_updated h0 h'.
Proof.
  intros Hc. induction k as [|k IH]; intros Hk.
  - rewrite seqZ_nil by lia. cbn [fold_left fmap list_fmap app].
    rewrite Nat.sub_0_r. eexists _, _. split; [done|apply heap_updated_refl].
  - destruct IH as (h1 & wvs1 & E & Hu); [lia|].
    rewrite seqZ_S, fold_left_app, E. cbn [fold_left]. unfold collect_thread.
    destruct (fold_collect_node K (0 + Z.of_nat k) entries h1 [] [])
      as (h2 & wv & E2 & Hu2 & _); [lia|by eapply containers_complete_updated|].
    rewrite E2. eexists _, _. split; [|by eapply heap_updated_trans].
    f_equal. f_equal. f_equal.
    rewrite fmap_app. cbn [fmap list_fmap app].
    rewrite (thread_local_nodes_updated h0 h1) by done.
    rewrite insert_app_r_alt by (rewrite length_fmap, length_seqZ; lia).
    rewrite length_fmap, length_seqZ.
    replace (Z.to_nat (0 + Z.of_nat k) - Z.to_nat (Z.of_nat k))%nat with 0%nat by lia.
    replace (Z.to_nat (get_num_threads K) - k)%nat
      with (S (Z.to_nat (get_num_threads K) - S k)) by lia.
    cbn [replicate insert list_insert]. by rewrite <- app_assoc.
Qed.

(** What a rebuild leaves: the list of each thread, the pool updated in
    place, the size of the network recorded. *)
Lemma ensure_valid_rebuilds K s :
  0 <= get_num_threads K ->
  size s ≠ nodes_vec_network_size_ s ->
  containers_complete K (heap s) (nodes_ (local_nodes_ s)) ->
  exists s',
    ensure_valid_thread_local_ids K s = Ok tt s'
    ∧ nodes_vec_ s' =
        (thread_local_nodes (heap s) (nodes_ (local_nodes_ s))
           <$> seqZ 0 (get_num_threads K))
    ∧ heap_updated (heap s) (heap s')
    ∧ local_nodes_ s' = local_nodes_ s
    ∧ nodes_vec_network_size_ s' = size s
    ∧ num_active_nodes_ s' = num_active_nodes_ s
    ∧ modelranges s' = modelranges s
    ∧ n_gsd_ s' = n_gsd_ s
    ∧ off_grid_communication s' = off_grid_communication s.
Proof.
  intros HT Hsize Hc. unfold ensure_valid_thread_local_ids.
  destruct (Z.eqb_spec (size s) (nodes_vec_network_size_ s)); [done|]. cbn [negb].
  destruct (fold_collect_thread K _ _ Hc (Z.to_nat (get_num_threads K)))
    as (h' & wvs' & E & Hu); [lia|].
  rewrite Z2Nat.id in E by lia. rewrite E.
  eexists. split; [done|]. cbn.
  rewrite Nat.sub_diag. cbn. rewrite app_nil_r. done.
Qed.

(** A call that finds the recorded size current does nothing. *)
Lemma ensure_valid_current K s :
  size s = nodes_vec_network_size_ s ->
  ensure_valid_thread_local_ids K s = Ok tt s.
Proof.
  intros E. unfold ensure_valid_thread_local_ids.
  by destruct (Z.eqb_spec (size s) (nodes_vec_network_size_ s)).
Qed.

(** ** An induction principle for placement *)

Lemma next_local_gid_gt K g :
  kernel_bounds K -> 0 <= g <= max_size K ->
  g < next_local_gid_ K g < 2 ^ 64.
Proof.
  intros [HT Hrank HS HR Hsize] Hg.
  destruct (Z.lt_ge_cases (get_rank K) (get_num_sim_processes K)).
  - destruct (next_local_gid_sim K g) as (H1 & _); lia.
  - rewrite next_local_gid_rec; lia.
Qed.

Lemma fold_left_invariant {A} (P : NodeManager -> Prop)
    (body : NodeManager -> A -> NodeManager) l s :
  (forall s g, g ∈ l -> P s -> P (body s g)) -> P s -> P (fold_left body l s).
Proof.
  revert s. induction l as [|g l IH]; intros s Hb Hs; cbn; [done|].
  apply IH.
  - intros s' g' Hg'. apply Hb. by apply list_elem_of_further.
  - apply Hb; [apply list_elem_of_here|done].
Qed.

Section PlacementInvariant.
Context (K : Kernel) (HK : kernel_bounds K).
Context (P : NodeManager -> Prop) (model : Model) (mid min_gid max_gid : Z).
Context (Hmin : 0 <= min_gid < max_gid) (Hmax : max_gid <= max_size K).
Context (Hregister : forall s g x extra,
  P s -> min_gid <= g < max_gid -> placed_node K model mid s g x extra ->
  P (register x extra s)).
Context (Hremote : forall s g,
  P s -> min_gid <= g < max_gid ->
  P (with_local_nodes (add_remote_node g (local_nodes_ s)) s)).
Context (Hincrement : forall s, P s -> P (increment_n_gsd s)).

Lemma add_proxy_nodes_invariant fuel : forall gid visited s v' s',
  min_gid <= gid -> P s ->
  add_proxy_nodes K fuel model mid max_gid gid visited s = Some (v', s') ->
  P s'.
Proof.
  induction fuel as [|fuel IH]; intros gid visited s v' s' Hgid Hs;
    cbn [add_proxy_nodes].
  - destruct (gid <? max_gid); [done|]. by intros [= _ <-].
  - destruct (Z.ltb_spec gid max_gid); [|by intros [= _ <-]].
    destruct (is_local_vp K (suggest_vp K gid)) eqn:Hl.
    + unfold allocate. rewrite !store_fresh. unfold add_local_node.
      rewrite deref_fresh.
      apply IH.
      * pose proof (next_local_gid_gt K gid HK). lia.
      * apply (Hregister s gid (proxy_node K model mid gid) []); [done|lia|].
        by apply placed_proxy.
    + apply IH; [lia|done].
Qed.

Lemma place_nodes_invariant n s s' :
  P s -> place_nodes K model mid n min_gid max_gid s = Ok tt s' -> P s'.
Proof.
  intros Hs. unfold place_nodes.
  destruct (potential_global_receiver model && (0 <? get_num_rec_processes K)).
  { intros [= <-]. apply fold_left_invariant; [|done].
    intros s1 g Hg%elem_of_seqZ Hs1. rewrite add_global_receiver_eq.
    apply Hincrement.
    destruct (is_local_vp K (suggest_rec_vp K (n_gsd_ s1))) eqn:Hl.
    - apply (Hregister s1 g); [done|lia|by apply placed_receiver].
    - apply (Hremote s1 g); [done|lia]. }
  destruct (has_proxies model).
  { destruct (add_proxy_nodes _ _ _ _ _ _ _ _) as [[v s1]|] eqn:E; [|done].
    apply add_proxy_nodes_invariant in E; [| |done].
    - destruct (negb _); intros [= <-]; [|done]. apply Hremote; [done|lia].
    - destruct (is_local_vp K (suggest_vp K min_gid)); [lia|].
      pose proof (next_local_gid_gt K min_gid HK). lia. }
  destruct (negb (one_node_per_process model)).
  { destruct (siblingcontainer_model_ K) as [sc|]; [|done].
    intros [= <-]. apply fold_left_invariant; [|done].
    intros s1 g Hg%elem_of_seqZ Hs1. rewrite add_sibling_container_register.
    apply (Hregister s1 g); [done|lia|apply placed_container]. }
  intros [= <-]. apply fold_left_invariant; [|done].
  intros s1 g Hg%elem_of_seqZ Hs1. rewrite add_process_node_register.
  apply (Hregister s1 g); [done|lia|apply placed_process].
Qed.

End PlacementInvariant.

(** The same principle for [add_node], whether it returns or throws. *)
Lemma add_node_invariant K (P : NodeManager -> Prop) mid n s s' :
  kernel_bounds K -> 0 <= max_gid_ (local_nodes_ s) <= max_size K -> n < 2 ^ 63 ->
  (forall model s1 g x extra,
     P s1 -> max_gid_ (local_nodes_ s) < g < max_size K ->
     placed_node K model mid s1 g x extra -> P (register x extra s1)) ->
  (forall s1 g,
     P s1 -> max_gid_ (local_nodes_ s) < g < max_size K ->
     P (with_local_nodes (add_remote_node g (local_nodes_ s1)) s1)) ->
  (forall s1, P s1 -> P (increment_n_gsd s1)) ->
  (forall f l, P s -> P (add_range mid f l s)) ->
  (forall s1, P s1 -> P (set_off_grid_communication true s1)) ->
  P s -> result_state (add_node K mid n s) = Some s' -> P s'.
Proof.
  intros HK Hm Hn Hreg Hrem Hinc Hrange Hoff Hs.
  pose proof HK as [HT Hrank HS HR Hsize].
  unfold add_node, get_max_gid.
  destruct (get_num_node_models K <=? mid); [by intros [= <-]|].
  destruct (Z.ltb_spec n 1); [by intros [= <-]|].
  destruct (negb _); [done|].
  destruct (get_model K mid) as [model|]; [|done].
  rewrite (wrap64_small (max_gid_ (local_nodes_ s) + 1)) by lia.
  rewrite (wrap64_small (max_gid_ (local_nodes_ s) + 1 + n)) by lia.
  set (min_gid := max_gid_ (local_nodes_ s) + 1).
  destruct (Z.ltb_spec (max_size K) (min_gid + n)); [by intros [= <-]|].
  destruct (Z.ltb_spec (min_gid + n) min_gid); [by intros [= <-]|].
  cbn [orb].
  destruct (place_nodes _ _ _ _ _ _ _) as [[] s1|e s1|f] eqn:E; [| |done].
  - eapply (place_nodes_invariant K HK P model mid min_gid (min_gid + n))
      in E; [| | |intros; eapply Hreg|intros; eapply Hrem|done|by apply Hrange];
      try done; try (unfold min_gid in *; lia).
    intros [= <-]. destruct (is_off_grid model); [by apply Hoff|done].
  - exfalso. clear -E. unfold place_nodes in E.
    repeat (match type of E with
            | context [if ?b then _ else _] => destruct b
            | context [match ?o with _ => _ end] => destruct o as [[]|]
            end; try done).
Qed.

Lemma wf_same K s s' :
  heap s' = heap s -> local_nodes_ s' = local_nodes_ s -> n_gsd_ s' = n_gsd_ s ->
  wf K s -> wf K s'.
Proof.
  intros Hh Hl Hn [H1 H2 H3 H4]. split; unfold registry_below_max in *;
    rewrite ?Hh, ?Hl, ?Hn; done.
Qed.

Lemma entry_ok_stable K h h' e :
  heap_stable h h' -> entry_ok K h e -> entry_ok K h' e.
Proof.
  intros [Hlen Hst] (Hv & Hg & Hc). destruct (Hst e.1 Hv) as (E1 & _ & E3 & _ & _ & _ & _ & _ & E9).
  unfold entry_ok, num_thread_siblings in *. rewrite E1, E3, E9.
  split; [lia|done].
Qed.

Lemma gid_placed_node K model mid s g x extra :
  placed_node K model mid s g x extra -> gid_ x = g.
Proof. intros []; try done. apply gid_container_node. Qed.

Lemma wf_register K model mid s g x extra :
  kernel_bounds K -> local_threads_in_range K ->
  wf K s -> 0 <= g <= max_size K -> placed_node K model mid s g x extra ->
  wf K (register x extra s).
Proof.
  intros [HT _ _ _ _] Hlaw [H1 H2 H3 H4] Hg Hp.
  pose proof (gid_placed_node _ _ _ _ _ _ _ Hp) as Hgid.
  split.
  - cbn. lia.
  - done.
  - by apply registry_below_max_register.
  - cbn [register local_nodes_ with_local_nodes nodes_ heap with_heap].
    apply Forall_app. split.
    + eapply Forall_impl; [exact H4|]. intros e. apply entry_ok_stable, heap_stable_app.
    + apply Forall_singleton. unfold entry_ok. cbn [fst snd].
      rewrite deref_fresh. split; [rewrite length_app; cbn; lia|]. split; [done|].
      destruct Hp as [Hl|Hl|sc|].
      * left. split; [done|]. by apply (Hlaw (n_gsd_ s) H2).
      * left. split; [done|]. by apply (Hlaw g ltac:(lia)).
      * right. unfold num_thread_siblings.
        rewrite container_nodes_container_node, length_seq. lia.
      * left. split; [done|]. cbn. lia.
Qed.

Lemma wf_add_remote_node K s g :
  wf K s -> g <= max_size K ->
  wf K (with_local_nodes (add_remote_node g (local_nodes_ s)) s).
Proof.
  intros [H1 H2 H3 H4] Hg. split; try done; cbn; [lia|].
  unfold registry_below_max in *. cbn.
  eapply Forall_impl; [exact H3|]. cbn. lia.
Qed.

Lemma wf_increment_n_gsd K s : wf K s -> wf K (increment_n_gsd s).
Proof. intros [H1 H2 H3 H4]. split; try done. cbn. lia. Qed.

(** [add_node] keeps the invariant. *)
Lemma wf_add_node K mid n s s' :
  kernel_bounds K -> local_threads_in_range K -> n < 2 ^ 63 ->
  wf K s -> result_state (add_node K mid n s) = Some s' -> wf K s'.
Proof.
  intros HK Hlaw Hn Hwf.
  apply (add_node_invariant K (wf K)); try done.
  - apply Hwf.
  - intros model s1 g x extra Hs1 Hg Hp.
    eapply wf_register; try done. destruct Hwf. lia.
  - intros s1 g Hs1 Hg. apply wf_add_remote_node; [done|lia].
  - apply wf_increment_n_gsd.
  - intros f l. by apply wf_same.
  - intros s1. by apply wf_same.
Qed.

Lemma wf_init K : 0 <= max_size K -> wf K NodeManager_init.
Proof. intros. split; cbn; try lia. all: apply Forall_nil_2. Qed.

Lemma new_entries_refl s : new_entries s s = [].
Proof. unfold new_entries. by rewrite drop_all. Qed.

Lemma extended_refl s : extended s s.
Proof. split; try done. rewrite new_entries_refl. apply Forall_nil_2. Qed.

Lemma new_entries_snoc s s1 e :
  nodes_ (local_nodes_ s) `prefix_of` nodes_ (local_nodes_ s1) ->
  drop (length (nodes_ (local_nodes_ s))) (nodes_ (local_nodes_ s1) ++ [e])
  = new_entries s s1 ++ [e].
Proof.
  intros [k Hk]. unfold new_entries. rewrite drop_app_le; [done|].
  rewrite Hk, length_app. lia.
Qed.

Lemma extended_register s s1 x extra :
  extended s s1 -> max_gid_ (local_nodes_ s) < gid_ x ->
  extended s (register x extra s1).
Proof.
  intros [] Hg. split; try done; cbn.
  - etrans; [done|]. by apply prefix_app_r.
  - etrans; [done|]. by apply prefix_app_r.
  - unfold new_entries. cbn. rewrite new_entries_snoc by done.
    apply Forall_app. split; [done|]. by apply Forall_singleton.
Qed.

(** [add_node] extends the state. *)
Lemma extended_add_node K mid n s s' :
  kernel_bounds K -> n < 2 ^ 63 -> 0 <= max_gid_ (local_nodes_ s) <= max_size K ->
  result_state (add_node K mid n s) = Some s' -> extended s s'.
Proof.
  intros HK Hn Hm.
  apply (add_node_invariant K (extended s)); try done.
  - intros model s1 g x extra Hs1 Hg Hp. apply extended_register; [done|].
    rewrite (gid_placed_node _ _ _ _ _ _ _ Hp). lia.
  - by intros s1 g [] Hg.
  - by intros s1 [].
  - intros f l _. split; try done. unfold new_entries. cbn. rewrite drop_all.
    apply Forall_nil_2.
  - by intros s1 [].
  - apply extended_refl.
Qed.


(** ** Validity of the thread-local lists *)

Lemma containers_complete_wf K s :
  wf K s -> containers_complete K (heap s) (nodes_ (local_nodes_ s)).
Proof.
  intros [_ _ _ H]. unfold containers_complete.
  eapply Forall_impl; [exact H|]. intros e (_ & _ & [[Hc _]|Hc]) Hpos.
  - unfold num_thread_siblings in Hpos. rewrite Hc in Hpos. cbn in Hpos. lia.
  - lia.
Qed.




Lemma cache_current_rebuilt K s :
  kernel_bounds K -> wf K s -> size s ≠ nodes_vec_network_size_ s ->
  ∃ s', ensure_valid_thread_local_ids K s = Ok tt s'
    ∧ cache_current K s'
    ∧ nodes_vec_ s' =
        (thread_local_nodes (heap s) (nodes_ (local_nodes_ s))
           <$> seqZ 0 (get_num_threads K)).
Proof.
  intros HK Hwf Hsize. pose proof HK as [HT _ _ _ _].
  destruct (ensure_valid_rebuilds K s) as (s' & E & Hnv & Hu & Hl & Hn & _);
    [lia|done|by apply containers_complete_wf|].
  exists s'. split; [done|]. split; [|done]. split.
  - unfold size. by rewrite Hn, Hl.
  - intros t Ht. rewrite Hnv, Hl.
    rewrite (thread_local_nodes_updated (heap s) (heap s')) by done.
    apply list_lookup_total_correct.
    rewrite list_lookup_fmap, lookup_seqZ_lt by lia. cbn. f_equal. f_equal. lia.
Qed.


Lemma round_robin_local_threads n_threads rank n_sim n_rec ms :
  0 < n_threads -> 0 < n_sim -> 0 <= n_rec ->
  local_threads_in_range (round_robin n_threads rank n_sim n_rec ms).
Proof.
  intros HT HS HR g Hg. cbn. split; intros Hl.
  - pose proof (Z.mod_pos_bound g (n_sim * n_threads) ltac:(nia)) as Hb.
    destruct (Z.leb_spec (n_sim * n_threads) (g mod (n_sim * n_threads))); [lia|].
    split; [apply Z.div_pos; lia|apply Z.div_lt_upper_bound; lia].
  - destruct (Z.eq_dec n_rec 0) as [->|Hne].
    + rewrite Z.mul_0_l, Z.mod_0_r in *.
      destruct (Z.leb_spec (n_sim * n_threads) (g + n_sim * n_threads)); [|lia].
      rewrite Z.div_0_r. lia.
    + pose proof (Z.mod_pos_bound g (n_rec * n_threads) ltac:(nia)) as Hb.
      set (v := g mod (n_rec * n_threads)) in *.
      destruct (Z.leb_spec (n_sim * n_threads) (v + n_sim * n_threads)); [|lia].
      apply Z.eqb_eq in Hl.
      replace (v + n_sim * n_threads - n_sim * n_threads) with v in Hl by lia.
      replace (v + n_sim * n_threads + n_sim * (1 - n_threads) - rank)
        with (n_rec * (v / n_rec))
        by (pose proof (Z.div_mod v n_rec Hne); lia).
      rewrite Z.mul_comm, Z.div_mul by done.
      split; [apply Z.div_pos; lia|apply Z.div_lt_upper_bound; lia].
Qed.




(** ** Placement of nodes with proxies *)

Lemma add_node_within_capacity K mid n s model :
  kernel_bounds K -> get_model K mid = Some model -> 1 <= n ->
  0 <= get_max_gid (local_nodes_ s) ->
  get_max_gid (local_nodes_ s) + 1 + n <= max_size K ->
  let first := get_max_gid (local_nodes_ s) + 1 in
  let last := get_max_gid (local_nodes_ s) + n in
  add_node K mid n s =
    match place_nodes K model mid n first (last + 1) (add_range mid first last s) with
    | Ok _ s1 =>
        Ok (GIDCollectionPrimitive first last mid)
          (if is_off_grid model then set_off_grid_communication true s1 else s1)
    | Throw e s1 => Throw e s1
    | Fault f => Fault f
    end.
Proof.
  intros [HT Hrank HS HR Hsize] Hmodel Hn Hmax Hcap first last.
  pose proof (get_model_Some K mid model Hmodel) as Hmid.
  unfold add_node.
  destruct (Z.leb_spec (get_num_node_models K) mid); [lia|].
  destruct (Z.ltb_spec n 1); [lia|].
  destruct (Z.ltb_spec 0 (get_num_threads K)); [|lia]. cbn [negb].
  rewrite Hmodel. unfold get_max_gid in *.
  rewrite (wrap64_small (max_gid_ (local_nodes_ s) + 1)) by lia.
  rewrite (wrap64_small (max_gid_ (local_nodes_ s) + 1 + n)) by lia.
  destruct (Z.ltb_spec (max_size K) (max_gid_ (local_nodes_ s) + 1 + n)); [lia|].
  destruct (Z.ltb_spec (max_gid_ (local_nodes_ s) + 1 + n) (max_gid_ (local_nodes_ s) + 1));
    [lia|]. cbn [orb].
  replace (max_gid_ (local_nodes_ s) + 1 + n - 1) with last by (unfold last; lia).
  replace (max_gid_ (local_nodes_ s) + 1 + n) with (last + 1) by (unfold last; lia).
  reflexivity.
Qed.

Lemma heap_register_proxy_nodes K model mid l s :
  heap (register_proxy_nodes K model mid l s)
  = heap s ++ (proxy_node K model mid <$> l).
Proof.
  revert s. induction l as [|g l IH]; intros s; cbn.
  - by rewrite app_nil_r.
  - unfold register_proxy_nodes in IH. rewrite IH. cbn. by rewrite <- app_assoc.
Qed.

Lemma add_node_places_proxy_nodes K mid n s model :
  kernel_bounds K -> placement_by_rank K ->
  get_model K mid = Some model ->
  potential_global_receiver model && (0 <? get_num_rec_processes K) = false ->
  has_proxies model = true ->
  1 <= n -> 0 <= get_max_gid (local_nodes_ s) ->
  get_max_gid (local_nodes_ s) + 1 + n <= max_size K ->
  let first := get_max_gid (local_nodes_ s) + 1 in
  let last := get_max_gid (local_nodes_ s) + n in
  ∃ s',
    add_node K mid n s = Ok (GIDCollectionPrimitive first last mid) s'
    ∧ heap s' = heap s ++ (proxy_node K model mid <$> local_gids K first (last + 1)).
Proof.
  intros HK Hlaw Hmodel Hgr Hprox Hn Hmax Hcap first last.
  rewrite (add_node_within_capacity K mid n s model) by done.
  fold first last. unfold place_nodes. rewrite Hgr, Hprox.
  destruct (add_proxy_nodes_from_min K HK Hlaw model mid first (last + 1)
              (Z.to_nat n) (add_range mid first last s)) as [v' Hv'];
    [unfold first, last in *; lia..|].
  rewrite Hv'.
  destruct (negb _); (eexists; split; [reflexivity|]);
    destruct (is_off_grid model); cbn; by rewrite heap_register_proxy_nodes.
Qed.

(** ** No operation changes the identity of a node *)

Lemma place_nodes_never_throws K model mid n min_gid max_gid s e s' :
  place_nodes K model mid n min_gid max_gid s ≠ Throw e s'.
Proof.
  unfold place_nodes.
  repeat (match goal with
          | |- context [if ?b then _ else _] => destruct b
          | |- context [match ?o with _ => _ end] => destruct o as [[]|]
          end; try done).
Qed.

Lemma heap_stable_add_node K mid n s s' :
  result_state (add_node K mid n s) = Some s' -> heap_stable (heap s) (heap s').
Proof.
  unfold add_node.
  destruct (_ <=? _); [intros [= <-]; apply heap_stable_refl|].
  destruct (_ <? _); [intros [= <-]; apply heap_stable_refl|].
  destruct (negb _); [done|].
  destruct (get_model K mid) as [model|]; [|done].
  destruct (_ || _); [intros [= <-]; apply heap_stable_refl|].
  destruct (place_nodes _ _ _ _ _ _ _) as [[] s1|e s1|f] eqn:E; [| |done].
  - apply grows_place_nodes, heap_stable_grows in E. cbn in E.
    intros [= <-]. by destruct (is_off_grid model).
  - by apply place_nodes_never_throws in E.
Qed.

Lemma fold_collect_node_None t entries :
  fold_left (collect_node t) entries None = None.
Proof. by induction entries. Qed.

Lemma fold_collect_node_updated t entries : forall h nv wv h' nv' wv',
  fold_left (collect_node t) entries (Some (h, nv, wv)) = Some (h', nv', wv') ->
  heap_updated h h'.
Proof.
  induction entries as [|e entries IH]; intros h nv wv h' nv' wv'; cbn [fold_left].
  - intros [= <- _ _]. apply heap_updated_refl.
  - unfold collect_node at 2.
    destruct (0 <? _).
    + destruct (get_thread_sibling _ _) as [sibling|];
        [|by rewrite fold_collect_node_None].
      intros H%IH. eapply heap_updated_trans; [|exact H].
      apply heap_updated_store. intros. apply same_identity_set_thread_lid.
    + destruct (_ =? _); [|apply IH].
      intros H%IH. eapply heap_updated_trans; [|exact H].
      apply heap_updated_store. intros. apply same_identity_set_thread_lid.
Qed.

Lemma fold_collect_thread_None entries ts :
  fold_left (collect_thread entries) ts None = None.
Proof. by induction ts. Qed.

Lemma fold_collect_thread_updated entries ts : forall h nvs wvs h' nvs' wvs',
  fold_left (collect_thread entries) ts (Some (h, nvs, wvs)) = Some (h', nvs', wvs') ->
  heap_updated h h'.
Proof.
  induction ts as [|t ts IH]; intros h nvs wvs h' nvs' wvs'; cbn [fold_left].
  - intros [= <- _ _]. apply heap_updated_refl.
  - unfold collect_thread at 2.
    destruct (fold_left (collect_node t) entries _) as [[[h1 nv] wv]|] eqn:E;
      [|by rewrite fold_collect_thread_None].
    apply fold_collect_node_updated in E.
    intros H%IH. by eapply heap_updated_trans.
Qed.

Lemma heap_updated_ensure_valid K s s' :
  result_state (ensure_valid_thread_local_ids K s) = Some s' ->
  heap_updated (heap s) (heap s').
Proof.
  unfold ensure_valid_thread_local_ids.
  destruct (_ =? _); [intros [= <-]; apply heap_updated_refl|]. cbn [negb].
  destruct (fold_left _ _ _) as [[[h nvs] wvs]|] eqn:E; [|done].
  apply fold_collect_thread_updated in E. by intros [= <-].
Qed.

Section PrepareStable.
Context (init_buffers_raises calibrate_raises : ptr -> option string).

Lemma heap_updated_prepare_node n h :
  heap_updated h (prepare_node_ init_buffers_raises calibrate_raises n h).2.
Proof.
  unfold prepare_node_, init_buffers, calibrate.
  destruct (init_buffers_raises n); [apply heap_updated_refl|].
  destruct (calibrate_raises n); cbn.
  - apply heap_updated_store. intros. apply same_identity_set_buffers_initialized.
  - eapply heap_updated_trans; apply heap_updated_store; intros.
    + apply same_identity_set_buffers_initialized.
    + apply same_identity_count_calibrate.
Qed.

Lemma heap_updated_prepare_thread its : forall h a w,
  heap_updated h
    (prepare_thread init_buffers_raises calibrate_raises its h a w).1.1.2.
Proof.
  induction its as [|it its IH]; intros h a w; cbn [prepare_thread].
  - apply heap_updated_refl.
  - pose proof (heap_updated_prepare_node it h) as Hn.
    destruct (prepare_node_ _ _ it h) as [[e|] h1]; cbn in Hn; [done|].
    destruct (negb _); (eapply heap_updated_trans; [exact Hn|apply IH]).
Qed.

Lemma heap_updated_prepare_threads nvs ts : forall h a w ex h' a' w' ex',
  prepare_threads init_buffers_raises calibrate_raises ts nvs h a w ex
    = Some (h', a', w', ex') ->
  heap_updated h h'.
Proof.
  induction ts as [|t ts IH]; intros h a w ex h' a' w' ex'; cbn [prepare_threads].
  - intros [= <- _ _ _]. apply heap_updated_refl.
  - destruct (nvs !! Z.to_nat t) as [its|]; [|done].
    pose proof (heap_updated_prepare_thread its h a w) as Ht.
    destruct (prepare_thread _ _ its h a w) as [[[[e|] h1] a1] w1]; cbn in Ht;
      intros H%IH; by eapply heap_updated_trans.
Qed.

Lemma heap_updated_prepare_nodes K s s' :
  result_state (prepare_nodes K init_buffers_raises calibrate_raises s) = Some s' ->
  heap_updated (heap s) (heap s').
Proof.
  unfold prepare_nodes.
  destruct (prepare_threads _ _ _ _ _ _ _ _) as [[[[h a] w] ex]|] eqn:E; [|done].
  apply heap_updated_prepare_threads in E.
  destruct (first_raised ex); by intros [= <-].
Qed.

End PrepareStable.

Lemma same_identity_count_init_state x : same_identity x (count_init_state x).
Proof. by repeat split. Qed.

Lemma heap_updated_reset_one it (h : Heap) :
  heap_updated h
    (store it (set_buffers_initialized false) (Node_init_state it h)).
Proof.
  eapply heap_updated_trans; apply heap_updated_store; intros.
  - apply same_identity_count_init_state.
  - apply same_identity_set_buffers_initialized.
Qed.

Lemma heap_updated_reset_all l : forall h : Heap,
  heap_updated h
    (fold_left
       (λ h it, store it (set_buffers_initialized false) (Node_init_state it h))
       l h).
Proof.
  induction l as [|q l IH]; intros h; cbn [fold_left]; [apply heap_updated_refl|].
  eapply heap_updated_trans; [apply heap_updated_reset_one|apply IH].
Qed.

Lemma heap_updated_reset_node (h : Heap) e : heap_updated h (reset_node h e).
Proof.
  unfold reset_node. destruct (_ =? 0); [apply heap_updated_reset_one|].
  destruct (_ =? -1); [apply heap_updated_reset_all|apply heap_updated_refl].
Qed.

Lemma heap_updated_reset_nodes_state s :
  heap_updated (heap s) (heap (reset_nodes_state s)).
Proof.
  unfold reset_nodes_state. cbn. generalize (heap s).
  induction (nodes_ (local_nodes_ s)) as [|e entries IH]; intros h; cbn [fold_left].
  - apply heap_updated_refl.
  - eapply heap_updated_trans; [apply heap_updated_reset_node|apply IH].
Qed.

Lemma heap_stable_manager_step K s s' :
  manager_step K s s' -> heap_stable (heap s) (heap s').
Proof.
  intros [mid n s0 s1 _ H|g t s0 s1 H|g s0 s1 H|s0 s1 H|ib cr s0 s1 H|s0|s0].
  - by eapply heap_stable_add_node.
  - unfold get_node in H.
    repeat (match type of H with
            | context [if ?b then _ else _] => destruct b
            | context [match ?o with _ => _ end] => destruct o
            end; try done);
      injection H as <-; apply heap_stable_refl.
  - unfold get_thread_siblings in H.
    repeat (match type of H with
            | context [if ?b then _ else _] => destruct b
            | context [match ?o with _ => _ end] => destruct o
            end; try done);
      injection H as <-; apply heap_stable_refl.
  - by eapply heap_updated_stable, heap_updated_ensure_valid.
  - by eapply heap_updated_stable, heap_updated_prepare_nodes.
  - apply heap_updated_stable, heap_updated_reset_nodes_state.
  - apply heap_updated_stable, heap_updated_reset_nodes_state.
Qed.

Lemma heap_stable_manager_steps K s s' :
  rtc (manager_step K) s s' -> heap_stable (heap s) (heap s').
Proof.
  induction 1 as [|s1 s2 s3 H _ IH]; [apply heap_stable_refl|].
  eapply heap_stable_trans; [by eapply heap_stable_manager_step|exact IH].
Qed.

(** ** The invariant holds in every reachable state *)

Lemma wf_heap_updated K s s' :
  heap_updated (heap s) (heap s') ->
  local_nodes_ s' = local_nodes_ s -> n_gsd_ s' = n_gsd_ s ->
  wf K s -> wf K s'.
Proof.
  intros Hu Hl Hn [H1 H2 H3 H4].
  split; unfold registry_below_max in *; rewrite ?Hl, ?Hn; try done.
  eapply Forall_impl; [exact H4|]. intros e.
  by apply entry_ok_stable, heap_updated_stable.
Qed.

Lemma get_node_state g t s s' :
  result_state (get_node g t s) = Some s' -> s' = s.
Proof.
  unfold get_node.
  repeat (match goal with
          | |- context [if ?b then _ else _] => destruct b
          | |- context [match ?o with _ => _ end] => destruct o
          end; try done); by intros [= <-].
Qed.

Lemma get_thread_siblings_state g s s' :
  result_state (get_thread_siblings g s) = Some s' -> s' = s.
Proof.
  unfold get_thread_siblings.
  repeat (match goal with
          | |- context [if ?b then _ else _] => destruct b
          | |- context [match ?o with _ => _ end] => destruct o
          end; try done); by intros [= <-].
Qed.

Lemma wf_manager_step K s s' :
  kernel_bounds K -> local_threads_in_range K ->
  manager_step K s s' -> wf K s -> wf K s'.
Proof.
  intros HK Hlaw [mid n s0 s1 Hn H|g t s0 s1 H|g s0 s1 H|s0 s1 H|ib cr s0 s1 H|s0|s0] Hwf.
  - eapply wf_add_node; try done. lia.
  - by rewrite (get_node_state _ _ _ _ H).
  - by rewrite (get_thread_siblings_state _ _ _ H).
  - pose proof (heap_updated_ensure_valid K s0 s1 H) as Hu.
    eapply wf_heap_updated; try done.
    all: unfold ensure_valid_thread_local_ids in H.
    all: destruct (_ =? _); cbn [negb] in H; [by injection H as <-|].
    all: destruct (fold_left _ _ _) as [[[h nvs] wvs]|]; [|done].
    all: by injection H as <-.
  - pose proof (heap_updated_prepare_nodes ib cr K s0 s1 H) as Hu.
    eapply wf_heap_updated; try done.
    all: unfold prepare_nodes in H.
    all: destruct (prepare_threads _ _ _ _ _ _ _ _) as [[[[h a] w] ex]|]; [|done].
    all: destruct (first_raised ex); by injection H as <-.
  - eapply wf_heap_updated; [apply heap_updated_reset_nodes_state|done|done|done].
  - eapply wf_heap_updated; [apply heap_updated_reset_nodes_state|done|done|done].
Qed.

Lemma wf_manager_steps K s s' :
  kernel_bounds K -> local_threads_in_range K ->
  rtc (manager_step K) s s' -> wf K s -> wf K s'.
Proof.
  intros HK Hlaw. induction 1 as [|s1 s2 s3 H _ IH]; [done|].
  intros Hwf. apply IH. by eapply wf_manager_step.
Qed.

(** Every state the manager reaches from its initial state satisfies the
    invariant. *)
Lemma wf_reachable K s :
  kernel_bounds K -> local_threads_in_range K ->
  rtc (manager_step K) NodeManager_init s -> wf K s.
Proof.
  intros HK Hlaw Hs. eapply wf_manager_steps; try done.
  apply wf_init. apply HK.
Qed.

(** ** No operation changes the placement of a node *)

Lemma placement_kept_refl h : placement_kept h h.
Proof. split; [lia|]. by intros. Qed.

Lemma placement_kept_trans h1 h2 h3 :
  placement_kept h1 h2 -> placement_kept h2 h3 -> placement_kept h1 h3.
Proof.
  intros [L1 H1] [L2 H2]. split; [lia|]. intros p Hp.
  destruct (H1 p Hp) as (A1 & A2 & A3).
  destruct (H2 p ltac:(lia)) as (B1 & B2 & B3).
  unfold same_placement. by rewrite B1, B2, B3.
Qed.

Lemma placement_kept_stable h h' : heap_stable h h' -> placement_kept h h'.
Proof.
  intros [L H]. split; [done|]. intros p Hp.
  by destruct (H p Hp) as (E1 & _ & E3 & E4 & _).
Qed.

(** Storing a node with the placement of the node it replaces. *)
Lemma placement_kept_store p x (h : Heap) :
  same_placement (deref h p) x -> placement_kept h (store p (λ _, x) h).
Proof.
  intros Hx. unfold store. split; [by rewrite length_alter|]. intros q Hq.
  unfold deref in *. destruct (decide (q = p)) as [->|Hne].
  - by rewrite list_lookup_total_alter_eq.
  - by rewrite list_lookup_total_alter_ne.
Qed.

Section StatusPlacement.
Context (Dict : Type).
Context (clear_access_flags : Dict -> Dict).
Context (all_entries_accessed : Dict -> bool).
Context (is_proxy : Node -> bool).
Context (set_status_base : Node -> Dict -> option string * Node * Dict).
Context (clear_flags_default : bool).
Hypothesis set_status_base_placement :
  ∀ x d, same_placement x (set_status_base x d).1.2.

Lemma placement_kept_set_status_single_node target d b (h : Heap) :
  placement_kept h
    (set_status_single_node_ Dict clear_access_flags all_entries_accessed
       is_proxy set_status_base target d b h).1.2.
Proof.
  unfold set_status_single_node_. destruct (negb _); [|apply placement_kept_refl].
  pose proof (set_status_base_placement (deref h target)
                (if b then clear_access_flags d else d)) as Hx.
  destruct (set_status_base _ _) as [[[e|] x] d'];
    [|destruct (all_entries_accessed d')]; by apply placement_kept_store.
Qed.

Lemma placement_kept_set_status_siblings fuel target :
  forall t d (h : Heap) visited r,
  set_status_siblings Dict clear_access_flags all_entries_accessed is_proxy
    set_status_base clear_flags_default fuel target t d h visited = Some r ->
  placement_kept h r.1.1.2.
Proof.
  induction fuel as [|fuel IH]; intros t d h visited r; cbn [set_status_siblings];
    destruct (_ <? _); try done; try (intros [= <-]; apply placement_kept_refl).
  destruct (get_thread_sibling _ _) as [sibling|]; [|done].
  pose proof (placement_kept_set_status_single_node sibling d clear_flags_default h)
    as Hone.
  destruct (set_status_single_node_ _ _ _ _ _ _ _ _ _) as [[[e|] h1] d1].
  - by intros [= <-].
  - intros Hr. eapply placement_kept_trans; [exact Hone|by eapply IH].
Qed.

Lemma placement_kept_set_status fuel gid d s e s' d' visited :
  set_status Dict clear_access_flags all_entries_accessed is_proxy
    set_status_base clear_flags_default fuel gid d s
  = Some (e, s', d', visited) ->
  placement_kept (heap s) (heap s').
Proof.
  unfold set_status. destruct (get_node_by_gid _ _) as [target|].
  2:{ intros [= _ <- _ _]. apply placement_kept_refl. }
  destruct (_ =? 0).
  - pose proof (placement_kept_set_status_single_node target d clear_flags_default
                  (heap s)) as Hone.
    destruct (set_status_single_node_ _ _ _ _ _ _ _ _ _) as [[e1 h1] d1].
    by intros [= _ <- _ _].
  - destruct (set_status_siblings _ _ _ _ _ _ _ _ _ _ _ _) as [[[[e1 h1] d1] v1]|] eqn:E;
      [|done].
    intros [= _ <- _ _]. by apply placement_kept_set_status_siblings in E.
Qed.

End StatusPlacement.

Section RestorePlacement.
Context (K : Kernel) (Dict : Type).
Context (model_name : Dict -> string).
Context (get_model_id : string -> Z).
Context (set_status_base : Node -> Dict -> option exn * Node).
Context (set_status_base_proxy : Z -> Dict -> option exn).
Hypothesis set_status_base_placement :
  ∀ x d, same_placement x (set_status_base x d).2.

Lemma placement_kept_restore_node node_props s s' :
  result_state (restore_node K Dict model_name get_model_id set_status_base
                  set_status_base_proxy node_props s) = Some s' ->
  placement_kept (heap s) (heap s').
Proof.
  unfold restore_node. set (mid := get_model_id (model_name node_props)).
  destruct (add_node K mid 1 s) as [node s1|e s1|f] eqn:E; [| |done].
  2:{ intros [= <-]. apply placement_kept_stable.
      apply (heap_stable_add_node K mid 1 s s1). by rewrite E. }
  assert (H1 : placement_kept (heap s) (heap s1)).
  { apply placement_kept_stable. apply (heap_stable_add_node K mid 1 s s1).
    by rewrite E. }
  destruct (get_node _ 0 s1) as [[p|thr n] s2|e s2|f] eqn:G; [| | |done].
  - assert (s2 = s1) as -> by (apply (get_node_state (first_gid node) 0); by rewrite G).
    pose proof (set_status_base_placement (deref (heap s1) p) node_props) as Hx.
    destruct (set_status_base _ _) as [[e|] x]; intros [= <-]; cbn;
      (eapply placement_kept_trans; [exact H1|by apply placement_kept_store]).
  - assert (s2 = s1) as -> by (apply (get_node_state (first_gid node) 0); by rewrite G).
    by destruct (set_status_base_proxy _ _); intros [= <-].
  - assert (s2 = s1) as -> by (apply (get_node_state (first_gid node) 0); by rewrite G).
    by intros [= <-].
Qed.

Lemma placement_kept_restore_nodes node_list : forall s s',
  result_state (restore_nodes K Dict model_name get_model_id set_status_base
                  set_status_base_proxy node_list s) = Some s' ->
  placement_kept (heap s) (heap s').
Proof.
  induction node_list as [|node_props node_list IH]; intros s s'; cbn [restore_nodes].
  - intros [= <-]. apply placement_kept_refl.
  - pose proof (placement_kept_restore_node node_props s) as Hone.
    destruct (restore_node _ _ _ _ _ _ _ _) as [r s1|e s1|f]; [| |done].
    + specialize (Hone s1 eq_refl). specialize (IH s1).
      destruct (restore_nodes _ _ _ _ _ _ _ _) as [rs s2|e s2|f]; [| |done];
        intros [= <-]; (eapply placement_kept_trans; [exact Hone|by apply IH]).
    + intros [= <-]. by apply Hone.
Qed.

End RestorePlacement.

Lemma placement_kept_manager_operation K s s' :
  manager_operation K s s' -> placement_kept (heap s) (heap s').
Proof.
  intros [s0 s1 H|gn s0 s1 H|s0 s1 H|g s0 s1 H|s0 s1 H|s0 s1 H|at' s0
         |D caf aea ip ssb cfd fuel gid d e s0 s1 d' v Hssb H
         |D mn gmi ssb ssbp nl s0 s1 Hssb H].
  - by apply placement_kept_stable, (heap_stable_manager_step K).
  - unfold initialize in H. destruct (siblingcontainer_model_ K); [|done].
    destruct (negb _); [done|].
    apply placement_kept_stable, heap_updated_stable.
    by apply (heap_updated_ensure_valid K (with_nodes_vec_network_size 0 s0)).
  - unfold finalize, destruct_nodes_ in H.
    destruct (fold_left _ _ _); [|done]. injection H as <-. apply placement_kept_refl.
  - unfold init_state in H.
    destruct (get_node g 0 s0) as [[p|thr n] s2|e s2|f] eqn:G; [| | |done].
    + assert (s2 = s0) as -> by (apply (get_node_state g 0); by rewrite G).
      injection H as <-. apply placement_kept_stable, heap_updated_stable.
      apply heap_updated_store. intros. apply same_identity_count_init_state.
    + assert (s2 = s0) as -> by (apply (get_node_state g 0); by rewrite G).
      injection H as <-. apply placement_kept_refl.
    + assert (s2 = s0) as -> by (apply (get_node_state g 0); by rewrite G).
      injection H as <-. apply placement_kept_refl.
  - unfold post_run_cleanup in H. destruct (call_hooks K s0); [|done].
    injection H as <-. apply placement_kept_refl.
  - unfold finalize_nodes in H. destruct (call_hooks K s0); [|done].
    injection H as <-. apply placement_kept_refl.
  - apply placement_kept_refl.
  - by eapply placement_kept_set_status.
  - by eapply placement_kept_restore_nodes.
Qed.

Lemma placement_kept_manager_operations K s s' :
  rtc (manager_operation K) s s' -> placement_kept (heap s) (heap s').
Proof.
  induction 1 as [|s1 s2 s3 H _ IH]; [apply placement_kept_refl|].
  eapply placement_kept_trans; [by eapply placement_kept_manager_operation|exact IH].
Qed.

(** C3: the nodes [add_node] creates for a model with proxies are those of
    the GIDs of the range the topology places on this process, each on the
    virtual process and the thread the placement function gives for its GID;
    and no operation of the manager changes the GID, the thread or the
    virtual process of a node of the pool, whatever branch created it: not
    [add_node], [restore_nodes], [get_node], [get_thread_siblings],
    [ensure_valid_thread_local_ids], [prepare_nodes], [reset_nodes_state],
    [reinit_nodes], [init_state], [set_status], [initialize],
    [post_run_cleanup], [finalize_nodes], [check_wfr_use] or [finalize], as
    long as [Node::set_status_base], whose result [set_status] and
    [restore_nodes] leave in the node, does not change them itself. *)
Theorem placement_fixed_at_allocation K :
  (kernel_bounds K -> placement_by_rank K ->
   ∀ mid n s model,
     get_model K mid = Some model ->
     potential_global_receiver model && (0 <? get_num_rec_processes K) = false ->
     has_proxies model = true ->
     1 <= n -> 0 <= get_max_gid (local_nodes_ s) ->
     get_max_gid (local_nodes_ s) + 1 + n <= max_size K ->
     let first := get_max_gid (local_nodes_ s) + 1 in
     let last := get_max_gid (local_nodes_ s) + n in
     ∃ s',
       add_node K mid n s = Ok (GIDCollectionPrimitive first last mid) s'
       ∧ (length (heap s) <= length (heap s'))%nat
       ∧ ∀ p, (length (heap s) <= p < length (heap s'))%nat ->
           first <= gid_ (deref (heap s') p) <= last
           ∧ is_local_gid K (gid_ (deref (heap s') p)) = true
           ∧ vp_ (deref (heap s') p) = suggest_vp K (gid_ (deref (heap s') p))
           ∧ thread_ (deref (heap s') p)
             = vp_to_thread K (suggest_vp K (gid_ (deref (heap s') p))))
  ∧ (∀ s s', rtc (manager_operation K) s s' ->
       ∀ p, (p < length (heap s))%nat ->
         (p < length (heap s'))%nat
         ∧ gid_ (deref (heap s') p) = gid_ (deref (heap s) p)
         ∧ vp_ (deref (heap s') p) = vp_ (deref (heap s) p)
         ∧ thread_ (deref (heap s') p) = thread_ (deref (heap s) p)).
Proof.
  split.
  - intros HK Hlaw mid n s model Hmodel Hgr Hprox Hn Hmax Hcap first last.
    destruct (add_node_places_proxy_nodes K mid n s model) as (s' & E & Hh);
      try done.
    fold first last in E, Hh. exists s'. split; [done|]. rewrite Hh, length_app.
    split; [lia|]. intros p Hp. rewrite length_fmap in Hp.
    unfold deref. rewrite lookup_total_app_r by lia.
    destruct (lookup_lt_is_Some_2 (local_gids K first (last + 1))
                (p - length (heap s))) as [g Hg]; [lia|].
    rewrite (list_lookup_total_correct _ _ (proxy_node K model mid g))
      by (by rewrite list_lookup_fmap, Hg).
    apply list_elem_of_lookup_2 in Hg.
    pose proof (local_gids_bounds K first (last + 1)) as Hb.
    rewrite Forall_forall in Hb. destruct (Hb g Hg) as [Hrange Hl].
    cbn. split; [lia|done].
  - intros s s' Hsteps p Hp.
    destruct (placement_kept_manager_operations K s s' Hsteps) as [Hlen Hst].
    destruct (Hst p Hp) as (E1 & E2 & E3). split; [lia|done].
Qed.

Lemma placement_fixed_at_allocation_witness :
  ∃ s' s'',
    add_node (two_by_two 1) 1 5 NodeManager_init
      = Ok (GIDCollectionPrimitive 1 5 1) s'
    ∧ (vp_ (deref (heap s') 1) = 3 ∧ thread_ (deref (heap s') 1) = 1)
    ∧ set_status unit id (λ _, true) (λ _, false)
        (λ x d, (None, count_calibrate x, d)) true 2 3 tt (reset_nodes_state s')
      = Some (None, s'', tt, [1%nat])
    ∧ (vp_ (deref (heap s'') 1) = 3 ∧ thread_ (deref (heap s'') 1) = 1).
Proof.
  destruct (placement_fixed_at_allocation (two_by_two 1)) as [Hplace Hfixed].
  destruct (Hplace (two_by_two_bounds 1 ltac:(lia))
              (round_robin_placement_by_rank 2 1 2 0 example_models
                 ltac:(lia) ltac:(lia))
              1 5 NodeManager_init neuron)
    as (s' & E & Hlen & Hnew).
  - reflexivity.
  - reflexivity.
  - reflexivity.
  - lia.
  - vm_compute. discriminate.
  - vm_compute. discriminate.
  - vm_compute (get_max_gid _) in E.
    assert (E' : add_node (two_by_two 1) 1 5 NodeManager_init
                 = Ok (GIDCollectionPrimitive 1 5 1) (five_neurons 1))
      by (vm_compute; reflexivity).
    rewrite E' in E. injection E as <-.
    destruct (Hnew 1%nat) as (_ & _ & Hvp & Hthread); [vm_compute; lia|].
    set (s2 := with_heap
                 (store 1 (λ _, count_calibrate
                                  (deref (heap (reset_nodes_state (five_neurons 1))) 1))
                    (heap (reset_nodes_state (five_neurons 1))))
                 (reset_nodes_state (five_neurons 1))).
    assert (E2 : set_status unit id (λ _, true) (λ _, false)
                   (λ x d, (None, count_calibrate x, d)) true 2 3 tt
                   (reset_nodes_state (five_neurons 1))
                 = Some (None, s2, tt, [1%nat]))
      by (vm_compute; reflexivity).
    assert (Hsteps : rtc (manager_operation (two_by_two 1)) (five_neurons 1) s2).
    { eapply rtc_l; [apply op_step, step_reset_nodes_state|].
      apply rtc_once. eapply op_set_status; [|exact E2].
      intros x d. by repeat split. }
    destruct (Hfixed (five_neurons 1) s2 Hsteps 1%nat)
      as (_ & _ & Hvp' & Hthread'); [vm_compute; lia|].
    exists (five_neurons 1), s2. split; [exact E'|].
    split; [split; vm_compute; reflexivity|]. split; [exact E2|].
    rewrite Hvp', Hthread', Hvp, Hthread.
    split; vm_compute; reflexivity.
Defined.

(** C3, as stated for every branch, fails: the replicas of a device are put
    on every thread, not on the thread the placement function gives for
    their GID. With two threads on one process the device gets GID 1, which
    the topology places on virtual process 1 and thread 1; its replica for
    thread 0 has virtual process 0 and thread 0. *)
Lemma device_replica_not_at_placement :
  ∃ s' p,
    add_node one_by_two 2 1 NodeManager_init = Ok (GIDCollectionPrimitive 1 1 2) s'
    ∧ (p < length (heap s'))%nat
    ∧ gid_ (deref (heap s') p) = 1
    ∧ suggest_vp one_by_two 1 = 1
    ∧ vp_to_thread one_by_two (suggest_vp one_by_two 1) = 1
    ∧ vp_ (deref (heap s') p) = 0
    ∧ thread_ (deref (heap s') p) = 0
    ∧ ¬ (thread_ (deref (heap s') p)
           = vp_to_thread one_by_two (suggest_vp one_by_two (gid_ (deref (heap s') p)))
         ∧ vp_ (deref (heap s') p)
           = suggest_vp one_by_two (gid_ (deref (heap s') p))).
Proof.
  eexists _, 1%nat.
  split; [vm_compute; reflexivity|].
  split; [vm_compute; lia|].
  do 5 (split; [vm_compute; reflexivity|]).
  vm_compute. intros [H _]. discriminate H.
Qed.

(** The proviso on [Node::set_status_base] is needed: [set_status] leaves in
    the pool the node as that call hands it back, whatever it is. Here the
    node of GID 3, on thread 1 and virtual process 3, comes back on thread 7
    and virtual process 9. *)
Lemma set_status_stores_result :
  ∃ s',
    set_status unit id (λ _, true) (λ _, false)
      (λ x d, (None, set_vp 9 (set_thread 7 x), d)) true 2 3 tt (five_neurons 1)
    = Some (None, s', tt, [1%nat])
    ∧ thread_ (deref (heap (five_neurons 1)) 1) = 1
    ∧ vp_ (deref (heap (five_neurons 1)) 1) = 3
    ∧ thread_ (deref (heap s') 1) = 7
    ∧ vp_ (deref (heap s') 1) = 9.
Proof.
  eexists. split; [vm_compute; reflexivity|].
  repeat split; vm_compute; reflexivity.
Qed.


(** ** The prepare pass *)

Lemma deref_store_eq p f (h : Heap) :
  (p < length h)%nat -> deref (store p f h) p = f (deref h p).
Proof. intros. unfold deref, store. by rewrite list_lookup_total_alter_eq. Qed.

Lemma deref_store_ne p q f (h : Heap) :
  p ≠ q -> deref (store p f h) q = deref h q.
Proof. intros. unfold deref, store. by rewrite list_lookup_total_alter_ne. Qed.

Lemma length_store p f (h : Heap) : length (store p f h) = length h.
Proof. unfold store. apply length_alter. Qed.

Lemma pass_effect_refl p h : pass_effect [] p h h.
Proof.
  split; [done|]. intros q _. split; [|done]. by intros ?%elem_of_nil.
Qed.

Lemma pass_effect_app ps1 ps2 p h h1 h2 :
  (forall q, q ∈ ps1 -> q ∉ ps2) ->
  pass_effect ps1 p h h1 -> pass_effect ps2 p h1 h2 ->
  pass_effect (ps1 ++ ps2) p h h2.
Proof.
  intros Hdisj [L1 H1] [L2 H2]. split; [congruence|]. intros q Hq.
  destruct (H1 q Hq) as [H1a H1b], (H2 q Hq) as [H2a H2b]. split.
  - intros [Hin|Hin]%elem_of_app.
    + specialize (H1a Hin) as [Ha Hb]. unfold prepared.
      rewrite (H2b (Hdisj q Hin)). done.
    + assert (q ∉ ps1) as Hn by (intros Hin1; by apply (Hdisj q Hin1)).
      specialize (H2a Hin) as [Ha Hb]. unfold prepared. by rewrite <- (H1b Hn).
  - intros Hn. rewrite elem_of_app in Hn.
    rewrite H2b, H1b; [done|tauto|tauto].
Qed.

Section PreparePass.
Context (init_buffers_raises calibrate_raises : ptr -> option string).
Context (p : ptr) (msg : string).
Context (Hothers : forall q, q ≠ p ->
  init_buffers_raises q = None ∧ calibrate_raises q = None).
Context (Hfails : preparation_raises init_buffers_raises calibrate_raises p = Some msg).

Lemma prepare_node_ok q (h : Heap) :
  q ≠ p -> (q < length h)%nat ->
  ∃ h', prepare_node_ init_buffers_raises calibrate_raises q h = (None, h')
    ∧ pass_effect [q] p h h'
    ∧ frozen_ (deref h' q) = frozen_ (deref h q)
    ∧ uses_wfr_ (deref h' q) = uses_wfr_ (deref h q).
Proof.
  intros Hq Hv. destruct (Hothers q Hq) as [Hi Hc].
  unfold prepare_node_, init_buffers, calibrate. rewrite Hi, Hc.
  eexists. split; [done|]. split; [split|].
  - by rewrite !length_store.
  - intros r _. split.
    + intros ->%list_elem_of_singleton. unfold prepared.
      rewrite !deref_store_eq by (rewrite ?length_store; done). done.
    + intros Hr%not_elem_of_cons. rewrite !deref_store_ne by (intros ->; tauto). done.
  - rewrite !deref_store_eq by (rewrite ?length_store; done). done.
Qed.

Lemma prepare_node_fails (h : Heap) :
  ∃ h', prepare_node_ init_buffers_raises calibrate_raises p h = (Some msg, h')
    ∧ pass_effect [] p h h'.
Proof.
  unfold prepare_node_, init_buffers, calibrate.
  unfold preparation_raises in Hfails.
  destruct (init_buffers_raises p) as [e|].
  - injection Hfails as ->. eexists. split; [done|apply pass_effect_refl].
  - rewrite Hfails. eexists. split; [done|]. split; [by rewrite length_store|].
    intros q Hq. split; [by intros ?%elem_of_nil|].
    intros _. by rewrite deref_store_ne.
Qed.

Lemma prepare_thread_ok its : forall (h : Heap) a w,
  p ∉ its -> NoDup its -> Forall (λ q, (q < length h)%nat) its ->
  ∃ h' a' w',
    prepare_thread init_buffers_raises calibrate_raises its h a w
      = (None, h', a', w')
    ∧ pass_effect its p h h'.
Proof.
  induction its as [|it its IH]; intros h a w Hp Hnd Hv; cbn [prepare_thread].
  - eexists _, _, _. split; [done|apply pass_effect_refl].
  - apply not_elem_of_cons in Hp as [Hne Hp]. apply NoDup_cons in Hnd as [Hit Hnd].
    apply Forall_cons in Hv as [Hv1 Hv].
    destruct (prepare_node_ok it h) as (h1 & -> & He & _); [done|done|].
    assert (Hv' : Forall (λ q, (q < length h1)%nat) its).
    { destruct He as [-> _]. done. }
    set (a1 := if negb (frozen_ (deref h1 it)) then a + 1 else a).
    set (w1 := if negb (frozen_ (deref h1 it))
               then (if uses_wfr_ (deref h1 it) then w + 1 else w) else w).
    destruct (IH h1 a1 w1 Hp Hnd Hv') as (h' & a' & w' & E & He').
    exists h', a', w'. split.
    + unfold a1, w1 in E. by destruct (negb _).
    + apply (pass_effect_app [it] its p h h1 h'); [|done|done].
      by intros q ->%list_elem_of_singleton.
Qed.

Lemma prepare_thread_fails pre post : forall (h : Heap) a w,
  p ∉ pre -> NoDup pre -> Forall (λ q, (q < length h)%nat) pre ->
  ∃ h' a' w',
    prepare_thread init_buffers_raises calibrate_raises (pre ++ p :: post) h a w
      = (Some msg, h', a', w')
    ∧ pass_effect pre p h h'.
Proof.
  induction pre as [|it pre IH]; intros h a w Hp Hnd Hv; cbn [prepare_thread app].
  - destruct (prepare_node_fails h) as (h' & -> & He). by eexists _, _, _.
  - apply not_elem_of_cons in Hp as [Hne Hp]. apply NoDup_cons in Hnd as [Hit Hnd].
    apply Forall_cons in Hv as [Hv1 Hv].
    destruct (prepare_node_ok it h) as (h1 & -> & He & _); [done|done|].
    assert (Hv' : Forall (λ q, (q < length h1)%nat) pre).
    { destruct He as [-> _]. done. }
    set (a1 := if negb (frozen_ (deref h1 it)) then a + 1 else a).
    set (w1 := if negb (frozen_ (deref h1 it))
               then (if uses_wfr_ (deref h1 it) then w + 1 else w) else w).
    destruct (IH h1 a1 w1 Hp Hnd Hv') as (h' & a' & w' & E & He').
    exists h', a', w'. split.
    + unfold a1, w1 in E. by destruct (negb _).
    + apply (pass_effect_app [it] pre p h h1 h'); [|done|done].
      by intros q ->%list_elem_of_singleton.
Qed.

Lemma prepare_threads_app nvs ts1 ts2 : forall h a w ex,
  prepare_threads init_buffers_raises calibrate_raises (ts1 ++ ts2) nvs h a w ex
  = match prepare_threads init_buffers_raises calibrate_raises ts1 nvs h a w ex with
    | Some (h1, a1, w1, ex1) =>
        prepare_threads init_buffers_raises calibrate_raises ts2 nvs h1 a1 w1 ex1
    | None => None
    end.
Proof.
  induction ts1 as [|t ts1 IH]; intros h a w ex; cbn [prepare_threads app]; [done|].
  destruct (nvs !! Z.to_nat t) as [its|]; [|done].
  destruct (prepare_thread _ _ its h a w) as [[[[e|] h1] a1] w1]; apply IH.
Qed.

(** The threads whose lists hold no failing node. *)
Lemma prepare_threads_ok nvs lists : forall (before : list (list ptr)) (h : Heap) a w ex,
  (forall i its, lists !! i = Some its -> nvs !! (length before + i)%nat = Some its) ->
  p ∉ concat lists -> NoDup (concat lists) ->
  Forall (λ q, (q < length h)%nat) (concat lists) ->
  ∃ h' a' w',
    prepare_threads init_buffers_raises calibrate_raises
      (seqZ (Z.of_nat (length before)) (Z.of_nat (length lists))) nvs h a w ex
    = Some (h', a', w', ex)
    ∧ pass_effect (concat lists) p h h'.
Proof.
  induction lists as [|its lists IH]; intros before h a w ex Hnvs Hp Hnd Hv.
  - cbn. eexists _, _, _. split; [done|apply pass_effect_refl].
  - rewrite seqZ_cons by (cbn; lia). cbn [prepare_threads].
    rewrite Nat2Z.id. rewrite <- (Nat.add_0_r (length before)).
    rewrite (Hnvs 0%nat its eq_refl).
    cbn [concat] in *. apply not_elem_of_app in Hp as [Hp1 Hp2].
    apply NoDup_app in Hnd as (Hnd1 & Hdisj & Hnd2).
    apply Forall_app in Hv as [Hv1 Hv2].
    destruct (prepare_thread_ok its h a w Hp1 Hnd1 Hv1) as (h1 & a1 & w1 & -> & He).
    assert (Hv2' : Forall (λ q, (q < length h1)%nat) (concat lists)).
    { destruct He as [-> _]. done. }
    destruct (IH (before ++ [its]) h1 a1 w1 ex) as (h' & a' & w' & E & He');
      [|done|done|done|].
    { intros i its' Hi. rewrite length_app. cbn.
      replace (length before + 1 + i)%nat with (length before + S i)%nat by lia.
      by apply Hnvs. }
    rewrite length_app in E. cbn [length] in E.
    replace (Z.succ (Z.of_nat (length before + 0)))
      with (Z.of_nat (length before + 1)) by lia.
    replace (Z.pred (Z.of_nat (length (its :: lists))))
      with (Z.of_nat (length lists)) by (cbn [length]; lia).
    rewrite E. exists h', a', w'. split; [done|].
    by apply (pass_effect_app its (concat lists) p h h1 h').
Qed.

End PreparePass.

Lemma first_raised_insert (t n : nat) e :
  (t < n)%nat -> first_raised (<[t := Some e]> (replicate n None)) = Some e.
Proof.
  revert n. induction t as [|t IH]; intros [|n] Ht; try lia; cbn; [done|].
  apply IH. lia.
Qed.

(** C4: when the preparation of exactly one node raises, [prepare_nodes]
    throws one [WrappedThreadException] that carries the message, after the
    loops of all threads have run: every node on the list of another thread,
    and every node that precedes the failing one on the list of its own
    thread, has been prepared. The nodes that follow the failing one on that
    list are not touched: the exception leaves the loop of that thread. *)
Theorem prepare_nodes_one_failure K init_buffers_raises calibrate_raises s
    before pre p post after msg :
  nodes_vec_ s = before ++ (pre ++ p :: post) :: after ->
  Z.of_nat (length (nodes_vec_ s)) = get_num_threads K ->
  NoDup (concat (nodes_vec_ s)) ->
  Forall (λ q, (q < length (heap s))%nat) (concat (nodes_vec_ s)) ->
  (∀ q, q ≠ p -> init_buffers_raises q = None ∧ calibrate_raises q = None) ->
  preparation_raises init_buffers_raises calibrate_raises p = Some msg ->
  ∃ s',
    prepare_nodes K init_buffers_raises calibrate_raises s
      = Throw (WrappedThreadException msg) s'
    ∧ (∀ q, q ∈ concat before ++ pre ++ concat after ->
            prepared (heap s) (heap s') q)
    ∧ (∀ q, q ∈ post -> deref (heap s') q = deref (heap s) q)
    ∧ local_nodes_ s' = local_nodes_ s
    ∧ nodes_vec_ s' = nodes_vec_ s
    ∧ num_active_nodes_ s' = num_active_nodes_ s.
Proof.
  intros Hnvs HT Hnd Hv Hothers Hfails.
  rewrite Hnvs in Hnd, Hv. rewrite concat_app in Hnd, Hv. cbn [concat] in Hnd, Hv.
  apply NoDup_app in Hnd as (Hnd1 & Hd1 & Hnd).
  apply NoDup_app in Hnd as (Hnd2 & Hd2 & Hnd3).
  apply NoDup_app in Hnd2 as (Hndpre & Hdpre & Hndpost).
  apply NoDup_cons in Hndpost as [Hppost Hndpost].
  apply Forall_app in Hv as [Hv1 Hv]. apply Forall_app in Hv as [Hv2 Hv3].
  apply Forall_app in Hv2 as [Hvpre Hvpost].
  assert (Hp1 : p ∉ concat before).
  { intros Hin. apply (Hd1 p Hin). apply elem_of_app. left. apply elem_of_app.
    right. apply list_elem_of_here. }
  assert (Hp2 : p ∉ pre).
  { intros Hin. apply (Hdpre p Hin). apply list_elem_of_here. }
  assert (Hp3 : p ∉ concat after).
  { apply Hd2. apply elem_of_app. right. apply list_elem_of_here. }
  unfold prepare_nodes. rewrite <- HT, Nat2Z.id, Hnvs.
  rewrite length_app. cbn [length].
  replace (Z.of_nat (length before + S (length after)))
    with (Z.of_nat (length before) + (1 + Z.of_nat (length after))) by lia.
  rewrite seqZ_app by lia. rewrite prepare_threads_app.
  set (nvs := before ++ (pre ++ p :: post) :: after).
  destruct (prepare_threads_ok init_buffers_raises calibrate_raises p Hothers nvs
              before [] (heap s) 0 0
              (replicate (length before + S (length after)) None))
    as (h1 & a1 & w1 & E1 & He1); try done.
  { intros i its Hi. cbn. unfold nvs. by apply lookup_app_l_Some. }
  cbn [length] in E1. rewrite Nat2Z.inj_0 in E1. rewrite E1. clear E1.
  rewrite seqZ_cons by lia. cbn [prepare_threads].
  rewrite Z.add_0_l, Nat2Z.id.
  assert (Hlook : nvs !! length before = Some (pre ++ p :: post))
    by (unfold nvs; apply list_lookup_middle; done).
  rewrite Hlook.
  destruct (prepare_thread_fails init_buffers_raises calibrate_raises p msg Hothers
              Hfails pre post h1 a1 w1) as (h2 & a2 & w2 & -> & He2); try done.
  { destruct He1 as [-> _]. done. }
  destruct (prepare_threads_ok init_buffers_raises calibrate_raises p Hothers nvs
              after (before ++ [pre ++ p :: post]) h2 a2 w2
              (<[length before := Some msg]>
                 (replicate (length before + S (length after)) None)))
    as (h3 & a3 & w3 & E3 & He3); try done.
  { intros i its Hi. unfold nvs. rewrite length_app. cbn [length].
    rewrite (cons_middle _ before), app_assoc.
    rewrite lookup_app_r by (rewrite length_app; cbn; lia).
    rewrite length_app. cbn [length].
    by replace (length before + 1 + i - (length before + 1))%nat with i by lia. }
  { destruct He2 as [-> _], He1 as [-> _]. done. }
  rewrite length_app in E3. cbn [length] in E3.
  replace (Z.succ (Z.of_nat (length before))) with (Z.of_nat (length before + 1)) by lia.
  replace (Z.pred (1 + Z.of_nat (length after))) with (Z.of_nat (length after)) by lia.
  rewrite E3. rewrite first_raised_insert by lia.
  eexists. split; [reflexivity|]. cbn.
  assert (He : pass_effect (concat before ++ pre ++ concat after) p (heap s) h3).
  { apply (pass_effect_app _ _ p _ h1); [|done|].
    - intros q Hq [Hin|Hin]%elem_of_app.
      + apply (Hd1 q Hq). apply elem_of_app. left. apply elem_of_app. by left.
      + apply (Hd1 q Hq). apply elem_of_app. by right.
    - apply (pass_effect_app _ _ p _ h2); [|done|done].
      intros q Hq. apply Hd2. apply elem_of_app. by left. }
  destruct He as [_ He]. split; [|split; [|done]].
  - intros q Hq. apply He; [|done]. intros ->.
    apply elem_of_app in Hq as [Hq|Hq]; [done|].
    apply elem_of_app in Hq as [Hq|Hq]; done.
  - intros q Hq. apply He.
    + by intros ->.
    + intros Hin. apply elem_of_app in Hin as [Hin|Hin].
      * apply (Hd1 q Hin). apply elem_of_app. left. apply elem_of_app. right.
        by apply list_elem_of_further.
      * apply elem_of_app in Hin as [Hin|Hin].
        -- apply (Hdpre q Hin). by apply list_elem_of_further.
        -- revert Hin. apply Hd2. apply elem_of_app. right.
           by apply list_elem_of_further.
Qed.

Lemma calibrate_fails_at_0_others q :
  q ≠ 0%nat -> (λ _ : ptr, @None string) q = None ∧ calibrate_fails_at_0 q = None.
Proof. intros Hq. split; [done|]. by destruct q. Qed.

Lemma prepare_nodes_one_failure_witness :
  ∃ s',
    prepare_nodes (two_by_two 1) (λ _, None) calibrate_fails_at_0 five_neurons_listed
      = Throw (WrappedThreadException "calibration failed") s'
    ∧ prepared (heap five_neurons_listed) (heap s') 1
    ∧ deref (heap s') 2 = deref (heap five_neurons_listed) 2.
Proof.
  destruct (prepare_nodes_one_failure (two_by_two 1) (λ _, None) calibrate_fails_at_0
              five_neurons_listed [] [] 0%nat [2%nat] [[1%nat]] "calibration failed")
    as (s' & E & Hprepared & Hskipped & _).
  - vm_compute. reflexivity.
  - vm_compute. reflexivity.
  - vm_compute (concat _). apply (bool_decide_unpack _). vm_compute. exact I.
  - vm_compute (concat _). vm_compute (length _).
    repeat (apply Forall_cons; split; [lia|]). apply Forall_nil_2.
  - apply calibrate_fails_at_0_others.
  - reflexivity.
  - exists s'. split; [exact E|]. split.
    + apply Hprepared. cbn. apply list_elem_of_here.
    + apply Hskipped. apply list_elem_of_here.
Defined.

(** C4, as stated, fails for the nodes that share the list of the failing
    node and come after it: on process 1 of the scenario thread 0 owns the
    nodes at addresses 0 and 2 and thread 1 the node at address 1; when the
    calibration of node 0 fails, node 1 is prepared and node 2 is not. *)
Lemma node_after_failing_node_not_prepared :
  ∃ s',
    nodes_vec_ five_neurons_listed = [[0; 2]; [1]]%nat
    ∧ (∀ q, q ≠ 0%nat -> calibrate_fails_at_0 q = None)
    ∧ prepare_nodes (two_by_two 1) (λ _, None) calibrate_fails_at_0 five_neurons_listed
      = Throw (WrappedThreadException "calibration failed") s'
    ∧ prepared (heap five_neurons_listed) (heap s') 1
    ∧ buffers_initialized_ (deref (heap s') 2) = false
    ∧ n_calibrated_ (deref (heap s') 2) = 0%nat
    ∧ ¬ prepared (heap five_neurons_listed) (heap s') 2.
Proof.
  eexists.
  split; [vm_compute; reflexivity|].
  split; [intros q Hq; by destruct q|].
  split; [vm_compute; reflexivity|].
  split; [split; vm_compute; reflexivity|].
  split; [vm_compute; reflexivity|].
  split; [vm_compute; reflexivity|].
  intros [H _]. vm_compute in H. discriminate H.
Qed.


(** ** The threads' lists partition the nodes of the registry *)

Lemma concat_fmap_app_perm {A B} (a b : A -> list B) (l : list A) :
  concat ((λ x, a x ++ b x) <$> l) ≡ₚ concat (a <$> l) ++ concat (b <$> l).
Proof.
  induction l as [|x l IH]; cbn; [done|].
  rewrite IH, <- !app_assoc. f_equiv.
  rewrite !app_assoc. f_equiv. apply Permutation_app_comm.
Qed.

Lemma submseteq_NoDup {A} (l k : list A) : l ⊆+ k -> NoDup k -> NoDup l.
Proof.
  intros (l' & Hsub & Hperm)%submseteq_sublist_l Hk.
  eapply sublist_NoDup; [|exact Hsub]. by rewrite Hperm.
Qed.

Lemma submseteq_Forall {A} (P : A -> Prop) (l k : list A) :
  l ⊆+ k -> Forall P k -> Forall P l.
Proof.
  intros Hsub Hk. apply Forall_forall. intros x Hx.
  rewrite Forall_forall in Hk. apply Hk. by eapply elem_of_submseteq.
Qed.

Lemma siblings_of_threads (sibs : list ptr) (k : nat) :
  (k <= length sibs)%nat ->
  concat ((λ t, match (if t <? 0 then None else sibs !! Z.to_nat t) with
                | Some sibling => [sibling]
                | None => []
                end) <$> seqZ 0 (Z.of_nat k))
  = take k sibs.
Proof.
  induction k as [|k IH]; intros Hk.
  - by rewrite seqZ_nil by lia.
  - rewrite seqZ_S, fmap_app, concat_app, IH by lia. cbn [fmap list_fmap concat].
    destruct (Z.ltb_spec (0 + Z.of_nat k) 0); [lia|].
    replace (Z.to_nat (0 + Z.of_nat k)) with k by lia.
    destruct (lookup_lt_is_Some_2 sibs k ltac:(lia)) as [x Hx].
    rewrite Hx, (take_S_r _ _ _ Hx). by rewrite app_nil_r.
Qed.

Lemma node_of_thread (x : ptr) (c : Z) (ts : list Z) :
  NoDup ts ->
  concat ((λ t, if c =? t then [x] else []) <$> ts) `sublist_of` [x].
Proof.
  induction 1 as [|t ts Ht Hnd IH]; cbn; [apply sublist_nil_l|].
  destruct (Z.eqb_spec c t) as [->|Hne]; [|exact IH].
  assert (E : concat ((λ t', if t =? t' then [x] else []) <$> ts) = []).
  { clear -Ht. induction ts as [|t' ts IH]; cbn; [done|].
    apply not_elem_of_cons in Ht as [Hne Ht].
    destruct (Z.eqb_spec t t'); [done|]. by apply IH. }
  by rewrite E.
Qed.

Lemma thread_local_node_owned K h e :
  0 <= get_num_threads K -> entry_ok K h e ->
  concat ((λ t, thread_local_node h t e) <$> seqZ 0 (get_num_threads K))
    ⊆+ entry_nodes h e.
Proof.
  intros HT (_ & _ & [[Hc Ht]|Hc]); unfold thread_local_node, entry_nodes,
    num_thread_siblings, get_thread_sibling in *.
  - rewrite Hc. cbn [length]. change (0 <? Z.of_nat 0) with false. cbn match.
    apply sublist_submseteq. apply node_of_thread, NoDup_seqZ.
  - destruct (Z.ltb_spec 0 (Z.of_nat (length (container_nodes_ (deref h e.1)))))
      as [Hpos|Hzero].
    + rewrite <- Hc, siblings_of_threads, take_ge by lia.
      apply sublist_submseteq, sublist_cons_r. by left.
    + assert (get_num_threads K = 0) as -> by lia. rewrite seqZ_nil by lia.
      apply sublist_submseteq, sublist_nil_l.
Qed.

Lemma thread_lists_owned K h entries :
  0 <= get_num_threads K -> Forall (entry_ok K h) entries ->
  concat (thread_local_nodes h entries <$> seqZ 0 (get_num_threads K))
    ⊆+ owned_nodes h entries.
Proof.
  intros HT. induction 1 as [|e entries He _ IH]; unfold thread_local_nodes,
    owned_nodes in *; cbn [fmap list_fmap concat].
  - induction (seqZ 0 (get_num_threads K)); cbn; [done|]. assumption.
  - rewrite (concat_fmap_app_perm (λ t, thread_local_node h t e)
               (λ t, concat (thread_local_node h t <$> entries))).
    apply submseteq_app; [by apply (thread_local_node_owned K)|exact IH].
Qed.

Lemma thread_lists_disjoint K h entries :
  0 <= get_num_threads K -> Forall (entry_ok K h) entries ->
  NoDup (owned_nodes h entries) ->
  Forall (λ q, (q < length h)%nat) (owned_nodes h entries) ->
  NoDup (concat (thread_local_nodes h entries <$> seqZ 0 (get_num_threads K)))
  ∧ Forall (λ q, (q < length h)%nat)
      (concat (thread_local_nodes h entries <$> seqZ 0 (get_num_threads K))).
Proof.
  intros HT He Hnd Hv. pose proof (thread_lists_owned K h entries HT He) as Hsub.
  split; [by eapply submseteq_NoDup|by eapply submseteq_Forall].
Qed.

Lemma owned_nodes_heap_app (h k : Heap) entries :
  Forall (λ e : ptr * Z, (e.1 < length h)%nat) entries ->
  owned_nodes (h ++ k) entries = owned_nodes h entries.
Proof.
  intros H. unfold owned_nodes. f_equal. apply Forall_fmap_ext_1.
  eapply Forall_impl; [exact H|]. intros e He. unfold entry_nodes.
  by rewrite deref_app_l.
Qed.

Lemma owned_nodes_updated h h' entries :
  heap_updated h h' -> owned_nodes h' entries = owned_nodes h entries.
Proof.
  intros [_ H]. unfold owned_nodes. f_equal. apply list_fmap_ext.
  intros _ e _. unfold entry_nodes.
  by destruct (H e.1) as (_ & _ & _ & _ & _ & _ & _ & _ & ->).
Qed.

Lemma entries_valid_owned (h : Heap) entries :
  Forall (λ q, (q < length h)%nat) (owned_nodes h entries) ->
  Forall (λ e : ptr * Z, (e.1 < length h)%nat) entries.
Proof.
  unfold owned_nodes. induction entries as [|e entries IH]; cbn; [done|].
  intros [He Hrest]%Forall_cons. apply Forall_app in Hrest as [_ Hrest].
  apply Forall_cons. split; [done|by apply IH].
Qed.

Lemma container_nodes_placed_node K model mid s g x extra :
  placed_node K model mid s g x extra ->
  container_nodes_ x = seq (S (length (heap s))) (length extra).
Proof.
  intros [| |sc|]; try done.
  rewrite container_nodes_container_node, length_fmap, length_seqZ. done.
Qed.

Lemma owns_register K model mid s g x extra :
  owns s -> placed_node K model mid s g x extra -> owns (register x extra s).
Proof.
  intros [Hnd Hv] Hp.
  pose proof (container_nodes_placed_node _ _ _ _ _ _ _ Hp) as Hc.
  assert (E : owned_nodes (heap (register x extra s))
                (nodes_ (local_nodes_ (register x extra s)))
              = owned_nodes (heap s) (nodes_ (local_nodes_ s))
                ++ length (heap s) :: seq (S (length (heap s))) (length extra)).
  { cbn [register heap with_heap with_local_nodes local_nodes_ nodes_].
    unfold owned_nodes at 1. rewrite fmap_app, concat_app.
    fold (owned_nodes (heap s ++ x :: extra) (nodes_ (local_nodes_ s))).
    rewrite owned_nodes_heap_app by (by apply entries_valid_owned).
    f_equal. unfold entry_nodes.
    change (concat ((λ e : ptr * Z, e.1 :: container_nodes_ (deref (heap s ++ x :: extra) e.1))
                      <$> [(length (heap s), gid_ x)]))
      with ((length (heap s) :: container_nodes_ (deref (heap s ++ x :: extra) (length (heap s)))) ++ []).
    by rewrite deref_fresh, Hc, app_nil_r. }
  split; rewrite E.
  - apply NoDup_app. split; [done|]. split.
    + intros q Hq Hin. rewrite Forall_forall in Hv. specialize (Hv q Hq).
      apply elem_of_cons in Hin as [->|Hin]; [lia|].
      apply elem_of_seq in Hin. lia.
    + apply (NoDup_seq (length (heap s)) (S (length extra))).
  - assert (El : length (heap (register x extra s))
                = (length (heap s) + S (length extra))%nat).
    { unfold register. cbn. by rewrite length_app. }
    rewrite El. apply Forall_app. split.
    + eapply Forall_impl; [exact Hv|]. cbn. lia.
    + apply Forall_cons. split; [lia|].
      apply Forall_forall. intros q Hq%elem_of_seq. lia.
Qed.

Lemma owns_same s s' :
  heap s' = heap s -> nodes_ (local_nodes_ s') = nodes_ (local_nodes_ s) ->
  owns s -> owns s'.
Proof. intros Hh Hl [H1 H2]. split; rewrite Hh, Hl; done. Qed.

Lemma owns_heap_updated s s' :
  heap_updated (heap s) (heap s') -> local_nodes_ s' = local_nodes_ s ->
  owns s -> owns s'.
Proof.
  intros Hu Hl [H1 H2]. split; rewrite Hl, (owned_nodes_updated _ _ _ Hu); [done|].
  destruct Hu as [-> _]. done.
Qed.

Lemma owns_add_node K mid n s s' :
  kernel_bounds K -> n < 2 ^ 63 -> 0 <= max_gid_ (local_nodes_ s) <= max_size K ->
  owns s -> result_state (add_node K mid n s) = Some s' -> owns s'.
Proof.
  intros HK Hn Hm.
  apply (add_node_invariant K owns); try done.
  - intros model s1 g x extra Hs1 _ Hp. by eapply owns_register.
  - intros s1 g Hs1 _. by apply (owns_same s1).
  - intros s1. by apply (owns_same s1).
  - intros f l. by apply (owns_same s).
  - intros s1. by apply (owns_same s1).
Qed.

Lemma owns_init : owns NodeManager_init.
Proof. split; cbn; [apply NoDup_nil_2|apply Forall_nil_2]. Qed.

Lemma owns_manager_step K s s' :
  kernel_bounds K -> manager_step K s s' -> wf K s -> owns s -> owns s'.
Proof.
  intros HK [mid n s0 s1 Hn H|g t s0 s1 H|g s0 s1 H|s0 s1 H|ib cr s0 s1 H|s0|s0]
    Hwf Ho.
  - eapply owns_add_node; try done; [lia|apply Hwf].
  - by rewrite (get_node_state _ _ _ _ H).
  - by rewrite (get_thread_siblings_state _ _ _ H).
  - pose proof (heap_updated_ensure_valid K s0 s1 H) as Hu.
    eapply owns_heap_updated; try done.
    unfold ensure_valid_thread_local_ids in H.
    destruct (_ =? _); cbn [negb] in H; [by injection H as <-|].
    destruct (fold_left _ _ _) as [[[h nvs] wvs]|]; [|done].
    by injection H as <-.
  - pose proof (heap_updated_prepare_nodes ib cr K s0 s1 H) as Hu.
    eapply owns_heap_updated; try done.
    unfold prepare_nodes in H.
    destruct (prepare_threads _ _ _ _ _ _ _ _) as [[[[h a] w] ex]|]; [|done].
    destruct (first_raised ex); by injection H as <-.
  - eapply owns_heap_updated; [apply heap_updated_reset_nodes_state|done|done].
  - eapply owns_heap_updated; [apply heap_updated_reset_nodes_state|done|done].
Qed.

(** Every state the manager reaches from its initial state satisfies the
    invariant, and its registry owns every node once. *)
Lemma invariants_reachable K s :
  kernel_bounds K -> local_threads_in_range K ->
  rtc (manager_step K) NodeManager_init s -> wf K s ∧ owns s.
Proof.
  intros HK Hlaw Hs.
  revert s Hs. apply (rtc_ind_r (R := manager_step K) (λ s, wf K s ∧ owns s)).
  - split; [apply wf_init, HK|apply owns_init].
  - intros s1 s2 _ H [Hwf Ho].
    split; [by eapply wf_manager_step|by eapply owns_manager_step].
Qed.

(** After a rebuild the prepare pass finds one list per thread, and the lists
    are disjoint and hold nodes of the pool. *)
Lemma rebuilt_lists_partition K s s' :
  kernel_bounds K -> wf K s -> owns s ->
  size s ≠ nodes_vec_network_size_ s ->
  ensure_valid_thread_local_ids K s = Ok tt s' ->
  Z.of_nat (length (nodes_vec_ s')) = get_num_threads K
  ∧ NoDup (concat (nodes_vec_ s'))
  ∧ Forall (λ q, (q < length (heap s'))%nat) (concat (nodes_vec_ s')).
Proof.
  intros HK Hwf [Hnd Hv] Hsize E. pose proof HK as [HT _ _ _ _].
  destruct (ensure_valid_rebuilds K s) as (s2 & E2 & Hnv & [Hlen _] & _);
    [lia|done|by apply containers_complete_wf|].
  rewrite E in E2. injection E2 as <-.
  rewrite Hnv, Hlen, length_fmap, length_seqZ. split; [lia|].
  apply thread_lists_disjoint; try done; [lia|apply Hwf].
Qed.

(** ** Scenario states are reachable *)

Lemma neurons_and_device_reachable rank :
  rank = 0 ∨ rank = 1 ->
  rtc (manager_step (two_by_two rank)) NodeManager_init (neurons_and_device rank).
Proof.
  intros [->| ->].
  - eapply rtc_l; [apply (step_add_node _ 1 5); [lia|vm_compute; reflexivity]|].
    eapply rtc_l; [apply (step_add_node _ 2 1); [lia|vm_compute; reflexivity]|].
    apply rtc_refl.
  - eapply rtc_l; [apply (step_add_node _ 1 5); [lia|vm_compute; reflexivity]|].
    eapply rtc_l; [apply (step_add_node _ 2 1); [lia|vm_compute; reflexivity]|].
    apply rtc_refl.
Qed.

Lemma two_by_two_local_threads rank : local_threads_in_range (two_by_two rank).
Proof. apply round_robin_local_threads; lia. Qed.

(** ** The thread-local lists partition the nodes *)

Lemma elem_of_thread_local_nodes h entries t e q :
  e ∈ entries -> q ∈ thread_local_node h t e -> q ∈ thread_local_nodes h entries t.
Proof.
  intros He Hq. unfold thread_local_nodes. apply list_elem_of_In, in_concat.
  exists (thread_local_node h t e). split; [|by apply list_elem_of_In].
  apply list_elem_of_In, list_elem_of_fmap. by exists e.
Qed.

(** X1: in every state the manager reaches from its initial state, a rebuild
    of the thread-local lists gives one list per thread; the lists hold nodes
    of the pool, no node is on two lists or twice on one, every registered
    plain node is on the list of its thread, and every replica of a
    registered container is on the list of the thread it was created for. *)
Theorem rebuilt_lists_partition_nodes K s :
  kernel_bounds K -> local_threads_in_range K ->
  rtc (manager_step K) NodeManager_init s ->
  size s ≠ nodes_vec_network_size_ s ->
  ∃ s',
    ensure_valid_thread_local_ids K s = Ok tt s'
    ∧ Z.of_nat (length (nodes_vec_ s')) = get_num_threads K
    ∧ NoDup (concat (nodes_vec_ s'))
    ∧ Forall (λ q, (q < length (heap s'))%nat) (concat (nodes_vec_ s'))
    ∧ ∀ e, e ∈ nodes_ (local_nodes_ s) ->
        (num_thread_siblings (deref (heap s) e.1) = 0 ->
           e.1 ∈ nodes_vec_ s' !!! Z.to_nat (thread_ (deref (heap s) e.1)))
        ∧ (num_thread_siblings (deref (heap s) e.1) ≠ 0 ->
           ∀ t, 0 <= t < get_num_threads K ->
             ∃ p, get_thread_sibling (deref (heap s) e.1) t = Some p
               ∧ p ∈ nodes_vec_ s' !!! Z.to_nat t).
Proof.
  intros HK Hlaw Hs Hsize. pose proof HK as [HT _ _ _ _].
  destruct (invariants_reachable K s HK Hlaw Hs) as [Hwf Ho].
  destruct (cache_current_rebuilt K s HK Hwf Hsize) as (s' & E & _ & Hnv).
  exists s'. split; [done|].
  destruct (rebuilt_lists_partition K s s' HK Hwf Ho Hsize E) as (H1 & H2 & H3).
  do 3 (split; [done|]).
  assert (Hlist : ∀ t, 0 <= t < get_num_threads K ->
            nodes_vec_ s' !!! Z.to_nat t
            = thread_local_nodes (heap s) (nodes_ (local_nodes_ s)) t).
  { intros t Ht. rewrite Hnv. apply list_lookup_total_correct.
    rewrite list_lookup_fmap, lookup_seqZ_lt by lia. cbn. f_equal. f_equal. lia. }
  intros e He.
  pose proof (wf_entries _ _ Hwf) as Hok. rewrite Forall_forall in Hok.
  destruct (Hok e He) as (Hv & _ & [[Hnil Hthr]|Hcont]).
  - split.
    + intros _. rewrite Hlist by done.
      apply (elem_of_thread_local_nodes _ _ _ e); [done|].
      unfold thread_local_node, num_thread_siblings. rewrite Hnil. cbn.
      rewrite wrap64_small by lia. rewrite Z.eqb_refl. apply list_elem_of_here.
    + unfold num_thread_siblings. rewrite Hnil. done.
  - split; [lia|]. intros _ t Ht.
    destruct (lookup_lt_is_Some_2 (container_nodes_ (deref (heap s) e.1)) (Z.to_nat t))
      as [p Hp].
    { unfold num_thread_siblings in Hcont. lia. }
    assert (Hsib : get_thread_sibling (deref (heap s) e.1) t = Some p).
    { unfold get_thread_sibling. destruct (Z.ltb_spec t 0); [lia|done]. }
    exists p. split; [done|]. rewrite Hlist by done.
    apply (elem_of_thread_local_nodes _ _ _ e); [done|].
    unfold thread_local_node. rewrite Hsib.
    destruct (Z.ltb_spec 0 (num_thread_siblings (deref (heap s) e.1))); [|lia].
    apply list_elem_of_here.
Qed.

Lemma rebuilt_lists_partition_nodes_witness :
  ∃ s',
    ensure_valid_thread_local_ids (two_by_two 1) (neurons_and_device 1) = Ok tt s'
    ∧ NoDup (concat (nodes_vec_ s')).
Proof.
  destruct (rebuilt_lists_partition_nodes (two_by_two 1) (neurons_and_device 1)
              (two_by_two_bounds 1 ltac:(lia)) (two_by_two_local_threads 1)
              (neurons_and_device_reachable 1 ltac:(right; reflexivity)))
    as (s' & E & _ & Hnd & _).
  - vm_compute. discriminate.
  - exists s'. split; [exact E|exact Hnd].
Defined.

(** ** A prepare pass in which no node raises *)

Lemma frozen_heap_updated h h' q :
  heap_updated h h' -> frozen_ (deref h' q) = frozen_ (deref h q).
Proof. intros [_ H]. by destruct (H q) as (_ & _ & _ & _ & _ & _ & -> & _). Qed.

Lemma active_nodes_updated h h' its :
  heap_updated h h' -> active_nodes h' its = active_nodes h its.
Proof.
  intros Hu. unfold active_nodes. induction its as [|q its IH]; [done|].
  cbn. by rewrite IH, (frozen_heap_updated h h' q Hu).
Qed.

Lemma active_nodes_app h l1 l2 :
  active_nodes h (l1 ++ l2) = active_nodes h l1 ++ active_nodes h l2.
Proof. unfold active_nodes. apply List.filter_app. Qed.

Section PrepareQuiet.
Context (init_buffers_raises calibrate_raises : ptr -> option string).

Lemma prepare_node_quiet q (h : Heap) :
  init_buffers_raises q = None -> calibrate_raises q = None ->
  prepare_node_ init_buffers_raises calibrate_raises q h
  = (None, store q count_calibrate (store q (set_buffers_initialized true) h)).
Proof.
  intros Hi Hc. unfold prepare_node_, init_buffers, calibrate. by rewrite Hi, Hc.
Qed.

Lemma prepare_thread_quiet its : forall (h : Heap) a w,
  (forall q, q ∈ its -> init_buffers_raises q = None ∧ calibrate_raises q = None) ->
  NoDup its -> Forall (λ q, (q < length h)%nat) its ->
  ∃ h' w',
    prepare_thread init_buffers_raises calibrate_raises its h a w
      = (None, h', a + Z.of_nat (length (active_nodes h its)), w')
    ∧ heap_updated h h'
    ∧ (forall q, q ∈ its -> prepared h h' q)
    ∧ (forall q, q ∉ its -> deref h' q = deref h q).
Proof.
  induction its as [|it its IH]; intros h a w Hq Hnd Hv; cbn [prepare_thread].
  - exists h, w. cbn. rewrite Z.add_0_r.
    split; [done|]. split; [apply heap_updated_refl|]. split; [|done].
    by intros q ?%elem_of_nil.
  - apply NoDup_cons in Hnd as [Hit Hnd]. apply Forall_cons in Hv as [Hv1 Hv].
    destruct (Hq it) as [Hi Hc]; [apply list_elem_of_here|].
    rewrite (prepare_node_quiet it h Hi Hc).
    set (h1 := store it count_calibrate (store it (set_buffers_initialized true) h)).
    assert (Hu1 : heap_updated h h1).
    { eapply heap_updated_trans; apply heap_updated_store.
      - apply same_identity_set_buffers_initialized.
      - apply same_identity_count_calibrate. }
    assert (Hit1 : deref h1 it = count_calibrate (set_buffers_initialized true (deref h it))).
    { unfold h1. rewrite deref_store_eq by (by rewrite length_store).
      by rewrite deref_store_eq. }
    assert (Hne1 : forall q, q ≠ it -> deref h1 q = deref h q).
    { intros q Hne. unfold h1. by rewrite !deref_store_ne. }
    assert (Hv' : Forall (λ q, (q < length h1)%nat) its).
    { destruct Hu1 as [-> _]. done. }
    assert (Hq' : forall q, q ∈ its ->
              init_buffers_raises q = None ∧ calibrate_raises q = None).
    { intros q Hin. apply Hq. by apply list_elem_of_further. }
    set (a1 := if negb (frozen_ (deref h1 it)) then a + 1 else a).
    set (w1 := if negb (frozen_ (deref h1 it))
               then (if uses_wfr_ (deref h1 it) then w + 1 else w) else w).
    destruct (IH h1 a1 w1 Hq' Hnd Hv') as (h' & w' & E & Hu & Hin & Hout).
    exists h', w'. split; [|split; [|split]].
    + rewrite (active_nodes_updated h h1) in E by done.
      unfold active_nodes. cbn [List.filter].
      rewrite <- (frozen_heap_updated h h1 it Hu1).
      unfold a1, w1 in E. destruct (negb (frozen_ (deref h1 it))).
      * rewrite E. unfold active_nodes. cbn [length].
        by rewrite Nat2Z.inj_succ, <- Z.add_1_l, Z.add_assoc.
      * exact E.
    + by eapply heap_updated_trans.
    + intros q [->|Hq1]%elem_of_cons.
      * unfold prepared. rewrite (Hout it Hit), Hit1. done.
      * assert (q ≠ it) by (by intros ->).
        destruct (Hin q Hq1) as [Hb Hn]. unfold prepared.
        by rewrite Hb, Hn, Hne1.
    + intros q [Hne Hq1]%not_elem_of_cons. by rewrite (Hout q Hq1), Hne1.
Qed.

Lemma prepare_threads_quiet nvs lists :
  forall (before : list (list ptr)) (h : Heap) a w ex,
  (forall i its, lists !! i = Some its -> nvs !! (length before + i)%nat = Some its) ->
  (forall q, q ∈ concat lists ->
     init_buffers_raises q = None ∧ calibrate_raises q = None) ->
  NoDup (concat lists) ->
  Forall (λ q, (q < length h)%nat) (concat lists) ->
  ∃ h' w',
    prepare_threads init_buffers_raises calibrate_raises
      (seqZ (Z.of_nat (length before)) (Z.of_nat (length lists))) nvs h a w ex
    = Some (h', a + Z.of_nat (length (active_nodes h (concat lists))), w', ex)
    ∧ heap_updated h h'
    ∧ (forall q, q ∈ concat lists -> prepared h h' q)
    ∧ (forall q, q ∉ concat lists -> deref h' q = deref h q).
Proof.
  induction lists as [|its lists IH]; intros before h a w ex Hnvs Hq Hnd Hv.
  - cbn. exists h, w. rewrite Z.add_0_r.
    split; [done|]. split; [apply heap_updated_refl|]. split; [|done].
    by intros q ?%elem_of_nil.
  - rewrite seqZ_cons by (cbn; lia). cbn [prepare_threads].
    rewrite Nat2Z.id. rewrite <- (Nat.add_0_r (length before)).
    rewrite (Hnvs 0%nat its eq_refl).
    cbn [concat] in *.
    apply NoDup_app in Hnd as (Hnd1 & Hdisj & Hnd2).
    apply Forall_app in Hv as [Hv1 Hv2].
    destruct (prepare_thread_quiet its h a w) as (h1 & w1 & -> & Hu1 & Hin1 & Hout1);
      [|done|done|].
    { intros q Hin. apply Hq, elem_of_app. by left. }
    assert (Hv2' : Forall (λ q, (q < length h1)%nat) (concat lists)).
    { destruct Hu1 as [-> _]. done. }
    destruct (IH (before ++ [its]) h1
                (a + Z.of_nat (length (active_nodes h its))) w1 ex)
      as (h' & w' & E & Hu & Hin & Hout); [| |done|done|].
    { intros i its' Hi. rewrite length_app. cbn.
      replace (length before + 1 + i)%nat with (length before + S i)%nat by lia.
      by apply Hnvs. }
    { intros q Hin. apply Hq, elem_of_app. by right. }
    rewrite length_app in E. cbn [length] in E.
    replace (Z.succ (Z.of_nat (length before + 0)))
      with (Z.of_nat (length before + 1)) by lia.
    replace (Z.pred (Z.of_nat (length (its :: lists))))
      with (Z.of_nat (length lists)) by (cbn [length]; lia).
    rewrite E. exists h', w'. split; [|split; [|split]].
    + rewrite (active_nodes_updated h h1) by done.
      by rewrite active_nodes_app, length_app, Nat2Z.inj_add, Z.add_assoc.
    + by eapply heap_updated_trans.
    + intros q [Hq1|Hq2]%elem_of_app.
      * destruct (Hin1 q Hq1) as [Hb Hn]. unfold prepared.
        by rewrite (Hout q (Hdisj q Hq1)).
      * assert (q ∉ its) as Hn by (intros Hq1; by apply (Hdisj q Hq1)).
        destruct (Hin q Hq2) as [Hb Hc]. unfold prepared.
        by rewrite <- (Hout1 q Hn).
    + intros q [Hn1 Hn2]%not_elem_of_app. by rewrite (Hout q Hn2), (Hout1 q Hn1).
Qed.

End PrepareQuiet.

Lemma first_raised_replicate n : first_raised (replicate n None) = None.
Proof. induction n as [|n IH]; [done|exact IH]. Qed.

(** X2: when no node on the thread-local lists raises, [prepare_nodes]
    returns; every node on the lists has its buffers initialized and has been
    calibrated exactly once more, every other node of the pool is as before,
    and the number of active nodes the manager publishes is the number of
    nodes on the lists that are not frozen. *)
Theorem prepare_nodes_counts_active K init_buffers_raises calibrate_raises s :
  Z.of_nat (length (nodes_vec_ s)) = get_num_threads K ->
  NoDup (concat (nodes_vec_ s)) ->
  Forall (λ q, (q < length (heap s))%nat) (concat (nodes_vec_ s)) ->
  (∀ q, q ∈ concat (nodes_vec_ s) ->
        init_buffers_raises q = None ∧ calibrate_raises q = None) ->
  ∃ s',
    prepare_nodes K init_buffers_raises calibrate_raises s = Ok tt s'
    ∧ (∀ q, q ∈ concat (nodes_vec_ s) -> prepared (heap s) (heap s') q)
    ∧ (∀ q, q ∉ concat (nodes_vec_ s) -> deref (heap s') q = deref (heap s) q)
    ∧ num_active_nodes_ s'
      = Z.of_nat (length (active_nodes (heap s) (concat (nodes_vec_ s))))
    ∧ local_nodes_ s' = local_nodes_ s
    ∧ nodes_vec_ s' = nodes_vec_ s.
Proof.
  intros HT Hnd Hv Hq. unfold prepare_nodes. rewrite <- HT, Nat2Z.id.
  destruct (prepare_threads_quiet init_buffers_raises calibrate_raises
              (nodes_vec_ s) (nodes_vec_ s) [] (heap s) 0 0
              (replicate (length (nodes_vec_ s)) None))
    as (h' & w' & E & Hu & Hin & Hout); [done|done|done|done|].
  cbn [length] in E. change (Z.of_nat 0) with 0 in E. rewrite E.
  rewrite first_raised_replicate. eexists. split; [reflexivity|].
  cbn. rewrite Z.add_0_l. done.
Qed.

Lemma prepare_nodes_counts_active_witness :
  ∃ s',
    prepare_nodes (two_by_two 1) (λ _, None) (λ _, None) (neurons_and_device_listed 1)
      = Ok tt s'
    ∧ num_active_nodes_ s' = 5.
Proof.
  destruct (prepare_nodes_counts_active (two_by_two 1) (λ _, None) (λ _, None)
              (neurons_and_device_listed 1))
    as (s' & E & _ & _ & Hn & _).
  - vm_compute. reflexivity.
  - vm_compute (concat _). apply (bool_decide_unpack _). vm_compute. exact I.
  - vm_compute (concat _). vm_compute (length _).
    repeat (apply Forall_cons; split; [lia|]). apply Forall_nil_2.
  - done.
  - exists s'. split; [exact E|]. rewrite Hn. vm_compute. reflexivity.
Defined.

(** ** Resetting the state of the nodes *)

Lemma lookup_store_eq p f (h : Heap) : store p f h !! p = f <$> h !! p.
Proof. unfold store. apply list_lookup_alter_eq. Qed.

Lemma lookup_store_ne p q f (h : Heap) : p ≠ q -> store p f h !! q = h !! q.
Proof. intros. unfold store. by apply list_lookup_alter_ne. Qed.

(** Resetting the nodes [l], node by node, is one update of the pool when no
    node is listed twice. *)
Lemma lookup_reset_all l : forall (h : Heap) p,
  NoDup l ->
  fold_left
    (λ h it, store it (set_buffers_initialized false) (Node_init_state it h))
    l h !! p
  = (if bool_decide (p ∈ l)
     then λ x, set_buffers_initialized false (count_init_state x)
     else id) <$> h !! p.
Proof.
  induction l as [|q l IH]; intros h p Hnd; cbn [fold_left].
  - by destruct (h !! p).
  - apply NoDup_cons in Hnd as [Hq Hnd]. rewrite IH by done.
    unfold Node_init_state. destruct (decide (p = q)) as [->|Hne].
    + rewrite !lookup_store_eq.
      rewrite (bool_decide_eq_true_2 (q ∈ q :: l)) by apply list_elem_of_here.
      rewrite (bool_decide_eq_false_2 (q ∈ l)) by done.
      by destruct (h !! q).
    + rewrite !lookup_store_ne by done.
      destruct (decide (p ∈ l)) as [Hin|Hin].
      * rewrite !bool_decide_eq_true_2; [done|by apply list_elem_of_further|done].
      * rewrite !bool_decide_eq_false_2; [done| |done].
        by intros [?|?]%elem_of_cons.
Qed.

Lemma reset_targets_updated h h' e :
  heap_updated h h' -> reset_targets h' e = reset_targets h e.
Proof.
  intros [_ H]. unfold reset_targets, num_thread_siblings.
  by destruct (H e.1) as (_ & -> & _ & _ & _ & _ & _ & _ & ->).
Qed.

Lemma reset_node_targets h e :
  reset_node h e
  = fold_left
      (λ h it, store it (set_buffers_initialized false) (Node_init_state it h))
      (reset_targets h e) h.
Proof.
  unfold reset_node, reset_targets.
  destruct (_ =? 0); [done|]. by destruct (_ =? -1).
Qed.

(** The loop of [reset_nodes_state] resets the nodes its body selects in the
    pool the loop starts from. *)
Lemma fold_reset_node entries : forall h : Heap,
  fold_left reset_node entries h
  = fold_left
      (λ h it, store it (set_buffers_initialized false) (Node_init_state it h))
      (concat (reset_targets h <$> entries)) h.
Proof.
  induction entries as [|e entries IH]; intros h; [done|].
  cbn [fold_left fmap list_fmap concat]. rewrite fold_left_app, IH.
  rewrite <- reset_node_targets. f_equal. f_equal.
  apply list_fmap_ext. intros _ e' _. apply reset_targets_updated.
  apply heap_updated_reset_node.
Qed.

Lemma lookup_deref (h : Heap) p x : h !! p = Some x -> deref h p = x.
Proof. intros H. unfold deref. by apply list_lookup_total_correct. Qed.

Lemma deref_reset_all l (h : Heap) p :
  NoDup l -> (p < length h)%nat ->
  deref
    (fold_left
       (λ h it, store it (set_buffers_initialized false) (Node_init_state it h))
       l h) p
  = (if bool_decide (p ∈ l)
     then λ x, set_buffers_initialized false (count_init_state x)
     else id) (deref h p).
Proof.
  intros Hnd Hp. destruct (lookup_lt_is_Some_2 h p Hp) as [x Hx].
  apply lookup_deref. rewrite lookup_reset_all, Hx by done. cbn.
  by rewrite (lookup_deref _ _ _ Hx).
Qed.

Lemma deref_reset_all_outside l (h : Heap) p :
  p ∉ l ->
  deref
    (fold_left
       (λ h it, store it (set_buffers_initialized false) (Node_init_state it h))
       l h) p
  = deref h p.
Proof.
  revert h. induction l as [|q l IH]; intros h Hp; cbn [fold_left]; [done|].
  apply not_elem_of_cons in Hp as [Hne Hp]. rewrite IH by done.
  unfold Node_init_state. by rewrite !deref_store_ne.
Qed.

(** The nodes a reset selects are nodes the registry owns. *)
Lemma reset_targets_sublist h e :
  reset_targets h e `sublist_of` entry_nodes h e.
Proof.
  unfold reset_targets, entry_nodes.
  destruct (_ =? 0); [apply sublist_skip, sublist_nil_l|].
  destruct (_ =? -1); [by apply sublist_cons|apply sublist_nil_l].
Qed.

Lemma reset_targets_owned h entries :
  concat (reset_targets h <$> entries) `sublist_of` owned_nodes h entries.
Proof.
  unfold owned_nodes. induction entries as [|e entries IH]; [done|].
  cbn [fmap list_fmap concat]. apply sublist_app; [apply reset_targets_sublist|done].
Qed.

(** A container is not among the nodes a reset selects. *)
Lemma container_not_reset h entries e :
  NoDup (owned_nodes h entries) -> e ∈ entries ->
  num_thread_siblings (deref h e.1) ≠ 0 ->
  e.1 ∉ concat (reset_targets h <$> entries).
Proof.
  unfold owned_nodes. induction entries as [|e0 entries IH]; intros Hnd He Hc.
  - by apply elem_of_nil in He.
  - cbn [fmap list_fmap concat] in *.
    apply NoDup_app in Hnd as (Hnd0 & Hdisj & Hnd).
    intros [Hin|Hin]%elem_of_app.
    + apply elem_of_cons in He as [->|He].
      * unfold reset_targets in Hin. rewrite (proj2 (Z.eqb_neq _ _) Hc) in Hin.
        unfold entry_nodes in Hnd0. apply NoDup_cons in Hnd0 as [Hself _].
        destruct (_ =? -1); [done|by apply elem_of_nil in Hin].
      * apply (Hdisj e.1).
        -- eapply elem_of_sublist; [exact Hin|apply reset_targets_sublist].
        -- apply list_elem_of_In, in_concat. exists (entry_nodes h e).
           split; [|apply list_elem_of_In, list_elem_of_here].
           apply list_elem_of_In, list_elem_of_fmap. by exists e.
    + apply elem_of_cons in He as [->|He].
      * apply (Hdisj e0.1); [apply list_elem_of_here|].
        eapply elem_of_sublist; [exact Hin|].
        apply (reset_targets_owned h entries).
      * by apply IH.
Qed.

(** ** What a rebuild writes: thread-local indices and relaxation lists *)

Lemma heap_updated_assign_lids ps : forall k (h : Heap),
  heap_updated h (assign_lids k ps h).
Proof.
  induction ps as [|p ps IH]; intros k h; cbn [assign_lids]; [apply heap_updated_refl|].
  eapply heap_updated_trans; [|apply IH].
  apply heap_updated_store. intros. apply same_identity_set_thread_lid.
Qed.

Lemma assign_lids_app ps1 ps2 k (h : Heap) :
  assign_lids k (ps1 ++ ps2) h
  = assign_lids (k + length ps1) ps2 (assign_lids k ps1 h).
Proof.
  revert k h. induction ps1 as [|p ps1 IH]; intros k h; cbn [assign_lids app length].
  - by rewrite Nat.add_0_r.
  - rewrite IH. f_equal. lia.
Qed.

Lemma assign_lids_outside ps : forall k (h : Heap) q,
  q ∉ ps -> deref (assign_lids k ps h) q = deref h q.
Proof.
  induction ps as [|p ps IH]; intros k h q Hq; cbn [assign_lids]; [done|].
  apply not_elem_of_cons in Hq as [Hne Hq]. rewrite IH by done.
  by rewrite deref_store_ne.
Qed.

Lemma assign_lids_position ps : forall k (h : Heap) i p,
  NoDup ps -> Forall (λ q, (q < length h)%nat) ps -> ps !! i = Some p ->
  thread_lid_ (deref (assign_lids k ps h) p) = Z.of_nat (k + i).
Proof.
  induction ps as [|q ps IH]; intros k h i p Hnd Hv Hi; [done|].
  apply NoDup_cons in Hnd as [Hq Hnd]. apply Forall_cons in Hv as [Hv1 Hv].
  cbn [assign_lids]. destruct i as [|i]; cbn in Hi.
  - injection Hi as ->. rewrite assign_lids_outside by done.
    rewrite deref_store_eq by done. cbn. f_equal. lia.
  - rewrite (IH (S k) _ i p); [f_equal; lia|done| |done].
    by rewrite length_store.
Qed.

Lemma wfr_local_node_updated h h' t e :
  heap_updated h h' -> wfr_local_node h' t e = wfr_local_node h t e.
Proof.
  intros [_ H]. unfold wfr_local_node, num_thread_siblings.
  by destruct (H e.1) as (_ & _ & -> & _ & _ & _ & _ & -> & ->).
Qed.

Lemma wfr_local_nodes_updated h h' t entries :
  heap_updated h h' -> wfr_local_nodes h' entries t = wfr_local_nodes h entries t.
Proof.
  intros Hu. unfold wfr_local_nodes. f_equal. apply list_fmap_ext.
  intros _ e _. by apply wfr_local_node_updated.
Qed.

Lemma uses_wfr_heap_updated h h' q :
  heap_updated h h' -> uses_wfr_ (deref h' q) = uses_wfr_ (deref h q).
Proof. intros [_ H]. by destruct (H q) as (_ & _ & _ & _ & _ & _ & _ & -> & _). Qed.

(** The second loop over the registry for thread [t], in full. *)
Lemma fold_collect_node_full K t entries : forall h nv wv,
  0 <= t < get_num_threads K -> containers_complete K h entries ->
  fold_left (collect_node t) entries (Some (h, nv, wv))
  = Some (assign_lids (length nv) (thread_local_nodes h entries t) h,
          nv ++ thread_local_nodes h entries t,
          wv ++ wfr_local_nodes h entries t).
Proof.
  induction entries as [|e entries IH]; intros h nv wv Ht Hc.
  - cbn. by rewrite !app_nil_r.
  - apply Forall_cons in Hc as [He Hc]. cbn [fold_left].
    unfold thread_local_nodes, wfr_local_nodes. cbn [fmap list_fmap concat].
    fold (thread_local_nodes h entries t). fold (wfr_local_nodes h entries t).
    unfold collect_node at 2. unfold thread_local_node, wfr_local_node.
    destruct (Z.ltb_spec 0 (num_thread_siblings (deref h e.1))) as [Hs|Hs].
    + specialize (He Hs). unfold get_thread_sibling, num_thread_siblings in *.
      destruct (Z.ltb_spec t 0); [lia|].
      destruct (lookup_lt_is_Some_2 (container_nodes_ (deref h e.1)) (Z.to_nat t)
                  ltac:(lia)) as [sibling ->].
      set (h1 := store sibling _ h).
      assert (Hu : heap_updated h h1)
        by (apply heap_updated_store; intros; apply same_identity_set_thread_lid).
      rewrite (IH h1 (nv ++ [sibling]) wv Ht)
        by (by eapply containers_complete_updated).
      rewrite (thread_local_nodes_updated h h1), (wfr_local_nodes_updated h h1)
        by done.
      rewrite <- app_assoc, length_app. cbn [app length assign_lids].
      by rewrite Nat.add_1_r.
    + destruct (Z.eqb_spec (wrap64 (thread_ (deref h e.1))) t) as [Et|Et].
      * set (h1 := store e.1 _ h).
        assert (Hu : heap_updated h h1)
          by (apply heap_updated_store; intros; apply same_identity_set_thread_lid).
        rewrite (IH h1 (nv ++ [e.1])) by (done || by eapply containers_complete_updated).
        rewrite (thread_local_nodes_updated h h1), (wfr_local_nodes_updated h h1)
          by done.
        rewrite (uses_wfr_heap_updated h h1) by done.
        rewrite <- app_assoc, length_app. cbn [app length assign_lids].
        rewrite Nat.add_1_r. fold h1.
        destruct (uses_wfr_ (deref h e.1)); [by rewrite <- app_assoc|done].
      * by rewrite (IH h nv wv Ht Hc).
Qed.

(** The loop over the threads, in full. *)
Lemma fold_collect_thread_full K entries h0 :
  containers_complete K h0 entries ->
  forall k : nat, (k <= Z.to_nat (get_num_threads K))%nat ->
  fold_left (collect_thread entries) (seqZ 0 (Z.of_nat k))
    (Some (h0, replicate (Z.to_nat (get_num_threads K)) [],
           replicate (Z.to_nat (get_num_threads K)) []))
  = Some (fold_left (λ h l, assign_lids 0 l h)
            (thread_local_nodes h0 entries <$> seqZ 0 (Z.of_nat k)) h0,
          (thread_local_nodes h0 entries <$> seqZ 0 (Z.of_nat k))
            ++ replicate (Z.to_nat (get_num_threads K) - k) [],
          (wfr_local_nodes h0 entries <$> seqZ 0 (Z.of_nat k))
            ++ replicate (Z.to_nat (get_num_threads K) - k) []).
Proof.
  intros Hc. induction k as [|k IH]; intros Hk.
  - rewrite seqZ_nil by lia. cbn [fold_left fmap list_fmap app].
    by rewrite Nat.sub_0_r.
  - rewrite seqZ_S, fold_left_app, IH by lia. cbn [fold_left]. unfold collect_thread.
    set (h1 := fold_left (λ h l, assign_lids 0 l h) _ h0).
    assert (Hu : heap_updated h0 h1).
    { unfold h1. clear. generalize (thread_local_nodes h0 entries <$> seqZ 0 (Z.of_nat k)).
      intros ls. revert h0. induction ls as [|l ls IHl]; intros h0; cbn [fold_left];
        [apply heap_updated_refl|].
      eapply heap_updated_trans; [apply heap_updated_assign_lids|apply IHl]. }
    rewrite (fold_collect_node_full K (0 + Z.of_nat k) entries h1 [] [])
      by (lia || by eapply containers_complete_updated).
    rewrite (thread_local_nodes_updated h0 h1), (wfr_local_nodes_updated h0 h1)
      by done.
    cbn [app length]. f_equal. f_equal; [f_equal|].
    + rewrite fmap_app, fold_left_app. done.
    + rewrite fmap_app. cbn [fmap list_fmap app].
      rewrite insert_app_r_alt by (rewrite length_fmap, length_seqZ; lia).
      rewrite length_fmap, length_seqZ.
      replace (Z.to_nat (0 + Z.of_nat k) - Z.to_nat (Z.of_nat k))%nat with 0%nat by lia.
      replace (Z.to_nat (get_num_threads K) - k)%nat
        with (S (Z.to_nat (get_num_threads K) - S k)) by lia.
      cbn [replicate insert list_insert]. by rewrite <- app_assoc.
    + rewrite fmap_app. cbn [fmap list_fmap app].
      rewrite insert_app_r_alt by (rewrite length_fmap, length_seqZ; lia).
      rewrite length_fmap, length_seqZ.
      replace (Z.to_nat (0 + Z.of_nat k) - Z.to_nat (Z.of_nat k))%nat with 0%nat by lia.
      replace (Z.to_nat (get_num_threads K) - k)%nat
        with (S (Z.to_nat (get_num_threads K) - S k)) by lia.
      cbn [replicate insert list_insert]. by rewrite <- app_assoc.
Qed.

(** Everything a rebuild writes. *)
Lemma ensure_valid_rebuilds_full K s :
  0 <= get_num_threads K ->
  size s ≠ nodes_vec_network_size_ s ->
  containers_complete K (heap s) (nodes_ (local_nodes_ s)) ->
  let lists := thread_local_nodes (heap s) (nodes_ (local_nodes_ s))
                 <$> seqZ 0 (get_num_threads K) in
  let wfr_lists := wfr_local_nodes (heap s) (nodes_ (local_nodes_ s))
                     <$> seqZ 0 (get_num_threads K) in
  ensure_valid_thread_local_ids K s
  = Ok tt (mkNodeManager
             (fold_left (λ h l, assign_lids 0 l h) lists (heap s))
             (local_nodes_ s) (n_gsd_ s) lists wfr_lists
             (existsb (λ wv, 0 <? Z.of_nat (length wv)) wfr_lists) (size s)
             (num_active_nodes_ s) (modelranges s) (off_grid_communication s)).
Proof.
  intros HT Hsize Hc lists wfr_lists. unfold ensure_valid_thread_local_ids.
  destruct (Z.eqb_spec (size s) (nodes_vec_network_size_ s)); [done|]. cbn [negb].
  pose proof (fold_collect_thread_full K _ _ Hc (Z.to_nat (get_num_threads K))
                ltac:(lia)) as E.
  rewrite Z2Nat.id in E by lia. rewrite E.
  rewrite Nat.sub_diag. cbn [replicate]. by rewrite !app_nil_r.
Qed.

Lemma fold_assign_lids_outside lists : forall (h : Heap) q,
  q ∉ concat lists -> deref (fold_left (λ h l, assign_lids 0 l h) lists h) q = deref h q.
Proof.
  induction lists as [|l lists IH]; intros h q Hq; cbn [fold_left]; [done|].
  cbn [concat] in Hq. apply not_elem_of_app in Hq as [Hq1 Hq2].
  rewrite IH by done. by apply assign_lids_outside.
Qed.

Lemma fold_assign_lids_position lists : forall (h : Heap) j l i p,
  NoDup (concat lists) -> Forall (λ q, (q < length h)%nat) (concat lists) ->
  lists !! j = Some l -> l !! i = Some p ->
  thread_lid_ (deref (fold_left (λ h l, assign_lids 0 l h) lists h) p) = Z.of_nat i.
Proof.
  induction lists as [|l0 lists IH]; intros h j l i p Hnd Hv Hj Hi; [done|].
  cbn [concat] in Hnd, Hv. apply NoDup_app in Hnd as (Hnd1 & Hdisj & Hnd2).
  apply Forall_app in Hv as [Hv1 Hv2]. cbn [fold_left].
  destruct j as [|j]; cbn in Hj.
  - injection Hj as ->. rewrite fold_assign_lids_outside.
    + by rewrite (assign_lids_position l 0 h i p).
    + apply Hdisj. by eapply list_elem_of_lookup_2.
  - apply (IH _ j l i p); [done| |done|done].
    destruct (heap_updated_assign_lids l0 0 h) as [-> _]. done.
Qed.

(** X5: in every state the manager reaches from its initial state, a rebuild
    of the thread-local lists leaves on every listed node, as its
    thread-local index, the position of the node on the list of its
    thread. *)
Theorem rebuilt_thread_lid_is_position K s :
  kernel_bounds K -> local_threads_in_range K ->
  rtc (manager_step K) NodeManager_init s ->
  size s ≠ nodes_vec_network_size_ s ->
  ∃ s',
    ensure_valid_thread_local_ids K s = Ok tt s'
    ∧ ∀ t i p, 0 <= t < get_num_threads K ->
        (nodes_vec_ s' !!! Z.to_nat t) !! i = Some p ->
        thread_lid_ (deref (heap s') p) = Z.of_nat i.
Proof.
  intros HK Hlaw Hs Hsize. pose proof HK as [HT _ _ _ _].
  destruct (invariants_reachable K s HK Hlaw Hs) as [Hwf [Hnd Hv]].
  eexists. split.
  { apply ensure_valid_rebuilds_full; [lia|done|by apply containers_complete_wf]. }
  cbn [nodes_vec_ heap]. intros t i p Ht Hi.
  destruct (thread_lists_disjoint K (heap s) (nodes_ (local_nodes_ s)))
    as [Hnd' Hv']; [lia|apply Hwf|done|done|].
  eapply (fold_assign_lids_position _ _ (Z.to_nat t)); [done|done| |exact Hi].
  apply list_lookup_lookup_total_lt. rewrite length_fmap, length_seqZ. lia.
Qed.

Lemma rebuilt_thread_lid_is_position_witness :
  ∃ s',
    ensure_valid_thread_local_ids (two_by_two 1) (neurons_and_device 1) = Ok tt s'
    ∧ ∀ p, (nodes_vec_ s' !!! Z.to_nat 0) !! 1%nat = Some p ->
           thread_lid_ (deref (heap s') p) = Z.of_nat 1.
Proof.
  destruct (rebuilt_thread_lid_is_position (two_by_two 1) (neurons_and_device 1)
              (two_by_two_bounds 1 ltac:(lia)) (two_by_two_local_threads 1)
              (neurons_and_device_reachable 1 ltac:(right; reflexivity)))
    as (s' & E & H).
  - vm_compute. discriminate.
  - exists s'. split; [exact E|]. intros p Hp.
    exact (H 0 1%nat p ltac:(cbn; lia) Hp).
Defined.

Lemma elem_of_concat_fmap {A B} (f : A -> list B) (l : list A) (y : B) :
  y ∈ concat (f <$> l) ↔ ∃ x, x ∈ l ∧ y ∈ f x.
Proof.
  rewrite list_elem_of_In, in_concat. split.
  - intros (ys & Hys & Hy). apply list_elem_of_In, list_elem_of_fmap in Hys
      as (x & -> & Hx).
    exists x. split; [done|by apply list_elem_of_In].
  - intros (x & Hx & Hy). exists (f x). split; [|by apply list_elem_of_In].
    apply list_elem_of_In, list_elem_of_fmap. by exists x.
Qed.

Lemma num_thread_siblings_nonneg x : 0 <= num_thread_siblings x.
Proof. unfold num_thread_siblings. lia. Qed.

Lemma elem_of_wfr_local_node K h t e p :
  kernel_bounds K -> entry_ok K h e ->
  p ∈ wfr_local_node h t e
  ↔ p = e.1 ∧ num_thread_siblings (deref h e.1) = 0
    ∧ thread_ (deref h e.1) = t ∧ uses_wfr_ (deref h e.1) = true.
Proof.
  intros [HT _ _ _ _] (_ & _ & Hok). unfold wfr_local_node.
  pose proof (num_thread_siblings_nonneg (deref h e.1)) as Hn.
  destruct (Z.ltb_spec 0 (num_thread_siblings (deref h e.1))) as [Hs|Hs].
  { split; [by intros ?%elem_of_nil|]. intros (_ & H0 & _). lia. }
  destruct Hok as [[_ Hthr]|Hcont]; [|lia].
  rewrite wrap64_small by lia.
  destruct (Z.eqb_spec (thread_ (deref h e.1)) t) as [Et|Et];
    [|split; [by intros ?%elem_of_nil|by intros (_ & _ & ? & _)]].
  destruct (uses_wfr_ (deref h e.1));
    [|split; [by intros ?%elem_of_nil|by intros (_ & _ & _ & ?)]].
  rewrite list_elem_of_singleton. split; [|by intros [? _]].
  intros ->. repeat split; [lia|done].
Qed.

(** X6: a rebuild puts on the relaxation list of a thread exactly the
    registered plain nodes of that thread that use waveform relaxation (the
    replicas of a container are never listed), and raises the flag
    [wfr_is_used_] exactly when some registered plain node uses it. *)
Theorem rebuilt_wfr_lists K s :
  kernel_bounds K -> wf K s -> size s ≠ nodes_vec_network_size_ s ->
  ∃ s',
    ensure_valid_thread_local_ids K s = Ok tt s'
    ∧ (∀ t p, 0 <= t < get_num_threads K ->
         (p ∈ wfr_nodes_vec_ s' !!! Z.to_nat t
          ↔ ∃ g, (p, g) ∈ nodes_ (local_nodes_ s)
              ∧ num_thread_siblings (deref (heap s) p) = 0
              ∧ thread_ (deref (heap s) p) = t
              ∧ uses_wfr_ (deref (heap s) p) = true))
    ∧ (wfr_is_used_ s' = true
       ↔ ∃ g p, (p, g) ∈ nodes_ (local_nodes_ s)
           ∧ num_thread_siblings (deref (heap s) p) = 0
           ∧ uses_wfr_ (deref (heap s) p) = true).
Proof.
  intros HK Hwf Hsize. pose proof HK as [HT _ _ _ _].
  pose proof (wf_entries _ _ Hwf) as Hok. rewrite Forall_forall in Hok.
  eexists. split.
  { apply ensure_valid_rebuilds_full; [lia|done|by apply containers_complete_wf]. }
  cbn [wfr_nodes_vec_ wfr_is_used_].
  assert (Hlist : ∀ t p, 0 <= t < get_num_threads K ->
            (p ∈ wfr_local_nodes (heap s) (nodes_ (local_nodes_ s)) t
             ↔ ∃ g, (p, g) ∈ nodes_ (local_nodes_ s)
                 ∧ num_thread_siblings (deref (heap s) p) = 0
                 ∧ thread_ (deref (heap s) p) = t
                 ∧ uses_wfr_ (deref (heap s) p) = true)).
  { intros t p Ht. unfold wfr_local_nodes. rewrite elem_of_concat_fmap. split.
    - intros ([q g] & He & Hp).
      apply (elem_of_wfr_local_node K _ _ _ _ HK (Hok _ He)) in Hp
        as (-> & H1 & H2 & H3).
      by exists g.
    - intros (g & He & H1 & H2 & H3). exists (p, g). split; [done|].
      by apply (elem_of_wfr_local_node K _ _ _ _ HK (Hok _ He)). }
  split.
  - intros t p Ht. rewrite <- (Hlist t p Ht).
    erewrite list_lookup_total_correct; [done|].
    rewrite list_lookup_fmap, lookup_seqZ_lt by lia. cbn. do 3 f_equal. lia.
  - rewrite existsb_exists. split.
    + intros (wv & Hin & Hlen).
      apply list_elem_of_In, list_elem_of_fmap in Hin as (t & -> & Ht).
      apply elem_of_seqZ in Ht.
      destruct (wfr_local_nodes (heap s) (nodes_ (local_nodes_ s)) t) as [|p l] eqn:E;
        [done|].
      assert (Hp : p ∈ wfr_local_nodes (heap s) (nodes_ (local_nodes_ s)) t)
        by (rewrite E; apply list_elem_of_here).
      apply Hlist in Hp as (g & He & H1 & _ & H3); [|lia]. by exists g, p.
    + intros (g & p & He & H1 & H3).
      destruct (Hok _ He) as (_ & _ & [[_ Hthr]|Hcont]); cbn [fst] in *; [|lia].
      exists (wfr_local_nodes (heap s) (nodes_ (local_nodes_ s))
                (thread_ (deref (heap s) p))).
      split.
      * apply list_elem_of_In, list_elem_of_fmap. eexists. split; [done|].
        apply elem_of_seqZ. lia.
      * assert (Hp : p ∈ wfr_local_nodes (heap s) (nodes_ (local_nodes_ s))
                         (thread_ (deref (heap s) p))).
        { apply Hlist; [done|]. by exists g. }
        destruct (wfr_local_nodes _ _ _); [by apply elem_of_nil in Hp|done].
Qed.

Lemma rebuilt_wfr_lists_witness :
  ∃ s',
    ensure_valid_thread_local_ids one_by_two_wfr gap_neurons = Ok tt s'
    ∧ wfr_is_used_ s' = true.
Proof.
  destruct (rebuilt_wfr_lists one_by_two_wfr gap_neurons) as (s' & E & _ & Hused).
  - split; cbn; lia.
  - apply (wf_manager_steps one_by_two_wfr NodeManager_init).
    + split; cbn; lia.
    + apply round_robin_local_threads; lia.
    + eapply rtc_l; [apply (step_add_node _ 1 2); [lia|vm_compute; reflexivity]|].
      eapply rtc_l; [apply (step_add_node _ 2 1); [lia|vm_compute; reflexivity]|].
      apply rtc_refl.
    + apply wf_init. vm_compute. discriminate.
  - vm_compute. discriminate.
  - exists s'. split; [exact E|]. apply Hused. exists 1, 0%nat.
    split; [|split]; vm_compute; try reflexivity.
    apply list_elem_of_here.
Defined.

(** ** The table of model ranges *)

(** What a call of [add_node] that returns or throws leaves: the state as it
    was, or one more range, which starts right after the maximum GID and ends
    at the new one. *)
Lemma add_node_result K mid n s s' :
  kernel_bounds K -> placement_by_rank K ->
  0 <= max_gid_ (local_nodes_ s) <= max_size K -> n < 2 ^ 63 ->
  result_state (add_node K mid n s) = Some s' ->
  s' = s
  ∨ (1 <= n
     ∧ modelranges s'
       = modelranges s ++ [(mid, max_gid_ (local_nodes_ s) + 1,
                            max_gid_ (local_nodes_ s) + n)]
     ∧ max_gid_ (local_nodes_ s') = max_gid_ (local_nodes_ s) + n).
Proof.
  intros HK Hlaw Hmax Hn. pose proof HK as [HT Hrank HS HR Hsize].
  destruct (decide (1 <= n ∧ 0 <= mid < get_num_node_models K
                    ∧ max_gid_ (local_nodes_ s) + 1 + n <= max_size K))
    as [(Hn1 & Hmid & Hcap)|Hno].
  - intros H. right. destruct (get_model_valid K mid Hmid) as [model Hmodel].
    rewrite (add_node_within_capacity K mid n s model) in H
      by (done || unfold get_max_gid; lia).
    unfold get_max_gid in H.
    destruct (place_nodes_max_gid K model mid n (max_gid_ (local_nodes_ s) + 1)
                (max_gid_ (local_nodes_ s) + n + 1)
                (add_range mid (max_gid_ (local_nodes_ s) + 1)
                   (max_gid_ (local_nodes_ s) + n) s))
      as (s1 & E & Hmax1); try done; try lia; [cbn; lia|].
    rewrite E in H. cbn in H. injection H as <-.
    pose proof (grows_place_nodes _ _ _ _ _ _ _ _ E) as Hg.
    split; [done|].
    destruct (is_off_grid model); cbn; rewrite (grows_modelranges _ _ Hg), Hmax1;
      (split; [done|lia]).
  - intros H. left. unfold add_node in H.
    destruct (Z.leb_spec (get_num_node_models K) mid); [by injection H|].
    destruct (Z.ltb_spec n 1); [by injection H|].
    destruct (Z.ltb_spec 0 (get_num_threads K)); [|lia]. cbn [negb] in H.
    destruct (get_model K mid) as [model|] eqn:Hmodel; [|done].
    apply get_model_Some in Hmodel. unfold get_max_gid in H.
    rewrite (wrap64_small (max_gid_ (local_nodes_ s) + 1)) in H by lia.
    rewrite (wrap64_small (max_gid_ (local_nodes_ s) + 1 + n)) in H by lia.
    destruct (Z.ltb_spec (max_size K) (max_gid_ (local_nodes_ s) + 1 + n)); [|lia].
    cbn [orb] in H. by injection H.
Qed.

Lemma ranges_tile_snoc ranges : forall from to mid last,
  ranges_tile from ranges to -> to + 1 <= last ->
  ranges_tile from (ranges ++ [(mid, to + 1, last)]) last.
Proof.
  induction ranges as [|[[m f] l] ranges IH]; intros from to mid last Ht Hl; cbn in *.
  - subst to. split; [lia|]. split; [lia|]. lia.
  - destruct Ht as (-> & Hfl & Ht). split; [done|]. split; [done|]. by apply IH.
Qed.

Lemma ranges_tile_bounds ranges : forall from to,
  ranges_tile from ranges to -> from - 1 <= to.
Proof.
  induction ranges as [|[[m f] l] ranges IH]; intros from to Ht; cbn in Ht.
  - lia.
  - destruct Ht as (-> & Hfl & Ht). apply IH in Ht. lia.
Qed.

Lemma ranges_tile_cover ranges : forall from to g,
  ranges_tile from ranges to -> from <= g <= to ->
  ∃ r, r ∈ ranges ∧ r.1.2 <= g <= r.2.
Proof.
  induction ranges as [|[[m f] l] ranges IH]; intros from to g Ht Hg; cbn in Ht.
  - lia.
  - destruct Ht as (-> & Hfl & Ht). destruct (decide (g <= l)) as [Hgl|Hgl].
    + exists (m, from, l). split; [apply list_elem_of_here|cbn; lia].
    + destruct (IH (l + 1) to g Ht) as (r & Hr & Hin); [lia|].
      exists r. split; [by apply list_elem_of_further|done].
Qed.

Lemma ranges_tile_within ranges : forall from to r,
  ranges_tile from ranges to -> r ∈ ranges -> from <= r.1.2 ∧ r.1.2 <= r.2 ∧ r.2 <= to.
Proof.
  induction ranges as [|[[m f] l] ranges IH]; intros from to r Ht Hr; cbn in Ht.
  - by apply elem_of_nil in Hr.
  - destruct Ht as (-> & Hfl & Ht). apply elem_of_cons in Hr as [->|Hr].
    + cbn. apply ranges_tile_bounds in Ht. lia.
    + destruct (IH _ _ _ Ht Hr) as (H1 & H2 & H3). lia.
Qed.

Lemma ranges_tile_ordered ranges : forall from to i j r1 r2,
  ranges_tile from ranges to -> (i < j)%nat ->
  ranges !! i = Some r1 -> ranges !! j = Some r2 -> r1.2 < r2.1.2.
Proof.
  induction ranges as [|[[m f] l] ranges IH]; intros from to i j r1 r2 Ht Hij Hi Hj;
    [done|].
  cbn in Ht. destruct Ht as (-> & Hfl & Ht).
  destruct j as [|j]; [lia|]. cbn in Hj. destruct i as [|i]; cbn in Hi.
  - injection Hi as <-. cbn.
    apply list_elem_of_lookup_2 in Hj.
    destruct (ranges_tile_within _ _ _ _ Ht Hj) as (H1 & _). lia.
  - apply (IH _ _ i j r1 r2 Ht); [lia|done|done].
Qed.

Lemma ranges_tile_manager_step K s s' :
  kernel_bounds K -> placement_by_rank K ->
  manager_step K s s' -> wf K s ->
  ranges_tile 1 (modelranges s) (size s) -> ranges_tile 1 (modelranges s') (size s').
Proof.
  intros HK Hlaw [mid n s0 s1 Hn H|g t s0 s1 H|g s0 s1 H|s0 s1 H|ib cr s0 s1 H|s0|s0]
    Hwf Ht.
  - destruct (add_node_result K mid n s0 s1 HK Hlaw (wf_max_gid _ _ Hwf)
                ltac:(lia) H) as [->|(Hn1 & -> & Hmax)]; [done|].
    unfold size, get_max_gid in *. rewrite Hmax.
    apply ranges_tile_snoc; [done|lia].
  - by rewrite (get_node_state _ _ _ _ H).
  - by rewrite (get_thread_siblings_state _ _ _ H).
  - unfold ensure_valid_thread_local_ids in H.
    destruct (_ =? _); cbn [negb] in H; [by injection H as <-|].
    destruct (fold_left _ _ _) as [[[h nvs] wvs]|]; [|done].
    by injection H as <-.
  - unfold prepare_nodes in H.
    destruct (prepare_threads _ _ _ _ _ _ _ _) as [[[[h a] w] ex]|]; [|done].
    destruct (first_raised ex); by injection H as <-.
  - done.
  - done.
Qed.

Lemma ranges_tile_manager_steps K s s' :
  kernel_bounds K -> placement_by_rank K -> local_threads_in_range K ->
  rtc (manager_step K) s s' -> wf K s ->
  ranges_tile 1 (modelranges s) (size s) -> ranges_tile 1 (modelranges s') (size s').
Proof.
  intros HK Hrank Hlaw Hs. induction Hs as [|s1 s2 s3 Hstep _ IH]; [done|].
  intros Hwf Ht.
  apply IH; [by eapply wf_manager_step|by eapply ranges_tile_manager_step].
Qed.

(** X7: in every state the manager reaches from its initial state the table
    of model ranges tiles the GIDs from 1 to the size of the network: the
    ranges follow one another in the order of the calls of [add_node], every
    GID of the network lies in a range, no range is empty or reaches beyond
    the size of the network, and a later range lies above an earlier one. *)
Theorem modelranges_tile_network K s :
  kernel_bounds K -> placement_by_rank K -> local_threads_in_range K ->
  rtc (manager_step K) NodeManager_init s ->
  ranges_tile 1 (modelranges s) (size s)
  ∧ (∀ g, 1 <= g <= size s -> ∃ r, r ∈ modelranges s ∧ r.1.2 <= g <= r.2)
  ∧ (∀ r, r ∈ modelranges s -> 1 <= r.1.2 ∧ r.1.2 <= r.2 ∧ r.2 <= size s)
  ∧ (∀ i j r1 r2, (i < j)%nat ->
       modelranges s !! i = Some r1 -> modelranges s !! j = Some r2 ->
       r1.2 < r2.1.2).
Proof.
  intros HK Hrank Hlaw Hs.
  assert (Ht : ranges_tile 1 (modelranges s) (size s)).
  { apply (ranges_tile_manager_steps K NodeManager_init s); try done.
    apply wf_init, HK. }
  split; [done|]. split; [|split].
  - intros g Hg. by eapply ranges_tile_cover.
  - intros r Hr. by eapply ranges_tile_within.
  - intros i j r1 r2 Hij Hi Hj. by eapply ranges_tile_ordered.
Qed.

Lemma modelranges_tile_network_witness :
  ranges_tile 1 (modelranges (neurons_and_device 0)) (size (neurons_and_device 0))
  ∧ modelranges (neurons_and_device 0) = [(1, 1, 5); (2, 6, 6)].
Proof.
  split; [|vm_compute; reflexivity].
  exact (proj1 (modelranges_tile_network (two_by_two 0) (neurons_and_device 0)
                  (two_by_two_bounds 0 ltac:(lia))
                  (round_robin_placement_by_rank 2 0 2 0 example_models
                     ltac:(lia) ltac:(lia))
                  (two_by_two_local_threads 0)
                  (neurons_and_device_reachable 0 ltac:(left; reflexivity)))).
Defined.

(** ** Registered nodes are local *)

Lemma round_robin_local_thread_vps n_threads rank n_sim n_rec ms :
  0 < n_threads -> 0 < n_sim -> 0 <= n_rec -> 0 <= rank < n_sim + n_rec ->
  local_thread_vps (round_robin n_threads rank n_sim n_rec ms).
Proof.
  intros HT HS HR Hrank t Ht. cbn in *.
  destruct (Z.leb_spec n_sim rank) as [Hrec|Hsim].
  - destruct (Z.leb_spec (n_sim * n_threads)
                (t * n_rec + rank - n_sim + n_sim * n_threads)) as [_|Hlt]; [|nia].
    apply Z.eqb_eq.
    replace (t * n_rec + rank - n_sim + n_sim * n_threads - n_sim * n_threads)
      with (rank - n_sim + t * n_rec) by lia.
    rewrite Z.mod_add by lia. rewrite Z.mod_small by lia. lia.
  - destruct (Z.leb_spec (n_sim * n_threads) (t * n_sim + rank)) as [Hge|_]; [nia|].
    apply Z.eqb_eq. rewrite Z.add_comm, Z.mod_add by lia. apply Z.mod_small. lia.
Qed.

Lemma entry_local_updated K h h' e :
  heap_updated h h' -> entry_local K h e -> entry_local K h' e.
Proof.
  intros [_ H] [H1 H2]. unfold entry_local, is_local_node, num_thread_siblings in *.
  destruct (H e.1) as (_ & _ & _ & -> & _ & _ & _ & _ & ->).
  split; [done|]. eapply Forall_impl; [exact H2|]. intros p Hp. cbn in *.
  by destruct (H p) as (_ & _ & _ & -> & _).
Qed.

Lemma entry_local_heap_app K (h k : Heap) e :
  Forall (λ q, (q < length h)%nat) (entry_nodes h e) ->
  entry_local K h e -> entry_local K (h ++ k) e.
Proof.
  intros [Hv Hvs]%Forall_cons [H1 H2].
  unfold entry_local, is_local_node in *. rewrite deref_app_l by done.
  split; [done|]. rewrite Forall_forall in *. intros p Hp.
  rewrite deref_app_l by (by apply Hvs). by apply H2.
Qed.

Lemma entry_nodes_valid (h : Heap) entries e :
  Forall (λ q, (q < length h)%nat) (owned_nodes h entries) -> e ∈ entries ->
  Forall (λ q, (q < length h)%nat) (entry_nodes h e).
Proof.
  intros Hv He. rewrite Forall_forall in *. intros q Hq. apply Hv.
  unfold owned_nodes. apply list_elem_of_In, in_concat. exists (entry_nodes h e).
  split; [|by apply list_elem_of_In].
  apply list_elem_of_In, list_elem_of_fmap. by exists e.
Qed.

Lemma deref_extra (h : Heap) x extra i y :
  extra !! i = Some y -> deref (h ++ x :: extra) (S (length h) + i) = y.
Proof.
  intros Hi. unfold deref. apply list_lookup_total_correct.
  rewrite lookup_app_r by lia.
  replace (S (length h) + i - length h)%nat with (S i) by lia. done.
Qed.

Lemma entry_local_placed_node K model mid s g x extra :
  kernel_bounds K -> local_thread_vps K ->
  placed_node K model mid s g x extra ->
  entry_local K (heap s ++ x :: extra) (length (heap s), gid_ x).
Proof.
  intros [HT _ _ _ _] Hlaw Hp. unfold entry_local, is_local_node. cbn [fst].
  rewrite deref_fresh.
  destruct Hp as [Hloc|Hloc|sc|].
  - split; [done|]. apply Forall_nil_2.
  - split; [done|]. apply Forall_nil_2.
  - split.
    + unfold num_thread_siblings. rewrite container_nodes_container_node, length_seq. lia.
    + rewrite container_nodes_container_node. apply Forall_forall.
      intros p [Hp1 Hp2]%elem_of_seq.
      replace p with (S (length (heap s)) + (p - S (length (heap s))))%nat by lia.
      erewrite deref_extra.
      2:{ rewrite list_lookup_fmap, lookup_seqZ_lt by lia. done. }
      cbn. apply Hlaw. lia.
  - split; [|apply Forall_nil_2]. intros _. cbn. apply Hlaw. lia.
Qed.

Lemma entries_local_register K model mid s g x extra :
  kernel_bounds K -> local_thread_vps K -> owns s ->
  placed_node K model mid s g x extra ->
  Forall (entry_local K (heap s)) (nodes_ (local_nodes_ s)) ->
  Forall (entry_local K (heap (register x extra s)))
    (nodes_ (local_nodes_ (register x extra s))).
Proof.
  intros HK Hlaw [_ Hv] Hp Hall. cbn. apply Forall_app. split.
  - rewrite Forall_forall in *. intros e He.
    apply entry_local_heap_app; [by eapply entry_nodes_valid|by apply Hall].
  - apply Forall_singleton. by eapply entry_local_placed_node.
Qed.

Lemma entries_local_add_node K mid n s s' :
  kernel_bounds K -> local_thread_vps K -> n < 2 ^ 63 ->
  0 <= max_gid_ (local_nodes_ s) <= max_size K ->
  owns s ∧ Forall (entry_local K (heap s)) (nodes_ (local_nodes_ s)) ->
  result_state (add_node K mid n s) = Some s' ->
  owns s' ∧ Forall (entry_local K (heap s')) (nodes_ (local_nodes_ s')).
Proof.
  intros HK Hlaw Hn Hm.
  apply (add_node_invariant K
           (λ s, owns s ∧ Forall (entry_local K (heap s)) (nodes_ (local_nodes_ s))));
    try done.
  - intros model s1 g x extra [Ho Hall] _ Hp.
    split; [by eapply owns_register|by eapply entries_local_register].
  - intros s1 g [Ho Hall] _. split; [by apply (owns_same s1)|done].
  - intros s1 [Ho Hall]. split; [by apply (owns_same s1)|done].
  - intros f l [Ho Hall]. split; [by apply (owns_same s)|done].
  - intros s1 [Ho Hall]. split; [by apply (owns_same s1)|done].
Qed.

Lemma entries_local_heap_updated K s s' :
  heap_updated (heap s) (heap s') -> local_nodes_ s' = local_nodes_ s ->
  Forall (entry_local K (heap s)) (nodes_ (local_nodes_ s)) ->
  Forall (entry_local K (heap s')) (nodes_ (local_nodes_ s')).
Proof.
  intros Hu -> Hall. eapply Forall_impl; [exact Hall|].
  intros e. by apply entry_local_updated.
Qed.

Lemma manager_step_frame K s s' :
  manager_step K s s' ->
  (∃ mid n, n < 2 ^ 63 ∧ result_state (add_node K mid n s) = Some s')
  ∨ (heap_updated (heap s) (heap s') ∧ local_nodes_ s' = local_nodes_ s
     ∧ modelranges s' = modelranges s).
Proof.
  intros [mid n s0 s1 Hn H|g t s0 s1 H|g s0 s1 H|s0 s1 H|ib cr s0 s1 H|s0|s0].
  - left. exists mid, n. split; [lia|done].
  - right. rewrite (get_node_state _ _ _ _ H). split; [apply heap_updated_refl|done].
  - right. rewrite (get_thread_siblings_state _ _ _ H).
    split; [apply heap_updated_refl|done].
  - right. split; [by eapply heap_updated_ensure_valid|].
    unfold ensure_valid_thread_local_ids in H.
    destruct (_ =? _); cbn [negb] in H; [by injection H as <-|].
    destruct (fold_left _ _ _) as [[[h nvs] wvs]|]; [|done].
    by injection H as <-.
  - right. split; [by eapply heap_updated_prepare_nodes|].
    unfold prepare_nodes in H.
    destruct (prepare_threads _ _ _ _ _ _ _ _) as [[[[h a] w] ex]|]; [|done].
    destruct (first_raised ex); by injection H as <-.
  - right. split; [apply heap_updated_reset_nodes_state|done].
  - right. split; [apply heap_updated_reset_nodes_state|done].
Qed.

Lemma entries_local_reachable K s :
  kernel_bounds K -> local_threads_in_range K -> local_thread_vps K ->
  rtc (manager_step K) NodeManager_init s ->
  wf K s ∧ owns s ∧ Forall (entry_local K (heap s)) (nodes_ (local_nodes_ s)).
Proof.
  intros HK Hthr Hlaw. revert s.
  apply (rtc_ind_r (R := manager_step K)
           (λ s, wf K s ∧ owns s
                 ∧ Forall (entry_local K (heap s)) (nodes_ (local_nodes_ s)))).
  - split; [apply wf_init, HK|]. split; [apply owns_init|apply Forall_nil_2].
  - intros s1 s2 _ Hstep (Hwf & Ho & Hall).
    split; [by eapply wf_manager_step|].
    destruct (manager_step_frame K s1 s2 Hstep) as [(mid & n & Hn & H)|(Hu & Hl & _)].
    + eapply entries_local_add_node; try done. apply Hwf.
    + split; [by eapply owns_heap_updated|by eapply entries_local_heap_updated].
Qed.

(** X8: in every state the manager reaches from its initial state, on a
    topology that keeps the virtual processes of its own threads local,
    [is_local_node] holds for every registered plain node and for every
    replica of a registered container, and therefore for every node on
    thread-local lists that are current. *)
Theorem registered_nodes_are_local K s :
  kernel_bounds K -> local_threads_in_range K -> local_thread_vps K ->
  rtc (manager_step K) NodeManager_init s ->
  (∀ e, e ∈ nodes_ (local_nodes_ s) ->
     (num_thread_siblings (deref (heap s) e.1) = 0 ->
        is_local_node K (heap s) e.1 = true)
     ∧ (∀ p, p ∈ container_nodes_ (deref (heap s) e.1) ->
          is_local_node K (heap s) p = true))
  ∧ (cache_current K s ->
     ∀ t p, 0 <= t < get_num_threads K ->
       p ∈ nodes_vec_ s !!! Z.to_nat t -> is_local_node K (heap s) p = true).
Proof.
  intros HK Hthr Hlaw Hs.
  destruct (entries_local_reachable K s HK Hthr Hlaw Hs) as (Hwf & Ho & Hall).
  rewrite Forall_forall in Hall.
  assert (H1 : ∀ e, e ∈ nodes_ (local_nodes_ s) ->
     (num_thread_siblings (deref (heap s) e.1) = 0 ->
        is_local_node K (heap s) e.1 = true)
     ∧ (∀ p, p ∈ container_nodes_ (deref (heap s) e.1) ->
          is_local_node K (heap s) p = true)).
  { intros e He. destruct (Hall e He) as [Ha Hb]. split; [done|].
    by rewrite Forall_forall in Hb. }
  split; [exact H1|].
  intros [_ Hlists] t p Ht Hp. rewrite Hlists in Hp by done.
  unfold thread_local_nodes in Hp. apply elem_of_concat_fmap in Hp as (e & He & Hp).
  destruct (H1 e He) as [Ha Hb]. unfold thread_local_node in Hp.
  pose proof (num_thread_siblings_nonneg (deref (heap s) e.1)) as Hn.
  destruct (Z.ltb_spec 0 (num_thread_siblings (deref (heap s) e.1))).
  - unfold get_thread_sibling in Hp. destruct (t <? 0); [by apply elem_of_nil in Hp|].
    destruct (container_nodes_ (deref (heap s) e.1) !! Z.to_nat t) as [q|] eqn:E;
      [|by apply elem_of_nil in Hp].
    apply list_elem_of_singleton in Hp as ->. apply Hb.
    by eapply list_elem_of_lookup_2.
  - destruct (_ =? t); [|by apply elem_of_nil in Hp].
    apply list_elem_of_singleton in Hp as ->. apply Ha. lia.
Qed.

Lemma registered_nodes_are_local_witness :
  is_local_node (two_by_two 1) (heap (neurons_and_device 1)) 1 = true
  ∧ is_local_node (two_by_two 1) (heap (neurons_and_device 1)) 4 = true.
Proof.
  destruct (registered_nodes_are_local (two_by_two 1) (neurons_and_device 1)
              (two_by_two_bounds 1 ltac:(lia)) (two_by_two_local_threads 1)
              (round_robin_local_thread_vps 2 1 2 0 example_models
                 ltac:(lia) ltac:(lia) ltac:(lia) ltac:(lia))
              (neurons_and_device_reachable 1 ltac:(right; reflexivity)))
    as [H _].
  split.
  - refine (proj1 (H (1%nat, 3) _) _).
    + vm_compute. apply list_elem_of_further, list_elem_of_here.
    + vm_compute. reflexivity.
  - refine (proj2 (H (3%nat, 6) _) 4%nat _).
    + vm_compute. do 3 apply list_elem_of_further. apply list_elem_of_here.
    + vm_compute. apply list_elem_of_here.
Defined.

(** ** The hook passes follow the thread-local lists *)

Lemma fold_call_hook K h t entries : forall calls,
  0 <= t < get_num_threads K -> containers_complete K h entries ->
  fold_left (call_hook h t) entries (Some calls)
  = Some (calls ++ (pair t <$> thread_local_nodes h entries t)).
Proof.
  induction entries as [|e entries IH]; intros calls Ht Hc.
  - cbn. by rewrite app_nil_r.
  - apply Forall_cons in Hc as [He Hc]. cbn [fold_left].
    unfold thread_local_nodes. cbn [fmap list_fmap concat].
    fold (thread_local_nodes h entries t).
    unfold call_hook at 2. unfold thread_local_node.
    destruct (Z.ltb_spec 0 (num_thread_siblings (deref h e.1))) as [Hs|Hs].
    + specialize (He Hs). unfold get_thread_sibling, num_thread_siblings in *.
      destruct (Z.ltb_spec t 0); [lia|].
      destruct (lookup_lt_is_Some_2 (container_nodes_ (deref h e.1)) (Z.to_nat t)
                  ltac:(lia)) as [sibling ->].
      rewrite IH by done. cbn. by rewrite <- app_assoc.
    + destruct (Z.eqb_spec (wrap64 (thread_ (deref h e.1))) t) as [Et|Et].
      * rewrite IH by done. cbn. by rewrite <- app_assoc.
      * by rewrite IH.
Qed.

Lemma call_hooks_lists K s :
  0 <= get_num_threads K ->
  containers_complete K (heap s) (nodes_ (local_nodes_ s)) ->
  call_hooks K s
  = Some (concat ((λ t, pair t <$> thread_local_nodes (heap s) (nodes_ (local_nodes_ s)) t)
                    <$> seqZ 0 (get_num_threads K))).
Proof.
  intros HT Hc. unfold call_hooks.
  rewrite <- (Z2Nat.id (get_num_threads K)) at 1 2 by done.
  assert (Hk : (Z.to_nat (get_num_threads K) <= Z.to_nat (get_num_threads K))%nat)
    by done.
  revert Hk. generalize (Z.to_nat (get_num_threads K)) at 1 3 4. intros k.
  induction k as [|k IH]; intros Hk; [done|].
  rewrite seqZ_S, fold_left_app, IH by lia. cbn [fold_left].
  rewrite (fold_call_hook K) by (done || lia).
  rewrite fmap_app, concat_app. cbn. by rewrite app_nil_r.
Qed.

(** X9: [post_run_cleanup] and [finalize_nodes] walk the registry, not the
    thread-local lists; when the lists are current, the nodes they call for
    a thread are exactly the nodes on the list of that thread, in the order
    of the list, and the state is left as it is. *)
Theorem hook_passes_follow_lists K s :
  kernel_bounds K -> wf K s -> cache_current K s ->
  post_run_cleanup K s = Ok (calls_of_lists K (nodes_vec_ s)) s
  ∧ finalize_nodes K s = Ok (calls_of_lists K (nodes_vec_ s)) s.
Proof.
  intros HK Hwf [_ Hlists]. pose proof HK as [HT _ _ _ _].
  assert (E : call_hooks K s = Some (calls_of_lists K (nodes_vec_ s))).
  { rewrite call_hooks_lists by (lia || by apply containers_complete_wf).
    unfold calls_of_lists. do 2 f_equal. apply list_fmap_ext.
    intros i t Ht%list_elem_of_lookup_2%elem_of_seqZ. by rewrite Hlists by lia. }
  unfold post_run_cleanup, finalize_nodes. by rewrite E.
Qed.

Lemma neurons_and_device_listed_reachable rank :
  rank = 0 ∨ rank = 1 ->
  rtc (manager_step (two_by_two rank)) NodeManager_init
    (neurons_and_device_listed rank).
Proof.
  intros Hr. eapply rtc_r; [by apply neurons_and_device_reachable|].
  apply step_ensure_valid_thread_local_ids.
  destruct Hr as [-> | ->]; vm_compute; reflexivity.
Qed.

Lemma neurons_and_device_listed_current :
  cache_current (two_by_two 1) (neurons_and_device_listed 1).
Proof.
  split; [vm_compute; reflexivity|]. intros t Ht.
  assert (t = 0 ∨ t = 1) as [-> | ->] by (cbn in Ht; lia); vm_compute; reflexivity.
Qed.

Lemma hook_passes_follow_lists_witness :
  post_run_cleanup (two_by_two 1) (neurons_and_device_listed 1)
  = Ok [(0, 0%nat); (0, 2%nat); (0, 4%nat); (1, 1%nat); (1, 5%nat)]
      (neurons_and_device_listed 1).
Proof.
  destruct (hook_passes_follow_lists (two_by_two 1) (neurons_and_device_listed 1)
              (two_by_two_bounds 1 ltac:(lia))
              (wf_reachable _ _ (two_by_two_bounds 1 ltac:(lia))
                 (two_by_two_local_threads 1)
                 (neurons_and_device_listed_reachable 1 ltac:(right; reflexivity)))
              neurons_and_device_listed_current) as [E _].
  etrans; [exact E|]. vm_compute. reflexivity.
Defined.

(** ** Teardown destructs every node once *)

Lemma mapM_lookup {A} (l : list A) (k : nat) :
  (k <= length l)%nat ->
  mapM (λ i, if i <? 0 then None else l !! Z.to_nat i) (seqZ 0 (Z.of_nat k))
  = Some (take k l).
Proof.
  induction k as [|k IH]; intros Hk.
  - by rewrite take_0.
  - rewrite seqZ_S. apply mapM_Some. apply Forall2_app_inv_l.
    destruct (lookup_lt_is_Some_2 l k ltac:(lia)) as [x Hx].
    exists (take k l), [x]. split; [|split].
    + apply mapM_Some. apply IH. lia.
    + constructor; [|constructor].
      destruct (Z.ltb_spec (0 + Z.of_nat k) 0); [lia|].
      by replace (Z.to_nat (0 + Z.of_nat k)) with k by lia.
    + by erewrite take_S_r.
Qed.

Lemma thread_siblings_in_order x :
  mapM (get_thread_sibling x) (seqZ 0 (num_thread_siblings x))
  = Some (container_nodes_ x).
Proof.
  unfold get_thread_sibling, num_thread_siblings.
  rewrite mapM_lookup by done. by rewrite firstn_all.
Qed.

Lemma fold_destruct_node h entries : forall calls,
  fold_left (destruct_node h) entries (Some calls)
  = Some (calls ++ concat ((λ e : ptr * Z, container_nodes_ (deref h e.1) ++ [e.1])
                             <$> entries)).
Proof.
  induction entries as [|e entries IH]; intros calls; cbn [fold_left].
  - cbn. by rewrite app_nil_r.
  - unfold destruct_node at 2. rewrite thread_siblings_in_order, IH.
    cbn [fmap list_fmap concat]. by rewrite <- !app_assoc.
Qed.

Lemma destructed_nodes_owned h entries :
  concat ((λ e : ptr * Z, container_nodes_ (deref h e.1) ++ [e.1]) <$> entries)
  ≡ₚ owned_nodes h entries.
Proof.
  unfold owned_nodes. induction entries as [|e entries IH]; [done|].
  cbn [fmap list_fmap concat]. rewrite IH. unfold entry_nodes at 2.
  apply Permutation_app_tail. by rewrite Permutation_app_comm.
Qed.

(** X10: in every state the manager reaches from its initial state,
    [finalize] runs the destructor exactly once on every registered node and
    on every replica of a registered container, replicas before their
    container, and on no other node; afterwards the registry is empty, every
    GID resolves to a proxy, and a second teardown (the destructor of the
    manager) destructs nothing. The pool and the thread-local lists are left
    as they are. *)
Theorem finalize_destructs_once K s :
  kernel_bounds K -> local_threads_in_range K ->
  rtc (manager_step K) NodeManager_init s ->
  ∃ calls s',
    finalize s = Ok calls s'
    ∧ calls = concat ((λ e : ptr * Z, container_nodes_ (deref (heap s) e.1) ++ [e.1])
                        <$> nodes_ (local_nodes_ s))
    ∧ NoDup calls
    ∧ calls ≡ₚ owned_nodes (heap s) (nodes_ (local_nodes_ s))
    ∧ (∀ e, e ∈ nodes_ (local_nodes_ s) ->
         e.1 ∈ calls ∧ ∀ p, p ∈ container_nodes_ (deref (heap s) e.1) -> p ∈ calls)
    ∧ nodes_ (local_nodes_ s') = []
    ∧ (∀ g t, get_node g t s' = Ok (ProxyNode t g) s')
    ∧ finalize s' = Ok [] s'
    ∧ heap s' = heap s
    ∧ nodes_vec_ s' = nodes_vec_ s.
Proof.
  intros HK Hlaw Hs.
  destruct (invariants_reachable K s HK Hlaw Hs) as [_ [Hnd _]].
  unfold finalize, destruct_nodes_. rewrite fold_destruct_node. cbn [app].
  eexists _, _. split; [reflexivity|]. split; [reflexivity|].
  pose proof (destructed_nodes_owned (heap s) (nodes_ (local_nodes_ s))) as Hperm.
  split; [by rewrite Hperm|]. split; [done|]. split; [|done].
  intros e He.
  assert (Hin : ∀ p, p ∈ entry_nodes (heap s) e ->
            p ∈ concat ((λ e : ptr * Z, container_nodes_ (deref (heap s) e.1) ++ [e.1])
                          <$> nodes_ (local_nodes_ s))).
  { intros p Hp. rewrite Hperm. unfold owned_nodes. apply elem_of_concat_fmap.
    by exists e. }
  split.
  - apply Hin. apply list_elem_of_here.
  - intros p Hp. apply Hin. by apply list_elem_of_further.
Qed.

Lemma finalize_destructs_once_witness :
  ∃ calls s',
    finalize (neurons_and_device 1) = Ok calls s'
    ∧ NoDup calls
    ∧ get_node 1 0 s' = Ok (ProxyNode 0 1) s'
    ∧ finalize s' = Ok [] s'.
Proof.
  destruct (finalize_destructs_once (two_by_two 1) (neurons_and_device 1)
              (two_by_two_bounds 1 ltac:(lia)) (two_by_two_local_threads 1)
              (neurons_and_device_reachable 1 ltac:(right; reflexivity)))
    as (calls & s' & E & _ & Hnd & _ & _ & _ & Hproxy & Hagain & _).
  exists calls, s'. split; [exact E|]. split; [exact Hnd|].
  split; [exact (Hproxy 1 0)|exact Hagain].
Defined.

(** ** Lookup returns the node that was asked for *)

Lemma get_node_by_gid_Some a g c :
  get_node_by_gid a g = Some c -> (c, g) ∈ nodes_ a.
Proof.
  unfold get_node_by_gid. destruct (List.find _ _) as [[c' g']|] eqn:E; [|done].
  intros [= ->]. apply find_some in E as [Hin Hg]. cbn in Hg.
  apply Z.eqb_eq in Hg as ->. by apply list_elem_of_In.
Qed.

Lemma replicas_ok_updated h h' e :
  heap_updated h h' -> replicas_ok h e -> replicas_ok h' e.
Proof.
  intros [Hlen H] Hr t p. unfold replicas_ok in Hr.
  destruct (H e.1) as (_ & _ & _ & _ & _ & _ & _ & _ & ->). intros Hp.
  destruct (Hr t p Hp) as (Hv & Hg & Ht & Hc). rewrite Hlen.
  by destruct (H p) as (-> & _ & -> & _ & _ & _ & _ & _ & ->).
Qed.

Lemma replicas_ok_heap_app (h k : Heap) e :
  (e.1 < length h)%nat -> replicas_ok h e -> replicas_ok (h ++ k) e.
Proof.
  intros He Hr t p. rewrite deref_app_l by done. intros Hp.
  destruct (Hr t p Hp) as (Hv & Hg & Ht & Hc).
  rewrite deref_app_l by done. rewrite length_app. split; [lia|done].
Qed.

Lemma replicas_ok_placed_node K model mid s g x extra :
  0 <= get_num_threads K ->
  placed_node K model mid s g x extra ->
  replicas_ok (heap s ++ x :: extra) (length (heap s), gid_ x).
Proof.
  intros HT Hp t p. cbn [fst snd]. rewrite deref_fresh.
  destruct Hp as [Hloc|Hloc|sc|]; try done.
  rewrite container_nodes_container_node, gid_container_node.
  intros Hl. pose proof (lookup_lt_Some _ _ _ Hl) as Hlt.
  rewrite length_seq in Hlt. rewrite lookup_seq_lt in Hl by done.
  assert (p = (S (length (heap s)) + t)%nat) as -> by congruence. clear Hl.
  erewrite deref_extra.
  2:{ rewrite list_lookup_fmap, lookup_seqZ_lt by lia. done. }
  rewrite length_app. cbn [length]. rewrite length_fmap, length_seqZ.
  split; [lia|]. cbn. split; [done|]. split; [lia|done].
Qed.

Lemma replicas_ok_register K model mid s g x extra :
  0 <= get_num_threads K -> owns s ->
  placed_node K model mid s g x extra ->
  Forall (replicas_ok (heap s)) (nodes_ (local_nodes_ s)) ->
  Forall (replicas_ok (heap (register x extra s)))
    (nodes_ (local_nodes_ (register x extra s))).
Proof.
  intros HT [_ Hv] Hp Hall. cbn. apply Forall_app. split.
  - apply entries_valid_owned in Hv. rewrite Forall_forall in *. intros e He.
    apply replicas_ok_heap_app; [by apply Hv|by apply Hall].
  - apply Forall_singleton. by eapply replicas_ok_placed_node.
Qed.

Lemma replicas_ok_add_node K mid n s s' :
  kernel_bounds K -> n < 2 ^ 63 ->
  0 <= max_gid_ (local_nodes_ s) <= max_size K ->
  owns s ∧ Forall (replicas_ok (heap s)) (nodes_ (local_nodes_ s)) ->
  result_state (add_node K mid n s) = Some s' ->
  owns s' ∧ Forall (replicas_ok (heap s')) (nodes_ (local_nodes_ s')).
Proof.
  intros HK Hn Hm. pose proof HK as [HT _ _ _ _].
  apply (add_node_invariant K
           (λ s, owns s ∧ Forall (replicas_ok (heap s)) (nodes_ (local_nodes_ s))));
    try done.
  - intros model s1 g x extra [Ho Hall] _ Hp.
    split; [by eapply owns_register|eapply replicas_ok_register; try done; lia].
  - intros s1 g [Ho Hall] _. split; [by apply (owns_same s1)|done].
  - intros s1 [Ho Hall]. split; [by apply (owns_same s1)|done].
  - intros f l [Ho Hall]. split; [by apply (owns_same s)|done].
  - intros s1 [Ho Hall]. split; [by apply (owns_same s1)|done].
Qed.

Lemma replicas_ok_reachable K s :
  kernel_bounds K -> local_threads_in_range K ->
  rtc (manager_step K) NodeManager_init s ->
  wf K s ∧ owns s ∧ Forall (replicas_ok (heap s)) (nodes_ (local_nodes_ s)).
Proof.
  intros HK Hthr. revert s.
  apply (rtc_ind_r (R := manager_step K)
           (λ s, wf K s ∧ owns s
                 ∧ Forall (replicas_ok (heap s)) (nodes_ (local_nodes_ s)))).
  - split; [apply wf_init, HK|]. split; [apply owns_init|apply Forall_nil_2].
  - intros s1 s2 _ Hstep (Hwf & Ho & Hall).
    split; [by eapply wf_manager_step|].
    destruct (manager_step_frame K s1 s2 Hstep) as [(mid & n & Hn & H)|(Hu & Hl & _)].
    + eapply replicas_ok_add_node; try done. apply Hwf.
    + split; [by eapply owns_heap_updated|]. rewrite Hl.
      eapply Forall_impl; [exact Hall|]. intros e. by apply replicas_ok_updated.
Qed.

(** X11: in every state the manager reaches from its initial state,
    [get_node] never reads outside a container: it returns a node or a proxy,
    or throws [UnknownNode]. A node it returns for GID [g] and thread [t] is a
    node of the pool that carries GID [g] and has no thread siblings; it is
    the registered node itself, or else the replica of a container for a
    valid thread [t], which runs on thread [t]. *)
Theorem get_node_returns_requested_node K s g t :
  kernel_bounds K -> local_threads_in_range K ->
  rtc (manager_step K) NodeManager_init s ->
  (get_node g t s = Throw UnknownNode s
   ∨ get_node g t s = Ok (ProxyNode t g) s
   ∨ ∃ p, get_node g t s = Ok (LocalNode p) s)
  ∧ ∀ p, get_node g t s = Ok (LocalNode p) s ->
      (p < length (heap s))%nat
      ∧ gid_ (deref (heap s) p) = g
      ∧ num_thread_siblings (deref (heap s) p) = 0
      ∧ (get_node_by_gid (local_nodes_ s) g = Some p
         ∨ (0 <= t < get_num_threads K ∧ thread_ (deref (heap s) p) = t)).
Proof.
  intros HK Hthr Hs. pose proof HK as [HT _ _ _ _].
  destruct (replicas_ok_reachable K s HK Hthr Hs) as (Hwf & _ & Hrep).
  pose proof (wf_entries _ _ Hwf) as Hok. rewrite Forall_forall in Hok, Hrep.
  unfold get_node.
  destruct (get_node_by_gid (local_nodes_ s) g) as [c|] eqn:Hc;
    [|split; [by right; left|done]].
  pose proof (get_node_by_gid_Some _ _ _ Hc) as Hin.
  destruct (Hok _ Hin) as (Hv & Hg & Hshape). specialize (Hrep _ Hin).
  unfold replicas_ok in Hrep. cbn [fst snd] in *.
  destruct (Z.eqb_spec (num_thread_siblings (deref (heap s) c)) 0) as [H0|H0].
  { split; [right; right; by exists c|]. intros p [= <-]. by repeat split; [..|left]. }
  destruct Hshape as [[Hnil _]|Hcont].
  { unfold num_thread_siblings in H0. by rewrite Hnil in H0. }
  rewrite Hcont, to_thread_small by lia.
  destruct (Z.ltb_spec t 0) as [Hneg|Hpos]; [split; [by left|done]|].
  destruct (Z.leb_spec (get_num_threads K) t) as [Hbig|Hsmall];
    [split; [by left|done]|]. cbn [orb].
  unfold get_thread_sibling. destruct (Z.ltb_spec t 0); [lia|].
  destruct (lookup_lt_is_Some_2 (container_nodes_ (deref (heap s) c)) (Z.to_nat t))
    as [p Hp]; [unfold num_thread_siblings in Hcont; lia|].
  rewrite Hp. split; [right; right; by exists p|]. intros p' [= <-].
  destruct (Hrep _ _ Hp) as (Hpv & Hpg & Hpt & Hpc).
  split; [done|]. split; [done|]. split.
  - unfold num_thread_siblings. by rewrite Hpc.
  - right. split; [lia|]. rewrite Hpt. lia.
Qed.

Lemma get_node_returns_requested_node_witness :
  (get_node 6 1 (neurons_and_device 1) = Throw UnknownNode (neurons_and_device 1)
   ∨ get_node 6 1 (neurons_and_device 1) = Ok (ProxyNode 1 6) (neurons_and_device 1)
   ∨ ∃ p, get_node 6 1 (neurons_and_device 1) = Ok (LocalNode p) (neurons_and_device 1))
  ∧ gid_ (deref (heap (neurons_and_device 1)) 5) = 6.
Proof.
  destruct (get_node_returns_requested_node (two_by_two 1) (neurons_and_device 1) 6 1
              (two_by_two_bounds 1 ltac:(lia)) (two_by_two_local_threads 1)
              (neurons_and_device_reachable 1 ltac:(right; reflexivity)))
    as [Hcases Hsound].
  split; [exact Hcases|].
  refine (proj1 (proj2 (Hsound 5%nat _))). vm_compute. reflexivity.
Defined.

(** ** Every node the registry owns is reset once *)

Lemma model_id_container_node sc gid l : model_id_ (container_node sc gid l) = -1.
Proof. unfold container_node. by rewrite model_id_push_backs. Qed.

Lemma container_model_updated h h' e :
  heap_updated h h' -> container_model h e -> container_model h' e.
Proof.
  intros [_ H]. unfold container_model, num_thread_siblings.
  by destruct (H e.1) as (_ & -> & _ & _ & _ & _ & _ & _ & ->).
Qed.

Lemma container_model_placed_node K model mid s g x extra :
  placed_node K model mid s g x extra ->
  container_model (heap s ++ x :: extra) (length (heap s), gid_ x).
Proof.
  intros Hp. unfold container_model. cbn [fst]. rewrite deref_fresh.
  destruct Hp as [Hloc|Hloc|sc|]; try done.
  intros _. apply model_id_container_node.
Qed.

Lemma containers_model_add_node K mid n s s' :
  kernel_bounds K -> n < 2 ^ 63 ->
  0 <= max_gid_ (local_nodes_ s) <= max_size K ->
  owns s ∧ Forall (container_model (heap s)) (nodes_ (local_nodes_ s)) ->
  result_state (add_node K mid n s) = Some s' ->
  owns s' ∧ Forall (container_model (heap s')) (nodes_ (local_nodes_ s')).
Proof.
  intros HK Hn Hm. pose proof HK as [HT _ _ _ _].
  apply (add_node_invariant K
           (λ s, owns s ∧ Forall (container_model (heap s)) (nodes_ (local_nodes_ s))));
    try done.
  - intros model s1 g x extra [Ho Hall] _ Hp.
    split; [by eapply owns_register|]. cbn. apply Forall_app. split.
    + destruct Ho as [_ Hv]. rewrite Forall_forall in *. intros e He.
      pose proof (entry_nodes_valid _ _ _ Hv He) as [Hev _]%Forall_cons.
      unfold container_model. rewrite deref_app_l by done. by apply Hall.
    + apply Forall_singleton. by eapply container_model_placed_node.
  - intros s1 g [Ho Hall] _. split; [by apply (owns_same s1)|done].
  - intros s1 [Ho Hall]. split; [by apply (owns_same s1)|done].
  - intros f l [Ho Hall]. split; [by apply (owns_same s)|done].
  - intros s1 [Ho Hall]. split; [by apply (owns_same s1)|done].
Qed.

Lemma containers_model_reachable K s :
  kernel_bounds K -> local_threads_in_range K ->
  rtc (manager_step K) NodeManager_init s ->
  wf K s ∧ owns s ∧ Forall (container_model (heap s)) (nodes_ (local_nodes_ s)).
Proof.
  intros HK Hthr. revert s.
  apply (rtc_ind_r (R := manager_step K)
           (λ s, wf K s ∧ owns s
                 ∧ Forall (container_model (heap s)) (nodes_ (local_nodes_ s)))).
  - split; [apply wf_init, HK|]. split; [apply owns_init|apply Forall_nil_2].
  - intros s1 s2 _ Hstep (Hwf & Ho & Hall).
    split; [by eapply wf_manager_step|].
    destruct (manager_step_frame K s1 s2 Hstep) as [(mid & n & Hn & H)|(Hu & Hl & _)].
    + eapply containers_model_add_node; try done. apply Hwf.
    + split; [by eapply owns_heap_updated|]. rewrite Hl.
      eapply Forall_impl; [exact Hall|]. intros e. by apply container_model_updated.
Qed.

(** What a reset does to the nodes of a registry that owns each node once and
    whose containers carry the model id [-1]. *)
Lemma reset_nodes_state_effect s :
  owns s -> Forall (container_model (heap s)) (nodes_ (local_nodes_ s)) ->
  (∀ e p, e ∈ nodes_ (local_nodes_ s) ->
     (num_thread_siblings (deref (heap s) e.1) = 0 ∧ p = e.1)
     ∨ p ∈ container_nodes_ (deref (heap s) e.1) ->
     deref (heap (reset_nodes_state s)) p
     = set_buffers_initialized false (count_init_state (deref (heap s) p)))
  ∧ (∀ e, e ∈ nodes_ (local_nodes_ s) ->
       num_thread_siblings (deref (heap s) e.1) ≠ 0 ->
       deref (heap (reset_nodes_state s)) e.1 = deref (heap s) e.1)
  ∧ (∀ p, p ∉ owned_nodes (heap s) (nodes_ (local_nodes_ s)) ->
       deref (heap (reset_nodes_state s)) p = deref (heap s) p).
Proof.
  intros [Hnd Hv] Hmodel.
  rewrite Forall_forall in Hmodel. rewrite Forall_forall in Hv.
  set (targets := concat (reset_targets (heap s) <$> nodes_ (local_nodes_ s))).
  assert (Hsub : targets `sublist_of` owned_nodes (heap s) (nodes_ (local_nodes_ s)))
    by apply reset_targets_owned.
  assert (Hndt : NoDup targets) by (by eapply sublist_NoDup).
  assert (Hmem : ∀ e p, e ∈ nodes_ (local_nodes_ s) ->
            p ∈ reset_targets (heap s) e -> p ∈ targets).
  { intros e p He Hp. apply list_elem_of_In, in_concat.
    exists (reset_targets (heap s) e). split; [|by apply list_elem_of_In].
    apply list_elem_of_In, list_elem_of_fmap. by exists e. }
  split; [|split].
  - intros e p He Hp.
    assert (Hin : p ∈ targets).
    { apply (Hmem e); [done|]. unfold reset_targets.
      destruct Hp as [[H0 ->]|Hp].
      - rewrite H0. apply list_elem_of_here.
      - destruct (Z.eqb_spec (num_thread_siblings (deref (heap s) e.1)) 0) as [H0|H0].
        + unfold num_thread_siblings in H0.
          destruct (container_nodes_ (deref (heap s) e.1)); [by apply elem_of_nil in Hp|].
          cbn in H0. lia.
        + by rewrite (Hmodel e He H0). }
    cbn. rewrite fold_reset_node. fold targets.
    rewrite deref_reset_all; [by rewrite bool_decide_eq_true_2|done|].
    apply Hv. by eapply elem_of_sublist.
  - intros e He Hc. cbn. rewrite fold_reset_node. apply deref_reset_all_outside.
    by apply container_not_reset.
  - intros p Hp. cbn. rewrite fold_reset_node. apply deref_reset_all_outside.
    intros Hin. apply Hp. by eapply elem_of_sublist.
Qed.

Lemma owned_nodes_reset_nodes_state s :
  owned_nodes (heap (reset_nodes_state s)) (nodes_ (local_nodes_ s))
  = owned_nodes (heap s) (nodes_ (local_nodes_ s)).
Proof. apply owned_nodes_updated, heap_updated_reset_nodes_state. Qed.

(** X3: in every state the manager reaches from its initial state,
    [reset_nodes_state] resets every node the registry owns but the
    containers: every registered plain node and every replica of a registered
    container. On each of them it calls [init_state()] exactly once and then
    marks the buffers as not initialized; it writes nothing else to the node.
    The containers themselves, every node of the pool that the registry does
    not own, the registry, the thread-local lists and the recorded network
    size are left as they are. [reinit_nodes] does the same. *)
Theorem reset_nodes_state_clears_buffers K s :
  kernel_bounds K -> local_threads_in_range K ->
  rtc (manager_step K) NodeManager_init s ->
  (∀ e p, e ∈ nodes_ (local_nodes_ s) ->
     (num_thread_siblings (deref (heap s) e.1) = 0 ∧ p = e.1)
     ∨ p ∈ container_nodes_ (deref (heap s) e.1) ->
     deref (heap (reset_nodes_state s)) p
     = set_buffers_initialized false (count_init_state (deref (heap s) p)))
  ∧ (∀ e, e ∈ nodes_ (local_nodes_ s) ->
       num_thread_siblings (deref (heap s) e.1) ≠ 0 ->
       deref (heap (reset_nodes_state s)) e.1 = deref (heap s) e.1)
  ∧ (∀ p, p ∉ owned_nodes (heap s) (nodes_ (local_nodes_ s)) ->
       deref (heap (reset_nodes_state s)) p = deref (heap s) p)
  ∧ length (heap (reset_nodes_state s)) = length (heap s)
  ∧ local_nodes_ (reset_nodes_state s) = local_nodes_ s
  ∧ nodes_vec_ (reset_nodes_state s) = nodes_vec_ s
  ∧ nodes_vec_network_size_ (reset_nodes_state s) = nodes_vec_network_size_ s
  ∧ reinit_nodes s = reset_nodes_state s.
Proof.
  intros HK Hthr Hs.
  destruct (containers_model_reachable K s HK Hthr Hs) as (_ & Ho & Hmodel).
  destruct (reset_nodes_state_effect s Ho Hmodel) as (H1 & H2 & H3).
  split; [exact H1|]. split; [exact H2|]. split; [exact H3|].
  split; [apply heap_updated_reset_nodes_state|done].
Qed.

Lemma reset_nodes_state_clears_buffers_witness :
  n_init_state_ (deref (heap (reset_nodes_state (neurons_and_device 1))) 1) = 1%nat
  ∧ buffers_initialized_
      (deref (heap (reset_nodes_state (neurons_and_device 1))) 4) = false
  ∧ n_init_state_ (deref (heap (reset_nodes_state (neurons_and_device 1))) 3) = 0%nat.
Proof.
  destruct (reset_nodes_state_clears_buffers (two_by_two 1) (neurons_and_device 1)
              (two_by_two_bounds 1 ltac:(lia)) (two_by_two_local_threads 1)
              (neurons_and_device_reachable 1 ltac:(right; reflexivity)))
    as (Hreset & Hcont & _).
  split; [|split].
  - rewrite (Hreset (1%nat, 3) 1%nat).
    + vm_compute. reflexivity.
    + vm_compute. apply list_elem_of_In. cbn. tauto.
    + left. split; vm_compute; reflexivity.
  - rewrite (Hreset (3%nat, 6) 4%nat).
    + vm_compute. reflexivity.
    + vm_compute. apply list_elem_of_In. cbn. tauto.
    + right. vm_compute. apply list_elem_of_In. cbn. tauto.
  - refine (eq_trans (f_equal n_init_state_ (Hcont (3%nat, 6) _ _)) _).
    + vm_compute. apply list_elem_of_In. cbn. tauto.
    + vm_compute. discriminate.
    + vm_compute. reflexivity.
Defined.

(** X4: in every state the manager reaches from its initial state, a second
    [reset_nodes_state] differs from the first in one thing only: it calls
    [init_state()] once more on each node the first one has reset. The
    buffers of these nodes stay marked as not initialized, and the containers,
    the nodes the registry does not own, the registry and the thread-local
    lists are as they were before the first reset. *)
Theorem reset_nodes_state_twice K s :
  kernel_bounds K -> local_threads_in_range K ->
  rtc (manager_step K) NodeManager_init s ->
  (∀ e p, e ∈ nodes_ (local_nodes_ s) ->
     (num_thread_siblings (deref (heap s) e.1) = 0 ∧ p = e.1)
     ∨ p ∈ container_nodes_ (deref (heap s) e.1) ->
     deref (heap (reset_nodes_state (reset_nodes_state s))) p
     = count_init_state (deref (heap (reset_nodes_state s)) p)
     ∧ buffers_initialized_
         (deref (heap (reset_nodes_state (reset_nodes_state s))) p) = false)
  ∧ (∀ e, e ∈ nodes_ (local_nodes_ s) ->
       num_thread_siblings (deref (heap s) e.1) ≠ 0 ->
       deref (heap (reset_nodes_state (reset_nodes_state s))) e.1
       = deref (heap s) e.1)
  ∧ (∀ p, p ∉ owned_nodes (heap s) (nodes_ (local_nodes_ s)) ->
       deref (heap (reset_nodes_state (reset_nodes_state s))) p
       = deref (heap s) p)
  ∧ local_nodes_ (reset_nodes_state (reset_nodes_state s)) = local_nodes_ s
  ∧ nodes_vec_ (reset_nodes_state (reset_nodes_state s)) = nodes_vec_ s
  ∧ nodes_vec_network_size_ (reset_nodes_state (reset_nodes_state s))
    = nodes_vec_network_size_ s.
Proof.
  intros HK Hthr Hs.
  destruct (containers_model_reachable K s HK Hthr Hs) as (_ & Ho & Hmodel).
  destruct (reset_nodes_state_effect s Ho Hmodel) as (H1 & H2 & H3).
  pose proof (heap_updated_reset_nodes_state s) as Hu.
  assert (Ho1 : owns (reset_nodes_state s)) by (by eapply owns_heap_updated).
  assert (Hmodel1 : Forall (container_model (heap (reset_nodes_state s)))
                      (nodes_ (local_nodes_ (reset_nodes_state s)))).
  { eapply Forall_impl; [exact Hmodel|]. intros e. by apply container_model_updated. }
  destruct (reset_nodes_state_effect (reset_nodes_state s) Ho1 Hmodel1)
    as (G1 & G2 & G3).
  assert (Hsame : ∀ q, container_nodes_ (deref (heap (reset_nodes_state s)) q)
                       = container_nodes_ (deref (heap s) q)).
  { intros q. destruct Hu as [_ Hu]. by destruct (Hu q) as (_ & _ & _ & _ & _ & _ & _ & _ & ->). }
  split; [|split; [|split]].
  - intros e p He Hp.
    assert (E : deref (heap (reset_nodes_state (reset_nodes_state s))) p
                = set_buffers_initialized false
                    (count_init_state (deref (heap (reset_nodes_state s)) p))).
    { apply (G1 e p He). unfold num_thread_siblings. rewrite Hsame. exact Hp. }
    rewrite E, (H1 e p He Hp). split; [|done]. by destruct (deref (heap s) p).
  - intros e He Hc. rewrite (G2 e He), (H2 e He Hc); [done|].
    unfold num_thread_siblings. by rewrite Hsame.
  - intros p Hp. rewrite G3, H3; [done|done|].
    change (nodes_ (local_nodes_ (reset_nodes_state s)))
      with (nodes_ (local_nodes_ s)).
    by rewrite owned_nodes_reset_nodes_state.
  - done.
Qed.

Lemma reset_nodes_state_twice_witness :
  n_init_state_
    (deref (heap (reset_nodes_state (reset_nodes_state (neurons_and_device 1)))) 5)
  = 2%nat.
Proof.
  destruct (reset_nodes_state_twice (two_by_two 1) (neurons_and_device 1)
              (two_by_two_bounds 1 ltac:(lia)) (two_by_two_local_threads 1)
              (neurons_and_device_reachable 1 ltac:(right; reflexivity)))
    as (Htwice & _).
  destruct (Htwice (3%nat, 6) 5%nat) as [E _].
  - vm_compute. apply list_elem_of_In. cbn. tauto.
  - right. vm_compute. apply list_elem_of_In. cbn. tauto.
  - rewrite E. vm_compute. reflexivity.
Defined.

(** ** Lookups of existing GIDs survive further calls of [add_node] *)

Lemma get_node_by_gid_extended s s' g :
  extended s s' -> g <= max_gid_ (local_nodes_ s) ->
  get_node_by_gid (local_nodes_ s') g = get_node_by_gid (local_nodes_ s) g.
Proof.
  intros [_ [new Hnew] Hgids _ _ _ _] Hg. unfold get_node_by_gid, new_entries in *.
  rewrite Hnew in *. rewrite drop_app_length in Hgids.
  destruct (List.find _ (nodes_ (local_nodes_ s))) as [e|] eqn:E.
  - by rewrite (find_app_Some _ _ _ _ E).
  - rewrite (find_app_None _ _ _ E). f_equal.
    clear Hnew E. induction Hgids as [|e l He _ IH]; cbn; [done|].
    destruct (Z.eqb_spec e.2 g); [lia|exact IH].
Qed.

Lemma get_node_valid K s g t p :
  wf K s -> Forall (replicas_ok (heap s)) (nodes_ (local_nodes_ s)) ->
  get_node g t s = Ok (LocalNode p) s -> (p < length (heap s))%nat.
Proof.
  intros Hwf Hrep. pose proof (wf_entries _ _ Hwf) as Hok.
  rewrite Forall_forall in Hok, Hrep. unfold get_node.
  destruct (get_node_by_gid (local_nodes_ s) g) as [c|] eqn:Hc; [|done].
  pose proof (get_node_by_gid_Some _ _ _ Hc) as Hin.
  destruct (Hok _ Hin) as (Hv & _). specialize (Hrep _ Hin).
  unfold replicas_ok in Hrep. cbn [fst snd] in *.
  destruct (_ =? 0); [by intros [= <-]|]. destruct (_ || _); [done|].
  unfold get_thread_sibling. destruct (t <? 0); [done|].
  destruct (container_nodes_ (deref (heap s) c) !! Z.to_nat t) as [q|] eqn:Hq; [|done].
  intros [= <-]. by destruct (Hrep _ _ Hq).
Qed.

(** X12: in every state the manager reaches from its initial state, a
    further call of [add_node], whether it returns or throws, leaves the
    lookup of every GID of the network as it was: [get_node] gives the same
    proxy, the same node or the same [UnknownNode] as before, and a node it
    gives is untouched. *)
Theorem add_node_keeps_lookups K s mid n s' g t :
  kernel_bounds K -> local_threads_in_range K ->
  rtc (manager_step K) NodeManager_init s ->
  n < 2 ^ 63 -> result_state (add_node K mid n s) = Some s' ->
  g <= size s ->
  (∀ r, get_node g t s = Ok r s -> get_node g t s' = Ok r s')
  ∧ (get_node g t s = Throw UnknownNode s -> get_node g t s' = Throw UnknownNode s')
  ∧ (∀ p, get_node g t s = Ok (LocalNode p) s ->
          deref (heap s') p = deref (heap s) p).
Proof.
  intros HK Hthr Hs Hn Hadd Hg. unfold size, get_max_gid in Hg.
  destruct (replicas_ok_reachable K s HK Hthr Hs) as (Hwf & _ & Hrep).
  pose proof (wf_entries _ _ Hwf) as Hok. rewrite Forall_forall in Hok.
  pose proof (extended_add_node K mid n s s' HK Hn (wf_max_gid _ _ Hwf) Hadd) as Hext.
  pose proof (ext_heap _ _ Hext) as [k Hk].
  assert (Hderef : ∀ p, (p < length (heap s))%nat ->
            deref (heap s') p = deref (heap s) p).
  { intros p Hp. rewrite Hk. by apply deref_app_l. }
  assert (Hsame : get_node g t s' =
            match get_node g t s with
            | Ok r _ => Ok r s'
            | Throw e _ => Throw e s'
            | Fault f => Fault f
            end).
  { unfold get_node. rewrite (get_node_by_gid_extended s s' g Hext Hg).
    destruct (get_node_by_gid (local_nodes_ s) g) as [c|] eqn:Hc; [|done].
    destruct (Hok _ (get_node_by_gid_Some _ _ _ Hc)) as (Hv & _).
    rewrite (Hderef c Hv).
    destruct (_ =? 0); [done|]. destruct (_ || _); [done|].
    by destruct (get_thread_sibling _ _). }
  split; [|split].
  - intros r Hr. by rewrite Hsame, Hr.
  - intros Hr. by rewrite Hsame, Hr.
  - intros p Hp. apply Hderef. by apply (get_node_valid K s g t p).
Qed.

Lemma add_node_keeps_lookups_witness :
  get_node 3 0 (neurons_and_device 1) = Ok (LocalNode 1%nat) (neurons_and_device 1)
  ∧ deref (heap (neurons_and_device 1)) 1 = deref (heap (five_neurons 1)) 1.
Proof.
  destruct (add_node_keeps_lookups (two_by_two 1) (five_neurons 1) 2 1
              (neurons_and_device 1) 3 0
              (two_by_two_bounds 1 ltac:(lia)) (two_by_two_local_threads 1))
    as (Hok & _ & Hnode).
  - eapply rtc_l; [apply (step_add_node _ 1 5); [lia|vm_compute; reflexivity]|].
    apply rtc_refl.
  - lia.
  - vm_compute. reflexivity.
  - vm_compute. discriminate.
  - split.
    + apply Hok. vm_compute. reflexivity.
    + apply Hnode. vm_compute. reflexivity.
Defined.

(** ** Start-up *)

(** X13: [initialize] fails its assertions unless model 0 exists and is
    named siblingcontainer. Otherwise it records the network size 0 and calls
    [ensure_valid_thread_local_ids], which compares the size of the network
    with that record: on a network without nodes the thread-local lists are
    left exactly as they are, and on a network with nodes they are rebuilt
    from the registry. *)
Theorem initialize_rebuilds_nonempty_network K get_name s :
  (siblingcontainer_model_ K = None ->
     initialize K get_name s = Fault AssertionFailed)
  ∧ (∀ m, siblingcontainer_model_ K = Some m ->
          get_name m ≠ "siblingcontainer"%string ->
          initialize K get_name s = Fault AssertionFailed)
  ∧ (∀ m, siblingcontainer_model_ K = Some m ->
          get_name m = "siblingcontainer"%string ->
          (size s = 0 ->
             initialize K get_name s = Ok tt (with_nodes_vec_network_size 0 s))
          ∧ (kernel_bounds K -> wf K s -> size s ≠ 0 ->
             ∃ s', initialize K get_name s = Ok tt s'
               ∧ cache_current K s'
               ∧ Z.of_nat (length (nodes_vec_ s')) = get_num_threads K
               ∧ local_nodes_ s' = local_nodes_ s)).
Proof.
  unfold initialize. split; [by intros ->|]. split.
  - intros m -> Hname. apply String.eqb_neq in Hname. by rewrite Hname.
  - intros m -> Hname. apply String.eqb_eq in Hname. rewrite Hname. cbn [negb].
    split.
    + intros Hsize. by apply ensure_valid_current.
    + intros HK Hwf Hsize. pose proof HK as [HT _ _ _ _].
      set (s0 := with_nodes_vec_network_size 0 s).
      assert (Hwf0 : wf K s0) by (by apply (wf_same K s)).
      destruct (cache_current_rebuilt K s0 HK Hwf0 Hsize) as (s' & E & Hc & Hnv).
      exists s'. split; [done|]. split; [done|]. split.
      * rewrite Hnv, length_fmap, length_seqZ. lia.
      * destruct (ensure_valid_rebuilds K s0) as (s2 & E2 & _ & _ & Hl & _);
          [lia|done|by apply containers_complete_wf|].
        rewrite E in E2. by injection E2 as <-.
Qed.

(** ** Setting the status of a node *)

Section StatusProperties.
Context (Dict : Type).
Context (clear_access_flags : Dict -> Dict).
Context (all_entries_accessed : Dict -> bool).
Context (is_proxy : Node -> bool).
Context (set_status_base : Node -> Dict -> option string * Node * Dict).
Context (clear_flags_default : bool).

Local Abbreviation single_node :=
  (set_status_single_node_ Dict clear_access_flags all_entries_accessed is_proxy
     set_status_base).
Local Abbreviation siblings_loop :=
  (set_status_siblings Dict clear_access_flags all_entries_accessed is_proxy
     set_status_base clear_flags_default).

(** One call touches the target only. *)
Lemma set_status_single_node_frame target d b (h : Heap) :
  length (single_node target d b h).1.2 = length h
  ∧ ∀ q, q ≠ target -> deref (single_node target d b h).1.2 q = deref h q.
Proof.
  unfold set_status_single_node_. destruct (negb _); [|done].
  destruct (set_status_base _ _) as [[[e|] x] d'];
    [|destruct (all_entries_accessed d')];
    cbn; (split; [apply length_store|intros q Hq; by apply deref_store_ne]).
Qed.

Lemma set_status_each_frame sibs : forall d (h : Heap) visited,
  let r := set_status_each (λ q d h, single_node q d clear_flags_default h)
             sibs d h visited in
  length r.1.1.2 = length h
  ∧ (∃ done, r.2 = visited ++ done ∧ done `prefix_of` sibs
       ∧ (r.1.1.1 = None -> done = sibs)
       ∧ ∀ q, q ∉ done -> deref r.1.1.2 q = deref h q).
Proof.
  induction sibs as [|p sibs IH]; intros d h visited; cbn.
  - split; [done|]. exists []. rewrite app_nil_r. by repeat split.
  - destruct (set_status_single_node_frame p d clear_flags_default h) as [Hlen Hframe].
    destruct (single_node p d clear_flags_default h) as [[[e|] h1] d1]; cbn in *.
    + split; [done|]. exists [p]. split; [done|]. split.
      * by apply prefix_cons, prefix_nil.
      * split; [done|]. intros q Hq. apply Hframe. by intros ->; apply Hq, list_elem_of_here.
    + destruct (IH d1 h1 (visited ++ [p])) as (Hlen' & done & Hv & Hpre & Hall & Hout).
      split; [congruence|]. exists (p :: done).
      split; [by rewrite Hv, <- app_assoc|]. split; [by apply prefix_cons|].
      split; [intros He; by rewrite (Hall He)|].
      intros q [Hne Hq]%not_elem_of_cons. by rewrite (Hout q Hq), Hframe.
Qed.

(** With the container out of reach of the calls, the loop that reads its
    bound in every round is the loop over the replicas listed at the start. *)
Lemma set_status_siblings_each target fuel : forall t d (h : Heap) visited,
  target ∉ container_nodes_ (deref h target) ->
  (length (container_nodes_ (deref h target)) <= fuel + t)%nat ->
  siblings_loop fuel target (Z.of_nat t) d h visited
  = Some (set_status_each (λ q d h, single_node q d clear_flags_default h)
            (drop t (container_nodes_ (deref h target))) d h visited).
Proof.
  induction fuel as [|fuel IH]; intros t d h visited Hself Hfuel;
    cbn [set_status_siblings]; unfold num_thread_siblings.
  - destruct (Z.ltb_spec (Z.of_nat t) (Z.of_nat (length (container_nodes_ (deref h target)))));
      [lia|].
    by rewrite drop_ge by lia.
  - destruct (Z.ltb_spec (Z.of_nat t) (Z.of_nat (length (container_nodes_ (deref h target)))))
      as [Hlt|Hge]; [|by rewrite drop_ge by lia].
    unfold get_thread_sibling. destruct (Z.ltb_spec (Z.of_nat t) 0); [lia|].
    rewrite Nat2Z.id.
    destruct (lookup_lt_is_Some_2 (container_nodes_ (deref h target)) t ltac:(lia))
      as [p Hp].
    rewrite Hp, (drop_S _ _ _ Hp). cbn [set_status_each].
    destruct (set_status_single_node_frame p d clear_flags_default h) as [_ Hframe].
    destruct (single_node p d clear_flags_default h) as [[[e|] h1] d1]; [done|].
    cbn in Hframe.
    assert (Hne : target ≠ p).
    { intros ->. apply Hself. by eapply list_elem_of_lookup_2. }
    assert (Ht : deref h1 target = deref h target) by (by apply Hframe).
    replace (Z.of_nat t + 1) with (Z.of_nat (S t)) by lia.
    rewrite IH; rewrite Ht; [done|done|lia].
Qed.

Lemma NoDup_entry_nodes (h : Heap) entries e :
  NoDup (owned_nodes h entries) -> e ∈ entries -> NoDup (entry_nodes h e).
Proof.
  unfold owned_nodes. induction entries as [|e0 entries IH]; intros Hnd He.
  - by apply elem_of_nil in He.
  - cbn [fmap list_fmap concat] in Hnd. apply NoDup_app in Hnd as (Hnd1 & _ & Hnd2).
    apply elem_of_cons in He as [->|He]; [done|by apply IH].
Qed.

(** What one call does depends on the target only. *)
Lemma set_status_single_node_same target d b (h h' : Heap) :
  (target < length h)%nat -> length h' = length h ->
  deref h' target = deref h target ->
  (single_node target d b h').1.1 = (single_node target d b h).1.1
  ∧ (single_node target d b h').2 = (single_node target d b h).2
  ∧ deref (single_node target d b h').1.2 target
    = deref (single_node target d b h).1.2 target.
Proof.
  intros Hv Hlen Heq. unfold set_status_single_node_. rewrite Heq.
  destruct (negb _); [|done].
  destruct (set_status_base _ _) as [[[e|] x] d'];
    [|destruct (all_entries_accessed d')];
    cbn; by rewrite !deref_store_eq by lia.
Qed.

(** The loop over the replicas [sibs], none listed twice: the calls it makes,
    each on the node as it was when the loop started and with the dictionary
    the call before it left. *)
Lemma set_status_each_trace sibs : forall d (h : Heap) visited,
  NoDup sibs -> Forall (λ q, (q < length h)%nat) sibs ->
  let r := set_status_each (λ q d h, single_node q d clear_flags_default h)
             sibs d h visited in
  ∃ done ds,
    r.2 = visited ++ done
    ∧ done `prefix_of` sibs
    ∧ (done = [] -> r.1.1.1 = None)
    ∧ (∀ q, q ∉ done -> deref r.1.1.2 q = deref h q)
    ∧ length r.1.1.2 = length h
    ∧ length ds = S (length done)
    ∧ ds !! 0%nat = Some d
    ∧ last ds = Some r.1.2
    ∧ ∀ (i : nat) p di, done !! i = Some p -> ds !! i = Some di ->
        deref r.1.1.2 p = deref (single_node p di clear_flags_default h).1.2 p
        ∧ ds !! S i = Some (single_node p di clear_flags_default h).2
        ∧ (single_node p di clear_flags_default h).1.1
          = if decide (S i = length done) then r.1.1.1 else None.
Proof.
  induction sibs as [|p sibs IH]; intros d h visited Hnd Hv; cbn.
  - exists [], [d]. rewrite app_nil_r. by repeat split.
  - apply NoDup_cons in Hnd as [Hp Hnd]. apply Forall_cons in Hv as [Hpv Hv].
    destruct (set_status_single_node_frame p d clear_flags_default h)
      as [Hlen Hframe].
    destruct (single_node p d clear_flags_default h) as [[[e|] h1] d1] eqn:E;
      cbn in Hlen, Hframe.
    + exists [p], [d; d1]. cbn. split; [done|].
      split; [by apply prefix_cons, prefix_nil|]. split; [done|]. split.
      { intros q Hq. apply Hframe. by intros ->; apply Hq, list_elem_of_here. }
      do 4 (split; [done|]). intros [|i] q di; [|done]. intros [= <-] [= <-].
      by rewrite E.
    + assert (Hv1 : Forall (λ q, (q < length h1)%nat) sibs) by (by rewrite Hlen).
      destruct (IH d1 h1 (visited ++ [p]) Hnd Hv1)
        as (done & ds & Hvis & Hpre & Hnil & Hout & Hlen' & Hds & Hd0 & Hlast & Htrace).
      exists (p :: done), (d :: ds). cbn [length].
      split; [by rewrite Hvis, <- app_assoc|]. split; [by apply prefix_cons|].
      split; [done|]. split.
      { intros q [Hne Hq]%not_elem_of_cons. by rewrite (Hout q Hq), Hframe. }
      split; [congruence|]. split; [by rewrite Hds|]. split; [done|]. split.
      { rewrite last_cons, Hlast. done. }
      assert (Hpd : p ∉ done).
      { intros Hin. apply Hp. destruct Hpre as [k ->]. apply elem_of_app. by left. }
      intros [|i] q di.
      * intros [= <-] [= <-]. rewrite E. cbn. rewrite (Hout p Hpd).
        split; [done|]. split; [done|].
        destruct (decide (1%nat = S (length done))) as [Hd|Hd]; [|done].
        symmetry. apply Hnil. destruct done; [done|cbn in Hd; lia].
      * cbn [lookup list_lookup]. intros Hq Hdi.
        destruct (Htrace i q di Hq Hdi) as (H1 & H2 & H3).
        assert (Hqs : q ∈ sibs).
        { destruct Hpre as [k ->]. apply elem_of_app. left.
          by eapply list_elem_of_lookup_2. }
        assert (Hne : q ≠ p) by (by intros ->).
        rewrite Forall_forall in Hv.
        destruct (set_status_single_node_same q di clear_flags_default h h1
                    (Hv q Hqs) Hlen (Hframe q Hne)) as (S1 & S2 & S3).
        rewrite <- S1, <- S2, <- S3. split; [done|]. split; [done|].
        rewrite H3. destruct (decide (S i = length done)), (decide (S (S i) = S (length done)));
          done || lia.
Qed.

Lemma with_heap_heap s : with_heap (heap s) s = s.
Proof. by destruct s. Qed.

(** X14: in every state the manager reaches from its initial state,
    [set_status] for a GID that is not local does nothing at all; for a local
    GID it hands to [set_status_single_node_] the registered plain node, or
    the replicas of the container in thread order (the nodes [get_node]
    gives for the threads of the process), never the container itself. Each
    call finds its node as it was before [set_status] and the dictionary as
    the call before it left it, and the node stays as that call leaves it.
    The loop stops at the first call that raises, and that exception is the
    one [set_status] raises; when no call raises, every target has been
    visited. No node that has not been visited is touched, and the registry
    and the thread-local lists stay as they are. The loop over the replicas
    ends within as many rounds as the process has threads. *)
Theorem set_status_visits_node_or_replicas K s gid d fuel :
  kernel_bounds K -> local_threads_in_range K ->
  rtc (manager_step K) NodeManager_init s ->
  (Z.to_nat (get_num_threads K) <= fuel)%nat ->
  ∃ e s' d' visited,
    set_status Dict clear_access_flags all_entries_accessed is_proxy
      set_status_base clear_flags_default fuel gid d s
    = Some (e, s', d', visited)
    ∧ visited `prefix_of` status_targets s gid
    ∧ (e = None -> visited = status_targets s gid)
    ∧ (get_node_by_gid (local_nodes_ s) gid = None -> s' = s ∧ d' = d ∧ e = None)
    ∧ (∀ (t : nat) p, status_targets s gid !! t = Some p ->
         get_node gid (Z.of_nat t) s = Ok (LocalNode p) s)
    ∧ (∀ q, q ∉ visited -> deref (heap s') q = deref (heap s) q)
    ∧ length (heap s') = length (heap s)
    ∧ local_nodes_ s' = local_nodes_ s
    ∧ nodes_vec_ s' = nodes_vec_ s
    ∧ s' = with_heap (heap s') s
    ∧ (visited = [] -> e = None ∧ d' = d)
    ∧ ∃ ds : list Dict,
        length ds = S (length visited)
        ∧ ds !! 0%nat = Some d
        ∧ last ds = Some d'
        ∧ ∀ (i : nat) p di, visited !! i = Some p -> ds !! i = Some di ->
            deref (heap s') p
            = deref (single_node p di clear_flags_default (heap s)).1.2 p
            ∧ ds !! S i = Some (single_node p di clear_flags_default (heap s)).2
            ∧ (single_node p di clear_flags_default (heap s)).1.1
              = if decide (S i = length visited) then e else None.
Proof.
  intros HK Hthr Hs Hfuel. pose proof HK as [HT _ _ _ _].
  destruct (invariants_reachable K s HK Hthr Hs) as [Hwf [Hnd Hval]].
  pose proof (wf_entries _ _ Hwf) as Hok. rewrite Forall_forall in Hok.
  assert (Hloop :
    set_status Dict clear_access_flags all_entries_accessed is_proxy
      set_status_base clear_flags_default fuel gid d s
    = (let r := set_status_each (λ q d h, single_node q d clear_flags_default h)
                  (status_targets s gid) d (heap s) [] in
       Some (r.1.1.1, with_heap r.1.1.2 s, r.1.2, r.2))
    ∧ NoDup (status_targets s gid)
    ∧ Forall (λ q, (q < length (heap s))%nat) (status_targets s gid)
    ∧ (get_node_by_gid (local_nodes_ s) gid = None -> status_targets s gid = [])
    ∧ ∀ (t : nat) p, status_targets s gid !! t = Some p ->
        get_node gid (Z.of_nat t) s = Ok (LocalNode p) s).
  { unfold set_status, status_targets, get_node.
    destruct (get_node_by_gid (local_nodes_ s) gid) as [c|] eqn:Hc.
    2:{ cbn. rewrite with_heap_heap. split; [done|]. split; [constructor|].
        by repeat split. }
    pose proof (get_node_by_gid_Some _ _ _ Hc) as Hin.
    destruct (Hok _ Hin) as (Hv & _ & Hshape). cbn [fst snd] in *.
    pose proof (NoDup_entry_nodes _ _ _ Hnd Hin) as Hnd'.
    pose proof (entry_nodes_valid _ _ _ Hval Hin) as Hval'.
    unfold entry_nodes in Hnd', Hval'. cbn [fst] in Hnd', Hval'.
    apply NoDup_cons in Hnd' as [Hself Hnd']. apply Forall_cons in Hval' as [_ Hval'].
    destruct (Z.eqb_spec (num_thread_siblings (deref (heap s) c)) 0) as [H0|H0].
    - cbn [set_status_each].
      split; [by destruct (single_node c d clear_flags_default (heap s)) as [[[e|] h1] d1]|].
      split; [apply NoDup_singleton|]. split; [by apply Forall_singleton|].
      split; [done|]. intros [|t] p; [|done]. by intros [= <-].
    - destruct Hshape as [[Hnil _]|Hcont].
      { unfold num_thread_siblings in H0. by rewrite Hnil in H0. }
      pose proof (set_status_siblings_each c fuel 0 d (heap s) [] Hself) as Eloop.
      change (Z.of_nat 0) with 0 in Eloop. rewrite Eloop
        by (unfold num_thread_siblings in Hcont; lia).
      clear Eloop. rewrite drop_0.
      split; [by destruct (set_status_each _ _ _ _ _) as [[[e h1] d1] visited]|].
      split; [done|]. split; [done|]. split; [done|].
      intros t p Hp. pose proof (lookup_lt_Some _ _ _ Hp) as Hlt.
      rewrite Hcont, to_thread_small by lia.
      destruct (Z.ltb_spec (Z.of_nat t) 0); [lia|].
      destruct (Z.leb_spec (get_num_threads K) (Z.of_nat t));
        [unfold num_thread_siblings in Hcont; lia|].
      cbn [orb]. unfold get_thread_sibling.
      destruct (Z.ltb_spec (Z.of_nat t) 0); [lia|]. by rewrite Nat2Z.id, Hp. }
  destruct Hloop as (Hloop & Hndt & Hvt & Hnone & Hget). rewrite Hloop. clear Hloop.
  destruct (set_status_each_trace (status_targets s gid) d (heap s) [] Hndt Hvt)
    as (done & ds & Hvis & Hpre & Hnil & Hout & Hlen & Hds & Hd0 & Hlast & Htrace).
  destruct (set_status_each_frame (status_targets s gid) d (heap s) [])
    as (_ & done' & Hvis' & _ & Hall & _).
  destruct (set_status_each _ _ _ _ _) as [[[e h1] d1] visited].
  cbn in Hvis, Hnil, Hout, Hlen, Hlast, Htrace, Hvis', Hall. subst visited.
  cbn zeta. cbn [fst snd].
  exists e, (with_heap h1 s), d1, done.
  split; [done|]. split; [done|]. split; [by rewrite Hvis'|]. split.
  { intros Hn. rewrite (Hnone Hn) in Hpre. apply prefix_nil_inv in Hpre. subst done.
    destruct ds as [|d0 [|? ?]]; try done. cbn in Hd0, Hlast.
    assert (d1 = d) as -> by congruence. rewrite (Hnil eq_refl).
    split; [|done]. rewrite <- with_heap_heap. f_equal.
    apply list_eq. intros q. 
    destruct (decide (q < length (heap s))%nat) as [Hq|Hq].
    - destruct (lookup_lt_is_Some_2 h1 q ltac:(lia)) as [x Hx].
      destruct (lookup_lt_is_Some_2 (heap s) q Hq) as [y Hy].
      rewrite Hx, Hy. f_equal.
      rewrite <- (lookup_deref _ _ _ Hx), <- (lookup_deref _ _ _ Hy).
      apply Hout, not_elem_of_nil.
    - rewrite !lookup_ge_None_2 by lia. done. }
  split; [done|]. split; [done|]. split; [done|]. split; [done|]. split; [done|].
  split; [done|]. split.
  { intros ->. split; [by apply Hnil|].
    destruct ds as [|d0 [|? ?]]; try done. cbn in Hd0, Hlast. congruence. }
  exists ds. split; [done|]. split; [done|]. split; [done|]. exact Htrace.
Qed.

End StatusProperties.

Lemma set_status_visits_node_or_replicas_witness :
  ∃ e s' d' visited,
    set_status unit id (λ _, true) (λ _, false)
      (λ x d, (if thread_ x =? 1 then Some "bad"%string else None,
               count_calibrate x, d)) true
      2 6 tt (neurons_and_device 1)
    = Some (e, s', d', visited)
    ∧ visited `prefix_of` status_targets (neurons_and_device 1) 6
    ∧ (e = None -> visited = status_targets (neurons_and_device 1) 6)
    ∧ (visited = [] -> e = None ∧ d' = tt).
Proof.
  destruct (set_status_visits_node_or_replicas unit id (λ _, true) (λ _, false)
              (λ x d, (if thread_ x =? 1 then Some "bad"%string else None,
                       count_calibrate x, d)) true
              (two_by_two 1) (neurons_and_device 1) 6 tt 2
              (two_by_two_bounds 1 ltac:(lia)) (two_by_two_local_threads 1)
              (neurons_and_device_reachable 1 ltac:(right; reflexivity)))
    as (e & s' & d' & visited & E & Hpre & Hall & _ & _ & _ & _ & _ & _ & _ & Hnil & _).
  - cbn. lia.
  - exists e, s', d', visited.
    split; [exact E|]. split; [exact Hpre|]. split; [exact Hall|exact Hnil].
Defined.

(** ** Restoring nodes *)

Lemma entry_ok_store_keeps K (h : Heap) p x e :
  keeps_placement (deref h p) x ->
  entry_ok K h e -> entry_ok K (store p (λ _, x) h) e.
Proof.
  intros (Hg & Ht & Hc) (Hv & Hgid & Hshape). unfold entry_ok.
  rewrite length_store. destruct (decide (p = e.1)) as [->|Hne].
  - rewrite deref_store_eq by done. unfold num_thread_siblings in *.
    rewrite Hg, Ht, Hc. done.
  - rewrite deref_store_ne by done. done.
Qed.

Lemma wf_store_keeps K s p x :
  keeps_placement (deref (heap s) p) x -> wf K s ->
  wf K (with_heap (store p (λ _, x) (heap s)) s).
Proof.
  intros Hk [H1 H2 H3 H4]. split; try done. cbn.
  eapply Forall_impl; [exact H4|]. intros e. by apply entry_ok_store_keeps.
Qed.

(** In a well-formed state the lookup for thread 0 returns. *)
Lemma get_node_thread_0 K s g :
  kernel_bounds K -> wf K s -> ∃ r, get_node g 0 s = Ok r s.
Proof.
  intros [HT _ _ _ _] Hwf. pose proof (wf_entries _ _ Hwf) as Hok.
  rewrite Forall_forall in Hok. unfold get_node.
  destruct (get_node_by_gid (local_nodes_ s) g) as [c|] eqn:Hc; [|by eexists].
  destruct (Hok _ (get_node_by_gid_Some _ _ _ Hc)) as (_ & _ & Hshape).
  cbn [fst] in Hshape.
  destruct (Z.eqb_spec (num_thread_siblings (deref (heap s) c)) 0); [by eexists|].
  destruct Hshape as [[Hnil _]|Hcont].
  { unfold num_thread_siblings in *. by rewrite Hnil in *. }
  rewrite Hcont, to_thread_small by lia.
  destruct (Z.leb_spec (get_num_threads K) 0); [lia|]. cbn.
  destruct (container_nodes_ (deref (heap s) c)) as [|p l] eqn:E; [|by eexists].
  unfold num_thread_siblings in Hcont. rewrite E in Hcont. cbn in Hcont. lia.
Qed.

(** A call of [add_node] within the capacity of the registry returns. *)
Lemma add_node_returns K mid n s :
  kernel_bounds K -> placement_by_rank K -> local_threads_in_range K ->
  0 <= mid < get_num_node_models K -> 1 <= n -> wf K s ->
  size s + 1 + n <= max_size K ->
  ∃ s', add_node K mid n s
        = Ok (GIDCollectionPrimitive (size s + 1) (size s + n) mid) s'
    ∧ modelranges s' = modelranges s ++ [(mid, size s + 1, size s + n)]
    ∧ size s' = size s + n
    ∧ wf K s'.
Proof.
  intros HK Hrank Hthr Hmid Hn Hwf Hcap. pose proof HK as [_ _ _ _ Hsize].
  pose proof (wf_max_gid _ _ Hwf) as Hmax. unfold size, get_max_gid in *.
  destruct (get_model_valid K mid Hmid) as [model Hmodel].
  pose proof (add_node_within_capacity K mid n s model HK Hmodel Hn
                ltac:(unfold get_max_gid; lia) ltac:(unfold get_max_gid; lia)) as E.
  cbn zeta in E. unfold get_max_gid in E.
  destruct (place_nodes_max_gid K model mid n (max_gid_ (local_nodes_ s) + 1)
              (max_gid_ (local_nodes_ s) + n + 1)
              (add_range mid (max_gid_ (local_nodes_ s) + 1)
                 (max_gid_ (local_nodes_ s) + n) s))
    as (s1 & E1 & Hmax1); try done; try lia; [cbn; lia|].
  rewrite E1 in E. eexists. split; [exact E|].
  pose proof (grows_place_nodes _ _ _ _ _ _ _ _ E1) as Hg.
  assert (Hres : result_state (add_node K mid n s)
                 = Some (if is_off_grid model
                         then set_off_grid_communication true s1 else s1))
    by (by rewrite E).
  split; [|split].
  - destruct (is_off_grid model); cbn; by rewrite (grows_modelranges _ _ Hg).
  - destruct (is_off_grid model); cbn; lia.
  - eapply wf_add_node; [done|done| |done|exact Hres]. lia.
Qed.

Section RestoreProperties.
Context (K : Kernel) (HK : kernel_bounds K).
Context (Hrank : placement_by_rank K) (Hthr : local_threads_in_range K).
Context (Dict : Type).
Context (model_name : Dict -> string).
Context (get_model_id : string -> Z).
Context (set_status_base : Node -> Dict -> option exn * Node).
Context (set_status_base_proxy : Z -> Dict -> option exn).
Context (Hkeeps : forall x d, keeps_placement x (set_status_base x d).2).
Context (Hquiet : forall x d, (set_status_base x d).1 = None).
Context (Hquiet_proxy : forall g d, set_status_base_proxy g d = None).

Local Abbreviation restore_one :=
  (restore_node K Dict model_name get_model_id set_status_base
     set_status_base_proxy).
Local Abbreviation restore_all :=
  (restore_nodes K Dict model_name get_model_id set_status_base
     set_status_base_proxy).

Lemma restore_node_returns d s :
  0 <= get_model_id (model_name d) < get_num_node_models K -> wf K s ->
  size s + 2 <= max_size K ->
  ∃ r s', restore_one d s = Ok r s'
    ∧ modelranges s'
      = modelranges s ++ [(get_model_id (model_name d), size s + 1, size s + 1)]
    ∧ size s' = size s + 1
    ∧ wf K s'.
Proof.
  intros Hmid Hwf Hcap. unfold restore_node.
  destruct (add_node_returns K (get_model_id (model_name d)) 1 s)
    as (s1 & -> & Hranges & Hsize & Hwf1); try done; [lia|]. cbn [first_gid].
  destruct (get_node_thread_0 K s1 (size s + 1) HK Hwf1) as [r Hr].
  rewrite Hr. destruct r as [p|thr g].
  - pose proof (Hkeeps (deref (heap s1) p) d) as Hk.
    pose proof (Hquiet (deref (heap s1) p) d) as Hq.
    destruct (set_status_base _ _) as [raised x]. cbn in Hk, Hq. subst raised.
    eexists _, _. split; [done|]. split; [done|]. split; [done|].
    by apply wf_store_keeps.
  - rewrite Hquiet_proxy. by eexists _, _.
Qed.

End RestoreProperties.

(** X15: [restore_nodes] gives the records consecutive GIDs in the order of
    the list, one node per record: when the models of the records are known,
    the registry has room and no node raises on its properties, the call
    returns, the table of model ranges gains one single-GID range per record,
    in order and starting right after the size of the network, and the size
    of the network grows by the number of records. The state stays
    well-formed provided [set_status_base] leaves GID, thread and thread
    siblings of a node alone. *)
Theorem restore_nodes_consecutive_gids K Dict model_name get_model_id
    set_status_base set_status_base_proxy node_list s :
  kernel_bounds K -> placement_by_rank K -> local_threads_in_range K ->
  (∀ x d, keeps_placement x (set_status_base x d).2) ->
  (∀ x d, (set_status_base x d).1 = None) ->
  (∀ g d, set_status_base_proxy g d = None) ->
  Forall (λ d, 0 <= get_model_id (model_name d) < get_num_node_models K) node_list ->
  wf K s -> size s + 1 + Z.of_nat (length node_list) <= max_size K ->
  ∃ restored s',
    restore_nodes K Dict model_name get_model_id set_status_base
      set_status_base_proxy node_list s = Ok restored s'
    ∧ length restored = length node_list
    ∧ modelranges s'
      = modelranges s
        ++ imap (λ i d, (get_model_id (model_name d),
                         size s + 1 + Z.of_nat i, size s + 1 + Z.of_nat i))
             node_list
    ∧ size s' = size s + Z.of_nat (length node_list)
    ∧ wf K s'.
Proof.
  intros HK Hrank Hthr Hkeeps Hquiet Hproxy Hmids. revert s.
  induction node_list as [|d node_list IH]; intros s Hwf Hcap;
    cbn [restore_nodes].
  - exists [], s. cbn. rewrite app_nil_r, Z.add_0_r. done.
  - apply Forall_cons in Hmids as [Hmid Hmids]. cbn [length] in Hcap.
    destruct (restore_node_returns K HK Hrank Hthr Dict model_name get_model_id
                set_status_base set_status_base_proxy Hkeeps Hquiet Hproxy
                d s Hmid Hwf ltac:(lia))
      as (r & s1 & -> & Hranges1 & Hsize1 & Hwf1).
    destruct (IH Hmids s1 Hwf1 ltac:(lia))
      as (rs & s2 & -> & Hlen & Hranges2 & Hsize2 & Hwf2).
    exists (r :: rs), s2. split; [done|]. split; [by cbn; rewrite Hlen|].
    split; [|split; [cbn [length]; lia|done]].
    rewrite Hranges2, Hranges1, <- app_assoc. f_equal. cbn [app imap].
    rewrite Z.add_0_r. f_equal. apply imap_ext. intros i d' _. cbn.
    rewrite Hsize1. f_equal; [f_equal|]; lia.
Qed.

Lemma restore_nodes_consecutive_gids_witness :
  ∃ restored s',
    restore_nodes (two_by_two 0) Z (λ _, "model"%string) (λ _, 1)
      (λ x _, (None, x)) (λ _ _, None) [10; 20] (five_neurons 0)
    = Ok restored s'
    ∧ modelranges s' = modelranges (five_neurons 0) ++ [(1, 6, 6); (1, 7, 7)]
    ∧ size s' = 7.
Proof.
  destruct (restore_nodes_consecutive_gids (two_by_two 0) Z (λ _, "model"%string)
              (λ _, 1) (λ x _, (None, x)) (λ _ _, None) [10; 20] (five_neurons 0)
              (two_by_two_bounds 0 ltac:(lia))
              (round_robin_placement_by_rank 2 0 2 0 example_models
                 ltac:(lia) ltac:(lia))
              (two_by_two_local_threads 0))
    as (restored & s' & E & _ & Hranges & Hsize & _).
  - done.
  - done.
  - done.
  - assert (Hm : get_num_node_models (two_by_two 0) = 5) by reflexivity.
    rewrite Hm. repeat (constructor; [lia|]). constructor.
  - apply (wf_manager_steps (two_by_two 0) NodeManager_init).
    + apply two_by_two_bounds. lia.
    + apply two_by_two_local_threads.
    + eapply rtc_l; [apply (step_add_node _ 1 5); [lia|vm_compute; reflexivity]|].
      apply rtc_refl.
    + apply wf_init. vm_compute. discriminate.
  - vm_compute. discriminate.
  - exists restored, s'. split; [exact E|]. split.
    + etrans; [exact Hranges|]. vm_compute. reflexivity.
    + etrans; [exact Hsize|]. vm_compute. reflexivity.
Defined.

(** What [add_node] registers for a model that is replicated on the threads:
    one container per GID, each with a replica per thread. *)
Lemma add_node_device K mid n s model :
  kernel_bounds K -> get_model K mid = Some model ->
  potential_global_receiver model && (0 <? get_num_rec_processes K) = false ->
  has_proxies model = false -> one_node_per_process model = false ->
  1 <= n -> 0 <= size s -> size s + 1 + n <= max_size K ->
  registry_below_max s ->
  ∃ s1 containers,
    add_node K mid n s = Ok (GIDCollectionPrimitive (size s + 1) (size s + n) mid) s1
    ∧ nodes_ (local_nodes_ s1) = nodes_ (local_nodes_ s) ++ containers
    ∧ containers.*2 = seqZ (size s + 1) n
    ∧ Forall (λ e : ptr * Z, replicated K mid s1 e.2 e.1) containers.
Proof.
  intros HK Hmodel Hgr Hprox Hone Hn Hmax Hcap Hbelow.
  pose proof (get_model_Some K mid model Hmodel) as Hmid.
  unfold size in *.
  rewrite (add_node_within_capacity K mid n s model) by done.
  unfold place_nodes. rewrite Hgr, Hprox, Hone. cbn [negb].
  unfold siblingcontainer_model_.
  destruct (get_model_valid K 0) as [sc ->]; [lia|].
  replace (get_max_gid (local_nodes_ s) + n + 1 - (get_max_gid (local_nodes_ s) + 1))
    with n by lia.
  set (first := get_max_gid (local_nodes_ s) + 1).
  set (s0 := add_range mid first (get_max_gid (local_nodes_ s) + n) s).
  destruct (fold_add_sibling_container K sc model mid HK (Z.to_nat n) first s0)
    as (_ & _ & _ & containers & Hnodes & Hgids & Hrep).
  { exact Hbelow. }
  { cbn. unfold first, get_max_gid. lia. }
  rewrite Z2Nat.id in * by lia.
  set (s1 := fold_left _ (seqZ first n) s0) in *.
  set (s' := if is_off_grid model then set_off_grid_communication true s1 else s1).
  assert (Hh : heap s' = heap s1) by (unfold s'; by destruct (is_off_grid model)).
  assert (Hl : local_nodes_ s' = local_nodes_ s1)
    by (unfold s'; by destruct (is_off_grid model)).
  exists s', containers. split; [done|]. split; [by rewrite Hl|]. split; [done|].
  eapply Forall_impl; [exact Hrep|]. intros e Hr.
  destruct Hr. split; rewrite ?Hh, ?Hl; done.
Qed.

(** X16: for a record of a model that is replicated on the threads,
    [restore_node] hands the properties to the replica of thread 0 alone: the
    replicas the new container holds for the other threads are left as
    [add_node] created them. *)
Theorem restore_node_reaches_thread_0_only K Dict model_name get_model_id
    set_status_base set_status_base_proxy d s model :
  let mid := get_model_id (model_name d) in
  let gid := size s + 1 in
  kernel_bounds K -> get_model K mid = Some model ->
  potential_global_receiver model && (0 <? get_num_rec_processes K) = false ->
  has_proxies model = false -> one_node_per_process model = false ->
  0 <= size s -> size s + 2 <= max_size K -> registry_below_max s ->
  ∃ s1 c p0 s',
    add_node K mid 1 s = Ok (GIDCollectionPrimitive gid gid mid) s1
    ∧ get_node_by_gid (local_nodes_ s1) gid = Some c
    ∧ get_thread_sibling (deref (heap s1) c) 0 = Some p0
    ∧ result_state (restore_node K Dict model_name get_model_id set_status_base
                      set_status_base_proxy d s) = Some s'
    ∧ deref (heap s') p0 = (set_status_base (deref (heap s1) p0) d).2
    ∧ ∀ t, 1 <= t < get_num_threads K ->
        ∃ p, get_thread_sibling (deref (heap s1) c) t = Some p
          ∧ p ≠ p0
          ∧ deref (heap s') p = deref (heap s1) p.
Proof.
  intros mid gid HK Hmodel Hgr Hprox Hone Hmax Hcap Hbelow.
  pose proof HK as [HT _ _ _ _].
  destruct (add_node_device K mid 1 s model)
    as (s1 & containers & Hadd & Hnodes & Hgids & Hrep); try done; [lia|].
  replace (size s + 1) with gid in Hadd, Hgids by done.
  destruct containers as [|[c g] [|? ?]]; try done.
  assert (g = gid) as -> by (cbn in Hgids; injection Hgids; lia).
  rewrite Forall_singleton in Hrep. cbn [fst snd] in Hrep.
  destruct (get_node_replicated K mid s1 gid c 0 HK Hrep ltac:(lia))
    as (p0 & Hget & Hsib0 & _ & _ & Hthr0 & _).
  unfold restore_node. fold mid. rewrite Hadd. cbn [first_gid]. rewrite Hget.
  destruct (set_status_base (deref (heap s1) p0) d) as [raised x] eqn:Hx.
  exists s1, c, p0, (with_heap (store p0 (λ _, x) (heap s1)) s1).
  split; [done|]. split; [apply Hrep|]. split; [done|].
  split; [by destruct raised|]. split.
  - destruct (rep_siblings _ _ _ _ _ Hrep 0 ltac:(lia)) as (q & Hq & Hv & _).
    rewrite Hsib0 in Hq. injection Hq as <-.
    cbn [heap with_heap]. by rewrite deref_store_eq, Hx.
  - intros t Ht.
    destruct (rep_siblings _ _ _ _ _ Hrep t ltac:(lia))
      as (p & Hp & _ & _ & _ & Hthr & _).
    exists p. split; [done|].
    assert (Hne : p ≠ p0) by (intros ->; lia).
    split; [done|]. cbn. by apply deref_store_ne.
Qed.

Lemma restore_node_reaches_thread_0_only_witness :
  ∃ s1 c p0 s',
    add_node one_by_two 2 1 NodeManager_init = Ok (GIDCollectionPrimitive 1 1 2) s1
    ∧ get_node_by_gid (local_nodes_ s1) 1 = Some c
    ∧ get_thread_sibling (deref (heap s1) c) 0 = Some p0
    ∧ result_state (restore_node one_by_two Z (λ _, "device"%string) (λ _, 2)
                      (λ x _, (None, x)) (λ _ _, None) 0 NodeManager_init) = Some s'
    ∧ ∃ p, get_thread_sibling (deref (heap s1) c) 1 = Some p
        ∧ p ≠ p0
        ∧ deref (heap s') p = deref (heap s1) p.
Proof.
  destruct (restore_node_reaches_thread_0_only one_by_two Z (λ _, "device"%string)
              (λ _, 2) (λ x _, (None, x)) (λ _ _, None) 0 NodeManager_init device)
    as (s1 & c & p0 & s' & Hadd & Hc & Hp0 & Hres & _ & Hothers).
  - split; cbn; lia.
  - reflexivity.
  - reflexivity.
  - reflexivity.
  - reflexivity.
  - cbn. lia.
  - cbn. lia.
  - apply Forall_nil_2.
  - exists s1, c, p0, s'. split; [exact Hadd|]. split; [exact Hc|].
    split; [exact Hp0|]. split; [exact Hres|]. apply Hothers. cbn. lia.
Defined.

(** ** The branches of [add_node] for one node per process and for global
    receivers *)

Lemma lookup_register x extra s :
  registry_below_max s -> max_gid_ (local_nodes_ s) < gid_ x ->
  get_node_by_gid (local_nodes_ (register x extra s)) (gid_ x)
  = Some (length (heap s)).
Proof.
  intros Hbelow Hmax. unfold get_node_by_gid. cbn [register local_nodes_
    with_local_nodes nodes_].
  rewrite find_app_None.
  - cbn. by rewrite Z.eqb_refl.
  - pose proof (get_node_by_gid_above (local_nodes_ s) (gid_ x)) as H.
    unfold get_node_by_gid in H.
    destruct (List.find _ _); [|done]. discriminate H.
    eapply Forall_impl; [exact Hbelow|]. cbn. lia.
Qed.

Lemma lookup_register_other x extra s g :
  g ≠ gid_ x ->
  get_node_by_gid (local_nodes_ (register x extra s)) g
  = get_node_by_gid (local_nodes_ s) g.
Proof.
  intros Hne. unfold get_node_by_gid. cbn [register local_nodes_
    with_local_nodes nodes_].
  destruct (List.find _ (nodes_ (local_nodes_ s))) as [e|] eqn:E.
  - by rewrite (find_app_Some _ _ _ _ E).
  - rewrite (find_app_None _ _ _ E). cbn.
    by destruct (Z.eqb_spec (gid_ x) g).
Qed.

Lemma fold_add_process_node K model mid :
  forall (k : nat) first s,
    registry_below_max s -> max_gid_ (local_nodes_ s) < first ->
    let s' := fold_left (add_process_node K model mid)
                (seqZ first (Z.of_nat k)) s in
    registry_below_max s'
    ∧ max_gid_ (local_nodes_ s') < first + Z.of_nat k
    ∧ length (heap s') = (length (heap s) + k)%nat
    ∧ ∀ g, first <= g < first + Z.of_nat k ->
        ∃ p, get_node_by_gid (local_nodes_ s') g = Some p
          ∧ (length (heap s) <= p < length (heap s'))%nat
          ∧ deref (heap s') p = process_node K model mid g.
Proof.
  intros k first s Hbelow Hmax. cbv zeta. induction k as [|k IH].
  - rewrite seqZ_nil by lia. cbn [fold_left]. split; [done|]. split; [lia|].
    split; [lia|]. intros g Hg. lia.
  - rewrite seqZ_S, fold_left_app. cbn [fold_left].
    destruct IH as (Hb & Hm & Hlen & Hold).
    set (s1 := fold_left _ (seqZ first (Z.of_nat k)) s) in *.
    rewrite add_process_node_register.
    set (x := process_node K model mid (first + Z.of_nat k)).
    assert (Hgx : gid_ x = first + Z.of_nat k) by apply gid_process_node.
    split; [by apply registry_below_max_register|].
    split; [rewrite max_gid_register; lia|].
    assert (Hh : heap (register x [] s1) = heap s1 ++ [x]) by done.
    split; [rewrite Hh, length_app; cbn; lia|].
    intros g Hg. rewrite Hh. destruct (decide (g = first + Z.of_nat k)) as [->|Hne].
    + exists (length (heap s1)). rewrite <- Hgx at 1.
      rewrite lookup_register by (done || lia). split; [done|].
      rewrite deref_fresh, length_app. cbn. split; [lia|done].
    + destruct (Hold g ltac:(lia)) as (p & Hp & Hv & Hd). exists p.
      rewrite lookup_register_other by (rewrite Hgx; done).
      split; [done|]. rewrite length_app, deref_app_l by lia. split; [lia|done].
Qed.

(** X17: for a model with one node per process (no proxies, not a global
    receiver on recording processes), [add_node] creates on every process one
    plain node for each GID of the range, in order at the end of the pool;
    each carries its GID and the model id, runs on thread 0 on the virtual
    process of that thread, and is what [get_node] returns for its GID and
    any thread. *)
Theorem add_node_one_node_per_process K mid n s model :
  kernel_bounds K -> get_model K mid = Some model ->
  potential_global_receiver model && (0 <? get_num_rec_processes K) = false ->
  has_proxies model = false -> one_node_per_process model = true ->
  1 <= n -> 0 <= size s -> size s + 1 + n <= max_size K ->
  registry_below_max s ->
  ∃ s',
    add_node K mid n s
    = Ok (GIDCollectionPrimitive (size s + 1) (size s + n) mid) s'
    ∧ length (heap s') = (length (heap s) + Z.to_nat n)%nat
    ∧ ∀ g, size s + 1 <= g <= size s + n ->
        ∃ p, (∀ t, get_node g t s' = Ok (LocalNode p) s')
          ∧ (length (heap s) <= p < length (heap s'))%nat
          ∧ gid_ (deref (heap s') p) = g
          ∧ model_id_ (deref (heap s') p) = mid
          ∧ thread_ (deref (heap s') p) = 0
          ∧ vp_ (deref (heap s') p) = thread_to_vp K 0
          ∧ num_thread_siblings (deref (heap s') p) = 0.
Proof.
  intros HK Hmodel Hgr Hprox Hone Hn Hmax Hcap Hbelow. unfold size in *.
  rewrite (add_node_within_capacity K mid n s model) by done.
  unfold place_nodes. rewrite Hgr, Hprox, Hone. cbn [negb].
  replace (get_max_gid (local_nodes_ s) + n + 1 - (get_max_gid (local_nodes_ s) + 1))
    with n by lia.
  set (first := get_max_gid (local_nodes_ s) + 1).
  set (s0 := add_range mid first (get_max_gid (local_nodes_ s) + n) s).
  destruct (fold_add_process_node K model mid (Z.to_nat n) first s0)
    as (_ & _ & Hlen & Hnew).
  { exact Hbelow. }
  { cbn. unfold first, get_max_gid. lia. }
  rewrite Z2Nat.id in * by lia.
  set (s1 := fold_left _ (seqZ first n) s0) in *.
  set (s' := if is_off_grid model then set_off_grid_communication true s1 else s1).
  assert (Hh : heap s' = heap s1) by (unfold s'; by destruct (is_off_grid model)).
  assert (Hl : local_nodes_ s' = local_nodes_ s1)
    by (unfold s'; by destruct (is_off_grid model)).
  exists s'. split; [done|]. rewrite Hh. split; [exact Hlen|].
  intros g Hg. destruct (Hnew g ltac:(unfold first; lia)) as (p & Hp & Hv & Hd).
  exists p. split.
  - intros t. unfold get_node. rewrite Hl, Hp, Hh, Hd. done.
  - rewrite Hd. split; [exact Hv|]. by repeat split; try apply gid_process_node.
Qed.

Lemma add_node_one_node_per_process_witness :
  ∃ s',
    add_node (two_by_two 1) 3 2 (five_neurons 1)
    = Ok (GIDCollectionPrimitive (size (five_neurons 1) + 1)
            (size (five_neurons 1) + 2) 3) s'
    ∧ length (heap s') = (length (heap (five_neurons 1)) + Z.to_nat 2)%nat.
Proof.
  destruct (add_node_one_node_per_process (two_by_two 1) 3 2 (five_neurons 1)
              music_proxy (two_by_two_bounds 1 ltac:(lia)))
    as (s' & E & Hlen & _).
  - reflexivity.
  - reflexivity.
  - reflexivity.
  - reflexivity.
  - lia.
  - vm_compute. discriminate.
  - vm_compute. discriminate.
  - unfold registry_below_max. vm_compute (nodes_ _). vm_compute (max_gid_ _).
    repeat (constructor; [cbn; lia|]). constructor.
  - exists s'. split; [exact E|exact Hlen].
Defined.

Lemma registry_below_max_add_remote_node g s :
  registry_below_max s ->
  registry_below_max (with_local_nodes (add_remote_node g (local_nodes_ s)) s).
Proof.
  unfold registry_below_max. cbn. intros H.
  eapply Forall_impl; [exact H|]. cbn. lia.
Qed.

Lemma fold_add_global_receiver K model mid :
  forall (k : nat) first s,
    registry_below_max s -> max_gid_ (local_nodes_ s) < first ->
    let s' := fold_left (add_global_receiver K model mid)
                (seqZ first (Z.of_nat k)) s in
    registry_below_max s'
    ∧ max_gid_ (local_nodes_ s') < first + Z.of_nat k
    ∧ n_gsd_ s' = n_gsd_ s + Z.of_nat k
    ∧ (length (heap s) <= length (heap s'))%nat
    ∧ ∀ i, 0 <= i < Z.of_nat k ->
        if is_local_vp K (suggest_rec_vp K (n_gsd_ s + i)) then
          ∃ p, get_node_by_gid (local_nodes_ s') (first + i) = Some p
            ∧ (length (heap s) <= p < length (heap s'))%nat
            ∧ deref (heap s') p
              = receiver_node K model mid (first + i)
                  (suggest_rec_vp K (n_gsd_ s + i))
        else get_node_by_gid (local_nodes_ s') (first + i) = None.
Proof.
  intros k first s Hbelow Hmax. cbv zeta. induction k as [|k IH].
  - rewrite seqZ_nil by lia. cbn [fold_left]. split; [done|]. split; [lia|].
    split; [lia|]. split; [done|]. intros i Hi. lia.
  - rewrite seqZ_S, fold_left_app. cbn [fold_left].
    destruct IH as (Hb & Hm & Hn & Hlen & Hold).
    set (s1 := fold_left _ (seqZ first (Z.of_nat k)) s) in *.
    rewrite add_global_receiver_eq, Hn.
    set (vp := suggest_rec_vp K (n_gsd_ s + Z.of_nat k)).
    set (x := receiver_node K model mid (first + Z.of_nat k) vp).
    assert (Hgx : gid_ x = first + Z.of_nat k) by apply gid_receiver_node.
    destruct (is_local_vp K vp) eqn:Hloc.
    + assert (Hh : heap (increment_n_gsd (register x [] s1)) = heap s1 ++ [x]) by done.
      assert (Hl : local_nodes_ (increment_n_gsd (register x [] s1))
                   = local_nodes_ (register x [] s1)) by done.
      rewrite Hh, Hl.
      split; [by apply (registry_below_max_register x [] s1)|].
      split; [rewrite max_gid_register; lia|].
      split; [cbn; lia|]. split; [rewrite length_app; cbn; lia|].
      intros i Hi. destruct (decide (i = Z.of_nat k)) as [->|Hne].
      * fold vp. rewrite Hloc. exists (length (heap s1)). rewrite <- Hgx at 1.
        rewrite lookup_register by (done || lia). split; [done|].
        rewrite deref_fresh, length_app. cbn. split; [lia|done].
      * specialize (Hold i ltac:(lia)).
        rewrite lookup_register_other by (rewrite Hgx; lia).
        destruct (is_local_vp K (suggest_rec_vp K (n_gsd_ s + i))); [|done].
        destruct Hold as (p & Hp & Hv & Hd). exists p. split; [done|].
        rewrite length_app, deref_app_l by lia. split; [lia|done].
    + set (s2 := with_local_nodes _ s1).
      assert (Hh : heap (increment_n_gsd s2) = heap s1) by done.
      assert (Hl : local_nodes_ (increment_n_gsd s2) = local_nodes_ s2) by done.
      assert (Hnodes : ∀ g, get_node_by_gid (local_nodes_ s2) g
                            = get_node_by_gid (local_nodes_ s1) g) by done.
      rewrite Hh, Hl.
      split; [by apply registry_below_max_add_remote_node|].
      split; [cbn; lia|]. split; [cbn; lia|]. split; [done|].
      intros i Hi. rewrite Hnodes. destruct (decide (i = Z.of_nat k)) as [->|Hne].
      * fold vp. rewrite Hloc. apply get_node_by_gid_above.
        eapply Forall_impl; [exact Hb|]. cbn. lia.
      * apply Hold. lia.
Qed.

(** X18: for a model that can be a global receiver, on a network with
    recording processes, [add_node] deals the GIDs of the range out to the
    virtual processes the topology suggests for the running count of global
    receivers: the node of the [i]-th GID goes to the virtual process
    suggested for [n_gsd_ + i]; it is created and registered on the process
    that owns that virtual process, with proxies and not as a local
    receiver, and is unknown to the registry of every other process. The
    count grows by the number of GIDs. *)
Theorem add_node_global_receivers K mid n s model :
  kernel_bounds K -> get_model K mid = Some model ->
  potential_global_receiver model = true -> 0 < get_num_rec_processes K ->
  1 <= n -> 0 <= size s -> size s + 1 + n <= max_size K ->
  registry_below_max s ->
  ∃ s',
    add_node K mid n s
    = Ok (GIDCollectionPrimitive (size s + 1) (size s + n) mid) s'
    ∧ n_gsd_ s' = n_gsd_ s + n
    ∧ ∀ i, 0 <= i < n ->
        let g := size s + 1 + i in
        let vp := suggest_rec_vp K (n_gsd_ s + i) in
        (is_local_vp K vp = false -> get_node_by_gid (local_nodes_ s') g = None)
        ∧ (is_local_vp K vp = true ->
           ∃ p, get_node_by_gid (local_nodes_ s') g = Some p
             ∧ (length (heap s) <= p < length (heap s'))%nat
             ∧ gid_ (deref (heap s') p) = g
             ∧ model_id_ (deref (heap s') p) = mid
             ∧ vp_ (deref (heap s') p) = vp
             ∧ thread_ (deref (heap s') p) = vp_to_thread K vp
             ∧ has_proxies_ (deref (heap s') p) = true
             ∧ local_receiver_ (deref (heap s') p) = false).
Proof.
  intros HK Hmodel Hgr Hrec Hn Hmax Hcap Hbelow. unfold size in *.
  rewrite (add_node_within_capacity K mid n s model) by done.
  unfold place_nodes. rewrite Hgr.
  destruct (Z.ltb_spec 0 (get_num_rec_processes K)); [|lia]. cbn [andb].
  replace (get_max_gid (local_nodes_ s) + n + 1 - (get_max_gid (local_nodes_ s) + 1))
    with n by lia.
  set (first := get_max_gid (local_nodes_ s) + 1).
  set (s0 := add_range mid first (get_max_gid (local_nodes_ s) + n) s).
  destruct (fold_add_global_receiver K model mid (Z.to_nat n) first s0)
    as (_ & _ & Hgsd & _ & Hnew).
  { exact Hbelow. }
  { cbn. unfold first, get_max_gid. lia. }
  rewrite Z2Nat.id in * by lia.
  set (s1 := fold_left _ (seqZ first n) s0) in *.
  set (s' := if is_off_grid model then set_off_grid_communication true s1 else s1).
  assert (Hh : heap s' = heap s1) by (unfold s'; by destruct (is_off_grid model)).
  assert (Hl : local_nodes_ s' = local_nodes_ s1)
    by (unfold s'; by destruct (is_off_grid model)).
  assert (Hg' : n_gsd_ s' = n_gsd_ s1) by (unfold s'; by destruct (is_off_grid model)).
  exists s'. split; [done|]. rewrite Hg', Hh, Hl. split; [exact Hgsd|].
  intros i Hi. cbv zeta. specialize (Hnew i Hi).
  change (n_gsd_ s0) with (n_gsd_ s) in Hnew. change (heap s0) with (heap s) in Hnew.
  destruct (is_local_vp K (suggest_rec_vp K (n_gsd_ s + i))).
  - split; [done|]. intros _. destruct Hnew as (p & Hp & Hv & Hd).
    exists p. split; [exact Hp|]. split; [exact Hv|]. rewrite Hd.
    by repeat split; try apply gid_receiver_node.
  - split; [done|]. done.
Qed.

Lemma add_node_global_receivers_witness :
  ∃ s',
    add_node (round_robin 2 2 2 1 example_models) 4 2 NodeManager_init
    = Ok (GIDCollectionPrimitive (size NodeManager_init + 1)
            (size NodeManager_init + 2) 4) s'
    ∧ n_gsd_ s' = n_gsd_ NodeManager_init + 2.
Proof.
  destruct (add_node_global_receivers (round_robin 2 2 2 1 example_models) 4 2
              NodeManager_init recorder)
    as (s' & E & Hn & _).
  - split; cbn; lia.
  - reflexivity.
  - reflexivity.
  - cbn. lia.
  - lia.
  - cbn. lia.
  - cbn. lia.
  - apply Forall_nil_2.
  - exists s'. split; [exact E|exact Hn].
Defined.

(** ** Which exception [prepare_nodes] throws *)

Section PrepareRaises.
Context (init_buffers_raises calibrate_raises : ptr -> option string).

Local Abbreviation raises :=
  (preparation_raises init_buffers_raises calibrate_raises).
Local Abbreviation first_failing :=
  (first_failure init_buffers_raises calibrate_raises).

Lemma prepare_node_raises q (h : Heap) :
  (prepare_node_ init_buffers_raises calibrate_raises q h).1 = raises q.
Proof.
  unfold prepare_node_, init_buffers, calibrate, preparation_raises.
  destruct (init_buffers_raises q); [done|]. by destruct (calibrate_raises q).
Qed.

Lemma prepare_thread_raises its : forall (h : Heap) a w,
  (prepare_thread init_buffers_raises calibrate_raises its h a w).1.1.1
  = first_failing its.
Proof.
  induction its as [|it its IH]; intros h a w; cbn [prepare_thread first_failure];
    [done|].
  pose proof (prepare_node_raises it h) as Hr.
  destruct (prepare_node_ _ _ it h) as [[e|] h1]; cbn in Hr; rewrite <- Hr; [done|].
  destruct (negb _); apply IH.
Qed.

(** The slots of [exceptions_raised] after the loop over the threads. *)
Lemma prepare_threads_slots nvs (k : nat) : forall (h : Heap) a w,
  (k <= length nvs)%nat ->
  ∃ h' a' w',
    prepare_threads init_buffers_raises calibrate_raises
      (seqZ 0 (Z.of_nat k)) nvs h a w (replicate (length nvs) None)
    = Some (h', a', w',
            (first_failing <$> take k nvs) ++ replicate (length nvs - k) None).
Proof.
  induction k as [|k IH]; intros h a w Hk.
  - cbn. rewrite Nat.sub_0_r. by eexists _, _, _.
  - rewrite seqZ_S, prepare_threads_app.
    destruct (IH h a w ltac:(lia)) as (h1 & a1 & w1 & ->).
    cbn [prepare_threads]. rewrite Z.add_0_l, Nat2Z.id.
    destruct (lookup_lt_is_Some_2 nvs k ltac:(lia)) as [its Hits].
    rewrite Hits. rewrite (take_S_r _ _ _ Hits), fmap_app. cbn [fmap list_fmap].
    pose proof (prepare_thread_raises its h1 a1 w1) as Hr.
    destruct (prepare_thread _ _ its h1 a1 w1) as [[[e h2] a2] w2]. cbn in Hr.
    replace (length nvs - k)%nat with (S (length nvs - S k)) by lia.
    destruct e as [e|]; rewrite <- Hr; eexists _, _, _.
    + rewrite insert_app_r_alt by (rewrite length_fmap, length_take; lia).
      rewrite length_fmap, length_take.
      replace (k - k `min` length nvs)%nat with 0%nat by lia.
      cbn. by rewrite <- app_assoc.
    + cbn. by rewrite <- app_assoc.
Qed.

Lemma first_raised_app_None l1 l2 :
  Forall (λ e, e = None) l1 -> first_raised (l1 ++ l2) = first_raised l2.
Proof. induction 1 as [|e l1 -> _ IH]; [done|exact IH]. Qed.

Lemma first_failure_None its :
  (forall q, q ∈ its -> raises q = None) -> first_failing its = None.
Proof.
  induction its as [|it its IH]; intros H; cbn; [done|].
  rewrite (H it) by apply list_elem_of_here.
  apply IH. intros q Hq. apply H. by apply list_elem_of_further.
Qed.

Lemma first_failure_Some pre p post e :
  (forall q, q ∈ pre -> raises q = None) -> raises p = Some e ->
  first_failing (pre ++ p :: post) = Some e.
Proof.
  induction pre as [|it pre IH]; intros H Hp; cbn.
  - by rewrite Hp.
  - rewrite (H it) by apply list_elem_of_here.
    apply IH; [|done]. intros q Hq. apply H. by apply list_elem_of_further.
Qed.

End PrepareRaises.

(** X19: whatever the nodes do, [prepare_nodes] runs the loops of all
    threads and then either returns, when no node on the lists raises, or
    throws one [WrappedThreadException]: the one of the first raising node on
    the list of the lowest-numbered thread that has a raising node. Failures
    on the lists of higher-numbered threads, or further down the list, do not
    show. A throwing call leaves the registry, the lists and the count of
    active nodes as they were. *)
Theorem prepare_nodes_first_failure_wins K init_buffers_raises calibrate_raises s :
  Z.of_nat (length (nodes_vec_ s)) = get_num_threads K ->
  ((∀ q, q ∈ concat (nodes_vec_ s) ->
      preparation_raises init_buffers_raises calibrate_raises q = None) ->
   ∃ s', prepare_nodes K init_buffers_raises calibrate_raises s = Ok tt s')
  ∧ (∀ (t : nat) pre p post e,
       nodes_vec_ s !! t = Some (pre ++ p :: post) ->
       (∀ t' its q, (t' < t)%nat -> nodes_vec_ s !! t' = Some its -> q ∈ its ->
          preparation_raises init_buffers_raises calibrate_raises q = None) ->
       (∀ q, q ∈ pre ->
          preparation_raises init_buffers_raises calibrate_raises q = None) ->
       preparation_raises init_buffers_raises calibrate_raises p = Some e ->
       ∃ s', prepare_nodes K init_buffers_raises calibrate_raises s
             = Throw (WrappedThreadException e) s'
         ∧ local_nodes_ s' = local_nodes_ s
         ∧ nodes_vec_ s' = nodes_vec_ s
         ∧ num_active_nodes_ s' = num_active_nodes_ s).
Proof.
  intros HT.
  destruct (prepare_threads_slots init_buffers_raises calibrate_raises
              (nodes_vec_ s) (length (nodes_vec_ s)) (heap s) 0 0 ltac:(lia))
    as (h' & a' & w' & E).
  rewrite firstn_all, Nat.sub_diag in E. cbn [replicate] in E.
  rewrite app_nil_r in E.
  unfold prepare_nodes. rewrite <- HT, Nat2Z.id, E. split.
  - intros Hquiet.
    assert (Hnone : first_raised (first_failure init_buffers_raises calibrate_raises
                                    <$> nodes_vec_ s) = None).
    { rewrite <- (app_nil_r (_ <$> _)). rewrite first_raised_app_None; [done|].
      apply Forall_fmap, Forall_forall. intros its Hits. cbn.
      apply first_failure_None. intros q Hq. apply Hquiet.
      apply list_elem_of_In, in_concat. exists its.
      split; by apply list_elem_of_In. }
    rewrite Hnone. by eexists.
  - intros t pre p post e Ht Hlower Hpre Hp.
    assert (Hsome : first_raised (first_failure init_buffers_raises calibrate_raises
                                    <$> nodes_vec_ s) = Some e).
    { rewrite <- (take_drop_middle _ _ _ Ht), fmap_app. cbn [fmap list_fmap].
      rewrite first_raised_app_None.
      - rewrite (first_failure_Some _ _ pre p post e Hpre Hp). done.
      - apply Forall_fmap, Forall_forall. intros its Hits. cbn.
        apply list_elem_of_lookup in Hits as [t' Ht'].
        pose proof (lookup_lt_Some _ _ _ Ht') as Hlt. rewrite length_take in Hlt.
        rewrite lookup_take_lt in Ht' by lia.
        apply first_failure_None. intros q Hq.
        apply (Hlower t' its q); [lia|done|done]. }
    rewrite Hsome. by eexists.
Qed.

Lemma prepare_nodes_first_failure_wins_witness :
  ∃ s', prepare_nodes (two_by_two 1) (λ q, if Nat.eqb q 1 then Some "late"%string else None)
          calibrate_fails_at_0 (neurons_and_device_listed 1)
        = Throw (WrappedThreadException "calibration failed") s'.
Proof.
  destruct (prepare_nodes_first_failure_wins (two_by_two 1)
              (λ q, if Nat.eqb q 1 then Some "late"%string else None)
              calibrate_fails_at_0 (neurons_and_device_listed 1))
    as [_ H].
  - vm_compute. reflexivity.
  - destruct (H 0%nat [] 0%nat [2; 4]%nat "calibration failed"%string)
      as (s' & E & _).
    + vm_compute. reflexivity.
    + intros t' its q Ht'. lia.
    + intros q Hq. by apply elem_of_nil in Hq.
    + reflexivity.
    + exists s'. exact E.
Defined.
